(** * cdn-server: the edge delivery pipeline, embedded and verified

    A shallow embedding of the edge tier of the CDN server, of the
    signed-URL helpers and of the origin's purge route, followed by the
    properties the specification states about them.  The sources are
    - src/shared/config.js: the configuration;
    - src/shared/crypto.js, lines 1-49: [generateSignedUrl], [verifySignedUrl];
    - the edge's cache.js (src/unnamed/part_001): the cache module;
    - src/edge/routes/cdn.js: the [GET /cdn/:file_id] handler and
      [serveContent];
    - the edge's routes/purge.js (src/shared/crypto.js, lines 283-343);
    - shared/database.js (src/shared/crypto.js, lines 107-282) and
      src/origin/routes/admin.js: the file records and the purge route of
      the origin.

    Conventions.
    - A JavaScript number is an exact integer or NaN ([number]).  The
      numbers the code handles are epoch seconds, byte offsets and
      lengths; the embedding agrees with IEEE doubles on the safe-integer
      range.
    - A JavaScript string is a [string] (one character per byte), a
      Buffer is a [list byte].
    - [undefined] is [None]; an object used as a map is a [gmap].
    - The runtime services the code calls but does not define (HMAC-SHA256,
      Date parsing, zlib, the HTTP client) are parameters. *)

From Stdlib Require Import ZArith String Ascii List Bool Lia.
From Stdlib.Strings Require Import Byte.
From stdpp Require Import base option list strings gmap.

Local Open Scope string_scope.
Local Open Scope Z_scope.

(* ===================================================================== *)
(** * Part I: the embedding *)
(* ===================================================================== *)

(** ** JavaScript values used by the code *)

(** The numbers of the code are integers or NaN.  [Num z] stands for the
    JavaScript number of value [z]; the arithmetic, the rendering and the
    parsing below are exact, and so they are those of JavaScript where the
    numbers involved are safe integers (at most 2^53 - 1 in magnitude, see
    [safe_integer]): beyond that JavaScript rounds to a double, and from
    10^21 it renders in exponent form. *)
Inductive number : Type :=
| Num (z : Z)
| NaN.

(** [a > b], [a <= b]: every comparison with NaN is false. *)
Definition js_gt (a b : number) : bool :=
  match a, b with
  | Num x, Num y => y <? x
  | _, _ => false
  end.

Definition js_le (a b : number) : bool :=
  match a, b with
  | Num x, Num y => x <=? y
  | _, _ => false
  end.

Definition js_add (a b : number) : number :=
  match a, b with
  | Num x, Num y => Num (x + y)
  | _, _ => NaN
  end.

Definition js_sub (a b : number) : number :=
  match a, b with
  | Num x, Num y => Num (x - y)
  | _, _ => NaN
  end.

(** Truthiness of a value that is a string or undefined (a header, a
    query parameter, a metadata field). *)
Definition truthy (v : option string) : bool :=
  match v with
  | Some s => negb (String.eqb s "")
  | None => false
  end.

(** *** Number to string: the decimal rendering of template literals *)

Definition digit_char (d : Z) : ascii := ascii_of_nat (48 + Z.to_nat d).

Fixpoint digits_fuel (fuel : nat) (n : Z) : string :=
  match fuel with
  | O => ""
  | S fuel' =>
      if n <? 10 then String (digit_char n) ""
      else digits_fuel fuel' (n / 10) +:+ String (digit_char (n mod 10)) ""
  end.

(** Decimal digits of a non-negative integer; the fuel is its bit length. *)
Definition decimal (n : Z) : string :=
  digits_fuel (S (Z.to_nat (Z.log2 n))) n.

(** The rendering of a number in a template literal: decimal digits, which
    is what JavaScript prints for every safe integer (and for every exact
    integer below 10^21). *)
Definition number_to_string (x : number) : string :=
  match x with
  | NaN => "NaN"
  | Num z => if z <? 0 then "-" +:+ decimal (- z) else decimal z
  end.

(** *** parseInt *)

(** The white space [parseInt] skips, among one-byte characters: tab to
    carriage return, space and no-break space. *)
Definition is_whitespace (c : ascii) : bool :=
  let n := nat_of_ascii c in
  ((9 <=? n) && (n <=? 13))%nat || (n =? 32)%nat || (n =? 160)%nat.

Fixpoint skip_whitespace (s : string) : string :=
  match s with
  | String c s' => if is_whitespace c then skip_whitespace s' else s
  | EmptyString => s
  end.

(** Value of a character as a digit in bases up to 36. *)
Definition digit_value (c : ascii) : option Z :=
  let n := Z.of_nat (nat_of_ascii c) in
  if (48 <=? n) && (n <=? 57) then Some (n - 48)
  else if (97 <=? n) && (n <=? 122) then Some (n - 87)
  else if (65 <=? n) && (n <=? 90) then Some (n - 55)
  else None.

(** The longest prefix of digits of the radix, accumulated; [None] when
    the prefix is empty. *)
Fixpoint parse_digits (radix : Z) (s : string) (acc : option Z) : option Z :=
  match s with
  | EmptyString => acc
  | String c s' =>
      match digit_value c with
      | Some d =>
          if d <? radix
          then parse_digits radix s' (Some (default 0 acc * radix + d))
          else acc
      | None => acc
      end
  end.

Definition strip_sign (s : string) : Z * string :=
  match s with
  | String "-" s' => (-1, s')
  | String "+" s' => (1, s')
  | _ => (1, s)
  end.

Definition strip_hex_prefix (s : string) : option string :=
  match s with
  | String "0" (String "x" s') => Some s'
  | String "0" (String "X" s') => Some s'
  | _ => None
  end.

(** [parseInt(s, radix)]; [radix = None] is the one-argument call.  The
    digits are accumulated exactly: the result is that of JavaScript when
    it is a safe integer. *)
Definition parseInt (s : string) (radix : option Z) : number :=
  let '(sign, s1) := strip_sign (skip_whitespace s) in
  let r := default 0 radix in
  if negb (r =? 0) && ((r <? 2) || (36 <? r)) then NaN
  else
    let '(r', s2) :=
      if (r =? 0) || (r =? 16) then
        match strip_hex_prefix s1 with
        | Some s2 => (16, s2)
        | None => (if r =? 0 then 10 else r, s1)
        end
      else (r, s1) in
    match parse_digits r' s2 None with
    | Some v => Num (sign * v)
    | None => NaN
    end.

(** *** String methods *)

(** [s.startsWith(p)] *)
Definition startsWith (s p : string) : bool := String.prefix p s.

(** [s.includes(p)] *)
Fixpoint includes (s p : string) : bool :=
  String.prefix p s ||
  match s with
  | String _ s' => includes s' p
  | EmptyString => false
  end.

(** The rest of [s] after its prefix [p], when [p] is a prefix of [s]. *)
Fixpoint strip_prefix (p s : string) : option string :=
  match p with
  | EmptyString => Some s
  | String a p' =>
      match s with
      | String b s' => if Ascii.eqb a b then strip_prefix p' s' else None
      | EmptyString => None
      end
  end.

(** [s.replace(/p/, r)] for a literal pattern: the first occurrence only. *)
Fixpoint replace_first (p r s : string) : string :=
  match strip_prefix p s with
  | Some rest => r +:+ rest
  | None =>
      match s with
      | String c s' => String c (replace_first p r s')
      | EmptyString => s
      end
  end.

(** [s.split(c)] for a one-character separator. *)
Fixpoint split (sep : ascii) (s : string) : list string :=
  match s with
  | EmptyString => [""]
  | String c s' =>
      if Ascii.eqb c sep then "" :: split sep s'
      else
        match split sep s' with
        | p :: ps => String c p :: ps
        | [] => [String c ""]
        end
  end.

Example parseInt_examples :
  parseInt "1700000000" None = Num 1700000000 /\
  parseInt "  -42px" (Some 10) = Num (-42) /\
  parseInt "0x1f" None = Num 31 /\
  parseInt "0x1f" (Some 10) = Num 0 /\
  parseInt "" (Some 10) = NaN /\
  parseInt "abc" None = NaN /\
  number_to_string (Num 1700000000) = "1700000000" /\
  number_to_string (Num (-7)) = "-7" /\
  number_to_string (Num 0) = "0" /\
  split "-" "0-3" = ["0"; "3"] /\
  split "-" "5-" = ["5"; ""] /\
  split "-" "7" = ["7"] /\
  replace_first "bytes=" "" "bytes=0-3" = "0-3" /\
  includes "gzip, deflate, br" "br" = true /\
  startsWith "text/html" "text/" = true.
Proof. repeat split; vm_compute; reflexivity. Qed.

(** *** Buffer.prototype.slice *)

Abbreviation byte := Byte.byte.

(** Node's [adjustOffset]: NaN and 0 give 0, a negative offset counts from
    the end, and the result is clamped to the buffer. *)
Definition adjustOffset (offset : number) (length : Z) : Z :=
  match offset with
  | NaN => 0
  | Num o =>
      if o =? 0 then 0
      else if o <? 0 then (if 0 <? o + length then o + length else 0)
      else if o <? length then o
      else length
  end.

(** [buf.slice(start, end)] *)
Definition buffer_slice (buf : list byte) (start end_ : number) : list byte :=
  let srcLength := Z.of_nat (length buf) in
  let s := adjustOffset start srcLength in
  let e := adjustOffset end_ srcLength in
  let newLength := if s <? e then e - s else 0 in
  take (Z.to_nat newLength) (drop (Z.to_nat s) buf).

(** ** Configuration (src/shared/config.js) *)

Record cache_config := {
  maxSize : Z;
  ttl : Z;
  memoryEnabled : bool;
}.

Record security_config := {
  jwtSecret : string;
  signedUrlExpiry : Z;
  adminApiKey : string;
}.

Record compression_config := {
  gzip : bool;
  brotli : bool;
}.

Record host_config := {
  port : Z;
  host : string;
}.

Record config := {
  edge : host_config;
  cache : cache_config;
  security : security_config;
  compression : compression_config;
  originUrl : string;
}.

(** ** Signed URLs (src/shared/crypto.js, lines 1-49) *)

Record signed_url := {
  su_fileId : string;
  su_expires : number;
  su_signature : string;
  su_url : string;
}.

Section Crypto.
(** [crypto.createHmac('sha256', key).update(data).digest('hex')] *)
Variable hmac_sha256_hex : string -> string -> string.
Variable cfg : config.

(** [Date_now] is the value of [Date.now()], in milliseconds;
    [Math.floor(Date.now() / 1000)] is its quotient by 1000. *)
Definition generateSignedUrl (Date_now : Z) (fileId : string)
    (expiresIn : option Z) : signed_url :=
  let expiresIn := default (signedUrlExpiry (security cfg)) expiresIn in
  let expires := Num (Date_now / 1000 + expiresIn) in
  let data := fileId +:+ ":" +:+ number_to_string expires in
  let signature := hmac_sha256_hex (jwtSecret (security cfg)) data in
  {| su_fileId := fileId;
     su_expires := expires;
     su_signature := signature;
     su_url := "/cdn/" +:+ fileId +:+ "?expires=" +:+ number_to_string expires
               +:+ "&signature=" +:+ signature |}.

Definition verifySignedUrl (Date_now : Z) (fileId : string)
    (expires : number) (signature : string) : bool :=
  let now := Num (Date_now / 1000) in
  if js_gt now expires then false
  else
    let data := fileId +:+ ":" +:+ number_to_string expires in
    let expectedSignature := hmac_sha256_hex (jwtSecret (security cfg)) data in
    String.eqb signature expectedSignature.
End Crypto.

(** ** The bounded cache *)

(** Modelled from the spec: the [LRUCache] class comes from the npm package
    lru-cache, which is not part of the sources.  The model follows
    section 4.1 of the specification and the options [initCache] passes
    ([max], [ttl], [updateAgeOnGet: true]): an ordered mapping, least
    recently used entry first; [get] returns an entry that is present and
    not past its TTL, moves it to the most recent position and restarts its
    age; an entry found past its TTL is removed and reported absent; [set]
    inserts or overwrites at the most recent position and, when the store
    is at capacity, first evicts the least recently used entry; [delete]
    and [clear] are idempotent.  A [ttl] of 0 means no expiry. *)
Module LRUCache.
Section LRU.
Context {V : Type}.

Record t := {
  max : Z;
  ttl : Z;
  (** key, value and start of age, least recently used first *)
  items : list (string * (V * Z));
}.

Definition new (max ttl : Z) : t :=
  {| max := max; ttl := ttl; items := [] |}.

Definition size (c : t) : Z := Z.of_nat (length (items c)).

Fixpoint find (k : string) (l : list (string * (V * Z))) : option (V * Z) :=
  match l with
  | [] => None
  | (k', e) :: l' => if String.eqb k k' then Some e else find k l'
  end.

Fixpoint remove (k : string) (l : list (string * (V * Z)))
    : list (string * (V * Z)) :=
  match l with
  | [] => []
  | (k', e) :: l' => if String.eqb k k' then remove k l' else (k', e) :: remove k l'
  end.

Definition keys (c : t) : list string := (items c).*1.

Definition isStale (c : t) (now start : Z) : bool :=
  negb (ttl c =? 0) && (ttl c <? now - start).

Definition with_items (c : t) (l : list (string * (V * Z))) : t :=
  {| max := max c; ttl := ttl c; items := l |}.

Definition get (now : Z) (k : string) (c : t) : option V * t :=
  match find k (items c) with
  | None => (None, c)
  | Some (v, start) =>
      if isStale c now start
      then (None, with_items c (remove k (items c)))
      else (Some v, with_items c (remove k (items c) ++ [(k, (v, now))]))
  end.

Definition set (now : Z) (k : string) (v : V) (c : t) : t :=
  match find k (items c) with
  | Some _ => with_items c (remove k (items c) ++ [(k, (v, now))])
  | None =>
      let kept := if max c <=? size c then tail (items c) else items c in
      with_items c (kept ++ [(k, (v, now))])
  end.

Definition delete (k : string) (c : t) : t :=
  with_items c (remove k (items c)).

Definition clear (c : t) : t := with_items c [].
End LRU.
Arguments t : clear implicits.
End LRUCache.

(** ** Cache entries and the edge cache (cache.js: src/unnamed/part_001) *)

Record entry_metadata := {
  contentType : option string;
  etag : option string;
  lastModified : option string;
  contentLength : option string;
  cacheControl : string;
}.

Record cacheEntry := {
  content : list byte;
  metadata : entry_metadata;
}.

(** The module variable [memoryCache]: [None] is [null]. *)
Definition memory_cache (V : Type) := option (LRUCache.t V).

Record cache_stats := {
  stats_enabled : bool;
  stats_size : option Z;
  stats_maxSize : option Z;
  stats_ttl : option Z;
}.

Section EdgeCache.
Context {V : Type}.
Variable cfg : config.

Definition initCache (memoryCache : memory_cache V) : memory_cache V :=
  if memoryEnabled (cache cfg)
  then Some (LRUCache.new (maxSize (cache cfg)) (ttl (cache cfg)))
  else memoryCache.

(** [performance_now] is the clock the cache reads. *)
Definition getFromCache (performance_now : Z) (key : string)
    (memoryCache : memory_cache V) : option V * memory_cache V :=
  match memoryCache with
  | None => (None, None)
  | Some c => let '(v, c') := LRUCache.get performance_now key c in (v, Some c')
  end.

Definition setInCache (performance_now : Z) (key : string) (value : V)
    (memoryCache : memory_cache V) : memory_cache V :=
  match memoryCache with
  | None => None
  | Some c => Some (LRUCache.set performance_now key value c)
  end.

Definition deleteFromCache (key : string) (memoryCache : memory_cache V)
    : memory_cache V :=
  match memoryCache with
  | None => None
  | Some c => Some (LRUCache.delete key c)
  end.

Definition clearCache (memoryCache : memory_cache V) : memory_cache V :=
  match memoryCache with
  | None => None
  | Some c => Some (LRUCache.clear c)
  end.

Definition getCacheStats (memoryCache : memory_cache V) : cache_stats :=
  match memoryCache with
  | None => {| stats_enabled := false; stats_size := None;
               stats_maxSize := None; stats_ttl := None |}
  | Some c => {| stats_enabled := true;
                 stats_size := Some (LRUCache.size c);
                 stats_maxSize := Some (maxSize (cache cfg));
                 stats_ttl := Some (ttl (cache cfg)) |}
  end.
End EdgeCache.

(** [generateCacheKey(filename, version = 1)] *)
Definition generateCacheKey (filename : string) (version : option number) : string :=
  let version := default (Num 1) version in
  filename +:+ ":v" +:+ number_to_string version.

(** ** Requests, replies and promises *)

(** The part of a Fastify request the routes read: [request.params],
    [request.query] and [request.headers] (header names in lower case). *)
Record request := {
  params_file_id : string;
  query_expires : option string;
  query_signature : option string;
  headers : gmap string string;
}.

Inductive payload : Type :=
| NoPayload
| BufferPayload (b : list byte)
| ErrorPayload (error : string).

(** A reply under construction: [reply.code] and [reply.header] update it. *)
Record reply := {
  statusCode : Z;
  replyHeaders : gmap string string;
}.

(** What the handler hands to Fastify with [reply.send]: the status and
    the headers set on the reply, and the payload.  Fastify serialises it
    from there, and may recompute on the way a Content-Length that differs
    from the length of the payload. *)
Record response := {
  status : Z;
  responseHeaders : gmap string string;
  body : payload;
}.

(** A reply on which nothing has been set.  The handler model starts from
    it; headers a plugin has set before the route runs (the edge registers
    a CORS plugin) would be further entries of [replyHeaders], which the
    route code never reads. *)
Definition new_reply : reply := {| statusCode := 200; replyHeaders := ∅ |}.

Definition code (r : reply) (c : Z) : reply :=
  {| statusCode := c; replyHeaders := replyHeaders r |}.

Definition header (r : reply) (key value : string) : reply :=
  {| statusCode := statusCode r; replyHeaders := <[key := value]> (replyHeaders r) |}.

Definition send (r : reply) (p : payload) : response :=
  {| status := statusCode r; responseHeaders := replyHeaders r; body := p |}.

Inductive error : Type :=
| AxiosError (response_status : option Z)
| TypeError (message : string).

(** A settled promise, and the completion of a synchronous block. *)
Inductive outcome (A : Type) : Type :=
| Returned (a : A)
| Thrown (e : error).
Arguments Returned {A} a.
Arguments Thrown {A} e.

(** ** Response assembly (src/edge/routes/cdn.js) *)

Definition compressibleTypes : list string :=
  [ "text/"; "application/javascript"; "application/json"; "application/xml";
    "application/x-javascript"; "image/svg+xml" ].

(** [contentType.startsWith] throws when the content type is undefined. *)
Definition isCompressibleType (contentType : option string) : outcome bool :=
  match contentType with
  | Some ct => Returned (existsb (startsWith ct) compressibleTypes)
  | None => Thrown (TypeError "Cannot read properties of undefined (reading 'startsWith')")
  end.

Section ServeContent.
(** [new Date(s).getTime()]: NaN for a string that is not a date. *)
Variable Date_getTime : string -> number.
(** [zlib.gzip] and [zlib.brotliCompress] on a Buffer. *)
Variable zlib_gzip : list byte -> list byte.
Variable zlib_brotliCompress : list byte -> list byte.
Variable cfg : config.

(** Lines 106-117: the caching headers, set before any check. *)
Definition cachingHeaders (reply0 : reply) (metadata : entry_metadata) : reply :=
  let reply := header reply0 "Content-Type" (default "" (contentType metadata)) in
  let reply := header reply "Cache-Control" (cacheControl metadata) in
  let reply := header reply "X-Cache" "HIT" in
  let reply :=
    if truthy (etag metadata)
    then header reply "ETag" (default "" (etag metadata)) else reply in
  if truthy (lastModified metadata)
  then header reply "Last-Modified" (default "" (lastModified metadata))
  else reply.

(** Lines 119-133: the two conditions under which the answer is 304. *)
Definition notModified (metadata : entry_metadata) (request : request) : bool :=
  let ifNoneMatch := headers request !! "if-none-match" in
  let ifModifiedSince := headers request !! "if-modified-since" in
  (truthy ifNoneMatch && truthy (etag metadata)
   && bool_decide (ifNoneMatch = etag metadata))
  || (truthy ifModifiedSince && truthy (lastModified metadata)
      && (let modifiedSince := Date_getTime (default "" ifModifiedSince) in
          let lastMod := Date_getTime (default "" (lastModified metadata)) in
          js_le lastMod modifiedSince)).

(** Lines 135-149: the range branch; the header is parsed, echoed and
    used to slice. *)
Definition serveRange (reply : reply) (content : list byte) (range : string)
    : response :=
  let parts := split "-" (replace_first "bytes=" "" range) in
  let length := Num (Z.of_nat (length content)) in
  let start := parseInt (default "undefined" (parts !! 0%nat)) (Some 10) in
  let end_ :=
    if truthy (parts !! 1%nat)
    then parseInt (default "" (parts !! 1%nat)) (Some 10)
    else js_sub length (Num 1) in
  let chunkSize := js_add (js_sub end_ start) (Num 1) in
  let reply := header reply "Content-Range"
    ("bytes " +:+ number_to_string start +:+ "-" +:+ number_to_string end_
     +:+ "/" +:+ number_to_string length) in
  let reply := header reply "Accept-Ranges" "bytes" in
  let reply := header reply "Content-Length" (number_to_string chunkSize) in
  let reply := code reply 206 in
  send reply (BufferPayload (buffer_slice content start (js_add end_ (Num 1)))).

(** Lines 151-172: compression of the full entity. *)
Definition serveFull (reply : reply) (content : list byte)
    (metadata : entry_metadata) (request : request) : outcome response :=
  let accept := headers request !! "accept-encoding" in
  let acceptEncoding := if truthy accept then default "" accept else "" in
  match isCompressibleType (contentType metadata) with
  | Thrown e => Thrown e
  | Returned isCompressible =>
      if isCompressible && brotli (compression cfg) && includes acceptEncoding "br"
      then
        let compressed := zlib_brotliCompress content in
        let reply := header reply "Content-Encoding" "br" in
        let reply := header reply "Content-Length"
                       (number_to_string (Num (Z.of_nat (length compressed)))) in
        let reply := header reply "Vary" "Accept-Encoding" in
        Returned (send reply (BufferPayload compressed))
      else if isCompressible && gzip (compression cfg) && includes acceptEncoding "gzip"
      then
        let compressed := zlib_gzip content in
        let reply := header reply "Content-Encoding" "gzip" in
        let reply := header reply "Content-Length"
                       (number_to_string (Num (Z.of_nat (length compressed)))) in
        let reply := header reply "Vary" "Accept-Encoding" in
        Returned (send reply (BufferPayload compressed))
      else
        let reply := header reply "Content-Length"
                       (number_to_string (Num (Z.of_nat (length content)))) in
        Returned (send reply (BufferPayload content))
  end.

(** [async function serveContent(reply, cacheEntry, request)], lines
    103-173: the result is the promise it returns, rejected when the body
    throws. *)
Definition serveContent (reply : reply) (cacheEntry : cacheEntry)
    (request : request) : outcome response :=
  let content := content cacheEntry in
  let metadata := metadata cacheEntry in
  let reply := cachingHeaders reply metadata in
  if notModified metadata request
  then Returned (send (code reply 304) NoPayload)
  else
    let range := headers request !! "range" in
    if truthy range
    then Returned (serveRange reply content (default "" range))
    else serveFull reply content metadata request.
End ServeContent.

(** ** The edge process: state, effects and the HTTP client *)

(** What a handler does to its collaborators, in order. *)
Inductive event : Type :=
| Log (level message : string)
| VerifySignedUrl (fileId : string) (expires : number) (signature : string)
| CacheGet (key : string)
| CacheSet (key : string)
| CacheDelete (key : string)
| CacheClear
| AxiosGet (url : string).

Record world := {
  memoryCache : memory_cache cacheEntry;
  events : list event;
}.

(** A block of handler code: it reads and updates the world and either
    returns or throws. *)
Definition M (A : Type) : Type := world -> outcome A * world.

Global Instance M_ret : MRet M := fun A a w => (Returned a, w).

Global Instance M_bind : MBind M := fun A B f m w =>
  match m w with
  | (Returned a, w') => f a w'
  | (Thrown e, w') => (Thrown e, w')
  end.

Definition throw {A : Type} (e : error) : M A := fun w => (Thrown e, w).

(** [try { m } catch (e) { h e }] *)
Definition try_catch {A : Type} (m : M A) (h : error -> M A) : M A := fun w =>
  match m w with
  | (Returned a, w') => (Returned a, w')
  | (Thrown e, w') => h e w'
  end.

Definition emit (e : event) : M unit := fun w =>
  (Returned tt, {| memoryCache := memoryCache w; events := events w ++ [e] |}).

Definition log (level message : string) : M unit := emit (Log level message).

(** The answer of the origin to a GET. *)
Record http_response (D : Type) := {
  http_status : Z;
  http_headers : gmap string string;
  http_data : D;
}.
Arguments http_status {D} _.
Arguments http_headers {D} _.
Arguments http_data {D} _.

(** [NoResponse]: network error or timeout. *)
Inductive http_result (D : Type) : Type :=
| NoResponse
| Response (r : http_response D).
Arguments NoResponse {D}.
Arguments Response {D} r.

(** The body of the metadata answer as the handler uses it: falsy, or a
    value whose [id] property renders as given ([None]: undefined). *)
Inductive json : Type :=
| JsonFalsy
| JsonValue (id : option string).

(** The origin as the edge sees it, one answer per URL and response type. *)
Record origin := {
  get_json : string -> http_result json;
  get_arraybuffer : string -> http_result (list byte);
}.

(** [axios.get(url, { validateStatus })] against an answer of the origin. *)
Definition axios_get {D : Type} (answer : string -> http_result D)
    (validateStatus : Z -> bool) (url : string) : M (http_response D) :=
  _ ← emit (AxiosGet url);
  match answer url with
  | NoResponse => throw (AxiosError None)
  | Response r =>
      if validateStatus (http_status r) then mret r
      else throw (AxiosError (Some (http_status r)))
  end.

(** axios' default [validateStatus]. *)
Definition status_2xx (status : Z) : bool := (200 <=? status) && (status <? 300).

(** The per-request readings of the two clocks. *)
Record clock := {
  Date_now : Z;
  performance_now : Z;
}.

Section Edge.
Variable hmac_sha256_hex : string -> string -> string.
Variable Date_getTime : string -> number.
Variable zlib_gzip : list byte -> list byte.
Variable zlib_brotliCompress : list byte -> list byte.
Variable cfg : config.
Variable org : origin.
Variable clk : clock.

(** The calls into the cache module and into crypto.js, recorded. *)
Definition call_getFromCache (key : string) : M (option cacheEntry) := fun w =>
  let '(v, mc) := getFromCache (performance_now clk) key (memoryCache w) in
  (Returned v, {| memoryCache := mc; events := events w ++ [CacheGet key] |}).

Definition call_setInCache (key : string) (value : cacheEntry) : M unit := fun w =>
  (Returned tt,
   {| memoryCache := setInCache (performance_now clk) key value (memoryCache w);
      events := events w ++ [CacheSet key] |}).

Definition call_deleteFromCache (key : string) : M unit := fun w =>
  (Returned tt,
   {| memoryCache := deleteFromCache key (memoryCache w);
      events := events w ++ [CacheDelete key] |}).

Definition call_clearCache : M unit := fun w =>
  (Returned tt,
   {| memoryCache := clearCache (memoryCache w);
      events := events w ++ [CacheClear] |}).

Definition call_verifySignedUrl (fileId : string) (expires : number)
    (signature : string) : M bool :=
  _ ← emit (VerifySignedUrl fileId expires signature);
  mret (verifySignedUrl hmac_sha256_hex cfg (Date_now clk) fileId expires signature).

Definition serve := serveContent Date_getTime zlib_gzip zlib_brotliCompress cfg.

(** Lines 44-54: the metadata request; its failure is logged and leaves
    [fileMetadata] undefined. *)
Definition fetchMetadata (file_id : string) : M (option json) :=
  let metadataUrl := originUrl cfg +:+ "/api/files/" +:+ file_id in
  try_catch
    (metaResponse ← axios_get (get_json org) status_2xx metadataUrl;
     mret (Some (http_data metaResponse)))
    (fun metaError =>
       _ ← log "warn" "Metadata fetch failed, trying direct download";
       mret None).

(** Lines 56-84: the download, the store into the cache and the call of
    [serveContent], which is returned without being awaited. *)
Definition downloadAndCache (request : request) (cacheKey : string)
    (fileMetadata : option json) : M (outcome response) :=
  let file_id := params_file_id request in
  let downloadUrl :=
    match fileMetadata with
    | Some (JsonValue id) =>
        originUrl cfg +:+ "/api/files/" +:+ default "undefined" id +:+ "/download"
    | Some JsonFalsy | None =>
        originUrl cfg +:+ "/api/files/" +:+ file_id +:+ "/download"
    end in
  response ← axios_get (get_arraybuffer org)
               (fun status => (status =? 200) || (status =? 304)) downloadUrl;
  if http_status response =? 304
  then mret (Returned (send (code new_reply 304) NoPayload))
  else
    let content := http_data response in
    let cacheControl := http_headers response !! "cache-control" in
    let metadata :=
      {| contentType := http_headers response !! "content-type";
         etag := http_headers response !! "etag";
         lastModified := http_headers response !! "last-modified";
         contentLength := http_headers response !! "content-length";
         cacheControl :=
           if truthy cacheControl then default "" cacheControl
           else "public, max-age=31536000" |} in
    let cacheEntry := {| content := content; metadata := metadata |} in
    _ ← call_setInCache cacheKey cacheEntry;
    mret (serve new_reply cacheEntry request).

(** [originError.response?.status] *)
Definition response_status (e : error) : option Z :=
  match e with
  | AxiosError status => status
  | TypeError _ => None
  end.

(** The miss branch of the handler: lines 43-92 of cdn.js. *)
Definition fetchFromOrigin (request : request) (cacheKey : string)
    : M (outcome response) :=
  let file_id := params_file_id request in
  try_catch
    (fileMetadata ← fetchMetadata file_id;
     downloadAndCache request cacheKey fileMetadata)
    (fun originError =>
       if bool_decide (response_status originError = Some 404)
       then mret (Returned (send (code new_reply 404) (ErrorPayload "File not found")))
       else
         _ ← log "error" "Origin fetch error:";
         mret (Returned (send (code new_reply 502)
                           (ErrorPayload "Failed to fetch from origin")))).

(** [GET /cdn/:file_id].  The value is the promise the handler returns:
    a call to [serveContent] is returned without being awaited, so its
    rejection is not seen by the enclosing [try]. *)
Definition cdnRoutes (request : request) : M (outcome response) :=
  try_catch
    (let file_id := params_file_id request in
     let expires := query_expires request in
     let signature := query_signature request in
     rejected ←
       (if truthy expires && truthy signature
        then
          let fileId := file_id in
          isValid ← call_verifySignedUrl fileId
                      (parseInt (default "" expires) None) (default "" signature);
          mret (negb isValid)
        else mret false);
     if (rejected : bool)
     then mret (Returned (send (code new_reply 403)
                            (ErrorPayload "Invalid or expired signature")))
     else
       let cacheKey := generateCacheKey file_id None in
       cached ← call_getFromCache cacheKey;
       match cached with
       | Some cached =>
           _ ← log "info" ("Cache HIT: " +:+ file_id);
           mret (serve new_reply cached request)
       | None =>
           _ ← log "info" ("Cache MISS: " +:+ file_id);
           fetchFromOrigin request cacheKey
       end)
    (fun error =>
       _ ← log "error" "";
       mret (Returned (send (code new_reply 500) (ErrorPayload "Internal server error")))).

(** [POST /api/purge/:file_id] (routes/purge.js: src/shared/crypto.js,
    lines 290-306) *)
Definition purgeRoute (file_id : string) : M unit :=
  let cacheKey := generateCacheKey file_id None in
  call_deleteFromCache cacheKey.

(** [POST /api/purge-all] *)
Definition purgeAllRoute : M unit := call_clearCache.
End Edge.

(** ** The origin's file records and purge route
       (database.js: src/shared/crypto.js, lines 196-250;
        src/origin/routes/admin.js, lines 60-94) *)

(** The column [id] is the field [id_]. *)
Record file_record := {
  id_ : string;
  filename : string;
  mime_type : string;
  size : Z;
  is_public : Z;
  version : Z;
  updated_at : Z;
}.

(** The columns the admin routes update. *)
Record file_updates := {
  set_version : option Z;
  set_is_public : option Z;
}.

Definition getFileById (db : gmap string file_record) (id : string)
    : option file_record := db !! id.

(** [UPDATE files SET ..., updated_at = ? WHERE id = ?] *)
Definition updateFile (Date_now : Z) (id : string) (updates : file_updates)
    (db : gmap string file_record) : gmap string file_record :=
  match db !! id with
  | None => db
  | Some file =>
      <[id := {| id_ := id_ file;
                 filename := filename file;
                 mime_type := mime_type file;
                 size := size file;
                 is_public := default (is_public file) (set_is_public updates);
                 version := default (version file) (set_version updates);
                 updated_at := Date_now |}]> db
  end.

(** The origin's database together with the edge process it notifies. *)
Record system := {
  db : gmap string file_record;
  edge_world : world;
}.

Inductive purge_reply : Type :=
| PurgeNotFound
| PurgeDone (fileId : string) (newVersion : Z).

(** [POST /api/admin/purge/:id], past the API-key check.  [edge_reachable]
    tells whether the notification reaches the edge; when it does the
    edge runs its purge route, when it does not the error is logged and
    swallowed. *)
Definition adminPurge (Date_now : Z) (edge_reachable : bool) (id : string)
    (s : system) : purge_reply * system :=
  match getFileById (db s) id with
  | None => (PurgeNotFound, s)
  | Some file =>
      let newVersion := (if version file =? 0 then 1 else version file) + 1 in
      let db' := updateFile Date_now id
                   {| set_version := Some newVersion; set_is_public := None |} (db s) in
      let edge' :=
        if edge_reachable
        then snd (purgeRoute (id_ file) (edge_world s))
        else edge_world s in
      (PurgeDone id newVersion, {| db := db'; edge_world := edge' |})
  end.

(** ** Vocabulary of the statements *)

Arguments digit_char : simpl never.
Arguments digit_value : simpl never.

(** [Number.MAX_SAFE_INTEGER], 2^53 - 1, and the integers JavaScript
    represents, adds and renders exactly. *)
Definition MAX_SAFE_INTEGER : Z := 9007199254740991.

Definition safe_integer (z : Z) : Prop :=
  - MAX_SAFE_INTEGER <= z <= MAX_SAFE_INTEGER.

(** A reading of [Date.now()]: a time value, at most 8.64e15 milliseconds
    from the epoch. *)
Definition time_value (t : Z) : Prop :=
  - 8640000000000000 <= t <= 8640000000000000.

(** Every character of the string satisfies the test. *)
Fixpoint string_forall (P : ascii -> bool) (s : string) : bool :=
  match s with
  | EmptyString => true
  | String c s' => P c && string_forall P s'
  end.

Definition is_digit (c : ascii) : bool :=
  match digit_value c with
  | Some d => d <? 10
  | None => false
  end.
Arguments is_digit : simpl never.

(** The string with its character at index [i] replaced by [c]. *)
Fixpoint alter_char (i : nat) (c : ascii) (s : string) : string :=
  match s with
  | EmptyString => EmptyString
  | String x s' =>
      match i with
      | O => String c s'
      | S i' => String x (alter_char i' c s')
      end
  end.


(** The message a signed URL authenticates. *)
Definition signed_message (fileId : string) (expires : number) : string :=
  fileId +:+ ":" +:+ number_to_string expires.

(** A configuration with the defaults of config.js and the cache enabled,
    and a stand-in for the keyed hash, for the concrete instances below. *)
Definition example_config : config :=
  {| edge := {| port := 3001; host := "localhost" |};
     cache := {| maxSize := 100; ttl := 3600000; memoryEnabled := true |};
     security := {| jwtSecret := "your-secret-key-change-this";
                    signedUrlExpiry := 3600; adminApiKey := "" |};
     compression := {| gzip := true; brotli := true |};
     originUrl := "http://localhost:3000" |}.

Definition example_hmac (key data : string) : string := key +:+ "/" +:+ data.

(** *** Histories of cache operations *)

(** A call into the cache module, with the reading of the clock where the
    call takes one. *)
Inductive cache_op (V : Type) : Type :=
| OpGet (now : Z) (key : string)
| OpSet (now : Z) (key : string) (value : V)
| OpDelete (key : string)
| OpClear.
Arguments OpGet {V} now key.
Arguments OpSet {V} now key value.
Arguments OpDelete {V} key.
Arguments OpClear {V}.

Definition cache_step {V : Type} (op : cache_op V) (mc : memory_cache V)
    : option V * memory_cache V :=
  match op with
  | OpGet now key => getFromCache now key mc
  | OpSet now key value => (None, setInCache now key value mc)
  | OpDelete key => (None, deleteFromCache key mc)
  | OpClear => (None, clearCache mc)
  end.

(** The key an operation accesses: the key of a [set], and the key of a
    [get] that returns an entry. *)
Definition accessed {V : Type} (op : cache_op V) (result : option V)
    : option string :=
  match op with
  | OpSet _ key _ => Some key
  | OpGet _ key => match result with Some _ => Some key | None => None end
  | OpDelete _ | OpClear => None
  end.

(** Runs the operations in order; the history lists what each one
    accessed, the latest first. *)
Fixpoint run_cache {V : Type} (ops : list (cache_op V)) (mc : memory_cache V)
    (history : list (option string)) : memory_cache V * list (option string) :=
  match ops with
  | [] => (mc, history)
  | op :: ops' =>
      let '(result, mc') := cache_step op mc in
      run_cache ops' mc' (accessed op result :: history)
  end.

(** The position in time of the latest access to a key: the number of
    operations that came before it. *)
Fixpoint last_access (history : list (option string)) (key : string) : option nat :=
  match history with
  | [] => None
  | a :: older =>
      if decide (a = Some key) then Some (length older)
      else last_access older key
  end.

(** Both keys were accessed, the first one less recently. *)
Definition accessed_before (history : list (option string)) (k1 k2 : string) : Prop :=
  exists t1 t2 : nat,
    last_access history k1 = Some t1 /\ last_access history k2 = Some t2
    /\ (t1 < t2)%nat.

Definition cache_keys {V : Type} (mc : memory_cache V) : list string :=
  match mc with
  | Some c => LRUCache.keys c
  | None => []
  end.

(** The size [getCacheStats] reports. *)
Definition cache_size {V : Type} (mc : memory_cache V) : Z :=
  match mc with
  | Some c => LRUCache.size c
  | None => 0
  end.

(** The entries a [get] at time [now] would still return. *)
Definition live_entries {V : Type} (now : Z) (mc : memory_cache V) : Z :=
  match mc with
  | Some c =>
      Z.of_nat (length (List.filter
                          (fun it : string * (V * Z) =>
                             negb (LRUCache.isStale c now (snd (snd it))))
                          (LRUCache.items c)))
  | None => 0
  end.

(** Each key is followed only by keys related to it. *)
Fixpoint ordered_by (R : string -> string -> Prop) (ks : list string) : Prop :=
  match ks with
  | [] => True
  | k :: ks' => Forall (R k) ks' /\ ordered_by R ks'
  end.

(** What the history guarantees about the store: every key it holds was
    accessed, and the keys stand in the order of their latest access. *)
Definition recency_invariant (history : list (option string)) (ks : list string) : Prop :=
  (forall k, k ∈ ks -> is_Some (last_access history k))
  /\ ordered_by (accessed_before history) ks.

(** The state of an enabled cache that the operations maintain. *)
Definition cache_invariant {V : Type} (bound : Z) (history : list (option string))
    (mc : memory_cache V) : Prop :=
  match mc with
  | None => False
  | Some c =>
      LRUCache.max c = bound
      /\ LRUCache.size c <= bound
      /\ recency_invariant history (LRUCache.keys c)
  end.

(** *** Responses *)

(** The response carries no header whose name starts with [Content-]. *)
Definition carries_no_content_header (r : response) : Prop :=
  forall name : string,
    startsWith name "Content-" = true -> responseHeaders r !! name = None.

(** Stand-ins for the runtime services, for the concrete instances. *)
Definition example_getTime (s : string) : number := parseInt s (Some 10).
Definition example_gzip (b : list byte) : list byte := Byte.x1f :: b.
Definition example_brotli (b : list byte) : list byte := Byte.x0b :: b.

Definition example_serve (cfg : config) : reply -> cacheEntry -> request -> outcome response :=
  serveContent example_getTime example_gzip example_brotli cfg.

(** A ten-byte text entry. *)
Definition example_entry : cacheEntry :=
  {| content := [Byte.x30; Byte.x31; Byte.x32; Byte.x33; Byte.x34;
                 Byte.x35; Byte.x36; Byte.x37; Byte.x38; Byte.x39];
     metadata := {| contentType := Some "text/plain";
                    etag := Some "abc";
                    lastModified := Some "1000";
                    contentLength := Some "10";
                    cacheControl := "public, max-age=31536000" |} |}.

Definition example_request (hs : gmap string string) : request :=
  {| params_file_id := "abc123"; query_expires := None;
     query_signature := None; headers := hs |}.

(** The defaults with brotli switched off ([ENABLE_BROTLI=false]). *)
Definition no_brotli_config : config :=
  {| edge := edge example_config;
     cache := cache example_config;
     security := security example_config;
     compression := {| gzip := true; brotli := false |};
     originUrl := originUrl example_config |}.

(** *** The miss path *)

(** The events of an origin fetch: requests to the origin, log lines and
    the store into the cache. *)
Definition is_fetch_event (e : event) : bool :=
  match e with
  | AxiosGet _ | Log _ _ | CacheSet _ => true
  | _ => false
  end.

Definition metadataUrl (cfg : config) (file_id : string) : string :=
  originUrl cfg +:+ "/api/files/" +:+ file_id.

(** The download URL built from the identifier the caller supplied. *)
Definition directDownloadUrl (cfg : config) (file_id : string) : string :=
  originUrl cfg +:+ "/api/files/" +:+ file_id +:+ "/download".

(** The metadata request fails: no response, or a status outside 2xx. *)
Definition metadata_fetch_fails (org : origin) (url : string) : Prop :=
  match get_json org url with
  | NoResponse => True
  | Response r => status_2xx (http_status r) = false
  end.

(** A structured error response. *)
Definition error_response (code : Z) (r : response) : Prop :=
  status r = code /\ exists message : string, body r = ErrorPayload message.

(** The signature check of a request passes, or the request has none. *)
Definition signature_accepted (hmac : string -> string -> string) (cfg : config)
    (clk : clock) (request : request) : Prop :=
  truthy (query_expires request) && truthy (query_signature request) = true ->
  verifySignedUrl hmac cfg (Date_now clk) (params_file_id request)
    (parseInt (default "" (query_expires request)) None)
    (default "" (query_signature request)) = true.

(** An origin that knows one file, with the given content. *)
Definition example_origin (data : list byte) : origin :=
  {| get_json := fun url =>
       if String.eqb url "http://localhost:3000/api/files/abc123"
       then Response {| http_status := 200; http_headers := ∅;
                        http_data := JsonValue (Some "abc123") |}
       else Response {| http_status := 404; http_headers := ∅;
                        http_data := JsonValue None |};
     get_arraybuffer := fun url =>
       if String.eqb url "http://localhost:3000/api/files/abc123/download"
       then Response {| http_status := 200;
                        http_headers := {[ "content-type" := "text/plain";
                                           "etag" := "abc" ]};
                        http_data := data |}
       else Response {| http_status := 404; http_headers := ∅; http_data := [] |} |}.

Definition example_clock : clock :=
  {| Date_now := 1700000000000; performance_now := 5000 |}.

(** The edge process after start-up: [initCache] has run, nothing logged. *)
Definition initial_world (cfg : config) : world :=
  {| memoryCache := initCache cfg None; events := [] |}.

Definition example_cdn (org : origin) : request -> M (outcome response) :=
  cdnRoutes example_hmac example_getTime example_gzip example_brotli
    example_config org example_clock.

(** The call of [verifySignedUrl] a request causes: one when both query
    parameters are truthy, none otherwise. *)
Definition verify_events (request : request) : list event :=
  if truthy (query_expires request) && truthy (query_signature request)
  then [VerifySignedUrl (params_file_id request)
          (parseInt (default "" (query_expires request)) None)
          (default "" (query_signature request))]
  else [].

Definition is_verify_event (e : event) : bool :=
  match e with
  | VerifySignedUrl _ _ _ => true
  | _ => false
  end.

(** The same request without the [expires] and [signature] parameters. *)
Definition as_public (req : request) : request :=
  {| params_file_id := params_file_id req;
     query_expires := None;
     query_signature := None;
     headers := headers req |}.

(** The record of the one file, at version 1, and two contents of it. *)
Definition example_db : gmap string file_record :=
  {[ "abc123" := {| id_ := "abc123"; filename := "a.jpg"; mime_type := "text/plain";
                    size := 3; is_public := 1; version := 1;
                    updated_at := 1699999999000 |} ]}.

Definition old_content : list byte := [Byte.x6f; Byte.x6c; Byte.x64].
Definition new_content : list byte := [Byte.x6e; Byte.x65; Byte.x77].

(** *** Further vocabulary *)

(** The request that presents a signed link: the identifier, the decimal
    [expires] and the signature, as they stand in the link. *)
Definition signed_request (s : signed_url) (hs : gmap string string) : request :=
  {| params_file_id := su_fileId s;
     query_expires := Some (number_to_string (su_expires s));
     query_signature := Some (su_signature s);
     headers := hs |}.

(** ** Further code of the origin *)

(** *** String methods the origin uses *)

(** [c.toLowerCase()] for a one-byte character: the letters A to Z and
    the capital letters of Latin-1 (U+00C0 to U+00DE, the sign U+00D7
    excepted) move up by 32. *)
Definition lower_char (c : ascii) : ascii :=
  let n := nat_of_ascii c in
  if ((65 <=? n) && (n <=? 90)
      || (192 <=? n) && (n <=? 222) && negb (n =? 215))%nat
  then ascii_of_nat (n + 32)
  else c.

Fixpoint map_chars (f : ascii -> ascii) (s : string) : string :=
  match s with
  | EmptyString => EmptyString
  | String c s' => String (f c) (map_chars f s')
  end.

(** [s.toLowerCase()] on a string of one-byte characters, as header
    values are. *)
Definition toLowerCase (s : string) : string := map_chars lower_char s.

Fixpoint trimEnd (s : string) : string :=
  match s with
  | EmptyString => EmptyString
  | String c s' =>
      let t := trimEnd s' in
      if is_whitespace c && String.eqb t "" then "" else String c t
  end.

(** [s.trim()] *)
Definition trim (s : string) : string := trimEnd (skip_whitespace s).

(** [s.slice(n)] for [n] from 0 up. *)
Fixpoint slice_from (n : nat) (s : string) : string :=
  match n, s with
  | O, _ => s
  | S n', String _ s' => slice_from n' s'
  | S _, EmptyString => EmptyString
  end.

(** *** The API-key check of the admin routes
        (src/origin/routes/admin.js, lines 6-24) *)

(** A value of [request.query]: a string, or an array when the parameter
    is given more than once. *)
Inductive query_value : Type :=
| QueryString (s : string)
| QueryArray (l : list string).

(** What the check reads of a request. *)
Record admin_request := {
  header_x_api_key : option string;
  header_authorization : option string;
  query_apiKey : option query_value;
}.

(** [requireAdminApiKey(request, reply)].  [None]: the hook returns
    without replying and the route runs; [Some r]: it has replied [r]. *)
Definition requireAdminApiKey (cfg : config) (request : admin_request)
    : option response :=
  let expected := adminApiKey (security cfg) in
  if negb (truthy (Some expected)) then None
  else
    let headerKey := header_x_api_key request in
    let authHeader := header_authorization request in
    let bearerKey :=
      match authHeader with
      | Some authHeader =>
          if startsWith (toLowerCase authHeader) "bearer "
          then Some (trim (slice_from (String.length "bearer ") authHeader))
          else None
      | None => None
      end in
    let queryKey := query_apiKey request in
    let provided :=
      if truthy headerKey then QueryString <$> headerKey
      else if truthy bearerKey then QueryString <$> bearerKey
      else queryKey in
    match provided with
    | Some (QueryString provided) =>
        if negb (String.eqb provided expected)
        then Some (send (code new_reply 401) (ErrorPayload "Unauthorized"))
        else None
    | Some (QueryArray _) | None =>
        Some (send (code new_reply 401) (ErrorPayload "Unauthorized"))
    end.

(** *** The name under which an upload is filed
        (src/origin/routes/upload.js, lines 41-44) *)

(** The characters of the class [[a-z0-9.-]]. *)
Definition filename_char (c : ascii) : bool :=
  let n := nat_of_ascii c in
  ((97 <=? n) && (n <=? 122) || (48 <=? n) && (n <=? 57)
   || (n =? 46) || (n =? 45))%nat.

(** [s.replace(/-+/g, '-')]: a dash followed by a dash is dropped. *)
Fixpoint squeeze_dashes (s : string) : string :=
  match s with
  | EmptyString => EmptyString
  | String c s' =>
      if Ascii.eqb c "-" && startsWith s' "-" then squeeze_dashes s'
      else String c (squeeze_dashes s')
  end.

Section Upload.
(** [String.prototype.toLowerCase] on the name of an upload, which may
    hold any character. *)
Variable lowercase : string -> string.

Definition cleanFilename (originalFilename : string) : string :=
  squeeze_dashes
    (map_chars (fun c => if filename_char c then c else "-"%char)
       (lowercase originalFilename)).
End Upload.

(** *** Access tokens (src/shared/crypto.js, lines 57-96) *)

Section AccessTokens.
(** The parsed payload of a token. *)
Variable payload_object : Type.
(** [createHmac('sha256', key).update(data).digest('base64url')] *)
Variable hmac_sha256_base64url : string -> string -> string.
(** [Buffer.from(s).toString('base64url')] and
    [Buffer.from(s, 'base64url').toString()] *)
Variable base64url_encode : string -> string.
Variable base64url_decode : string -> string.
(** [JSON.stringify] of the object [{ fileId, ...metadata, iat }]. *)
Variable stringify_payload : string -> payload_object -> Z -> string.
(** [JSON.parse]: [None] when it throws, and for the text [null]. *)
Variable JSON_parse : string -> option payload_object.
Variable cfg : config.

Definition generateAccessToken (Date_now : Z) (fileId : string)
    (metadata : payload_object) : string :=
  let iat := Date_now / 1000 in
  let base64Payload := base64url_encode (stringify_payload fileId metadata iat) in
  let signature := hmac_sha256_base64url (jwtSecret (security cfg)) base64Payload in
  base64Payload +:+ "." +:+ signature.

(** [verifyAccessToken(token)]: [None] is [null]. *)
Definition verifyAccessToken (token : string) : option payload_object :=
  match split "." token with
  | base64Payload :: rest =>
      let signature := head rest in
      let expectedSignature :=
        hmac_sha256_base64url (jwtSecret (security cfg)) base64Payload in
      if negb (bool_decide (signature = Some expectedSignature)) then None
      else JSON_parse (base64url_decode base64Payload)
  | [] => None
  end.
End AccessTokens.

(** *** Vocabulary of the further statements *)

Definition no_colon (c : ascii) : bool := negb (Ascii.eqb c ":").
Definition no_dot (c : ascii) : bool := negb (Ascii.eqb c ".").

(** An origin whose metadata route is out of reach and which answers every
    download with 200, the given headers and the given bytes. *)
Definition constant_origin (hs : gmap string string) (data : list byte) : origin :=
  {| get_json := fun _ => NoResponse;
     get_arraybuffer := fun _ =>
       Response {| http_status := 200; http_headers := hs; http_data := data |} |}.

(** The edge process with the memory cache switched off. *)
Definition cacheless_world : world := {| memoryCache := None; events := [] |}.

(** The defaults with an admin key configured ([ADMIN_API_KEY=s3cret]). *)
Definition keyed_config : config :=
  {| edge := edge example_config;
     cache := cache example_config;
     security := {| jwtSecret := jwtSecret (security example_config);
                    signedUrlExpiry := signedUrlExpiry (security example_config);
                    adminApiKey := "s3cret" |};
     compression := compression example_config;
     originUrl := originUrl example_config |}.

(** Stand-ins for the token services, with texts for payloads: the
    encoding is the identity and the payload text is the identifier, a
    colon and the metadata. *)
Definition example_generate : Z -> string -> string -> string :=
  generateAccessToken string example_hmac (fun s => s)
    (fun fileId metadata iat => fileId +:+ ":" +:+ metadata) example_config.

Definition example_verify : string -> option string :=
  verifyAccessToken string example_hmac (fun s => s) Some example_config.

(** The record after a purge: the new version and the time of the update,
    the rest as it was. *)
Definition purged_record (file : file_record) (newVersion Date_now : Z)
    : file_record :=
  {| id_ := id_ file; filename := filename file; mime_type := mime_type file;
     size := size file; is_public := is_public file;
     version := newVersion; updated_at := Date_now |}.

(* ===================================================================== *)
(** * Part II: properties *)
(* ===================================================================== *)

(** ** Strings and numbers *)

Lemma string_app_cons (x : ascii) (a b : string) :
  String x a +:+ b = String x (a +:+ b).
Proof. reflexivity. Qed.

Lemma string_app_nil_l (a : string) : "" +:+ a = a.
Proof. reflexivity. Qed.

Lemma string_app_assoc (a b c : string) : (a +:+ b) +:+ c = a +:+ (b +:+ c).
Proof.
  induction a as [|x a IH]; [reflexivity |].
  now rewrite !string_app_cons, IH.
Qed.

Lemma string_app_nil_r (a : string) : a +:+ "" = a.
Proof.
  induction a as [|x a IH]; [reflexivity |].
  now rewrite string_app_cons, IH.
Qed.

Lemma string_length_app (a b : string) :
  String.length (a +:+ b) = (String.length a + String.length b)%nat.
Proof.
  induction a as [|x a IH]; [reflexivity |].
  rewrite string_app_cons. simpl. now rewrite IH.
Qed.

Lemma string_app_inv_head (a b c : string) : a +:+ b = a +:+ c -> b = c.
Proof.
  induction a as [|x a IH]; intros H; [exact H |].
  rewrite !string_app_cons in H. injection H as H. now apply IH.
Qed.

Lemma string_app_inv_tail (a b c : string) : a +:+ c = b +:+ c -> a = b.
Proof.
  revert b. induction a as [|x a IH]; intros [|y b] H.
  - reflexivity.
  - apply (f_equal String.length) in H.
    rewrite string_app_nil_l, string_length_app in H. simpl in H. lia.
  - apply (f_equal String.length) in H.
    rewrite string_app_nil_l, string_length_app in H. simpl in H. lia.
  - rewrite !string_app_cons in H. injection H as -> H. f_equal. now apply IH.
Qed.

Lemma string_forall_app P (a b : string) :
  string_forall P (a +:+ b) = string_forall P a && string_forall P b.
Proof.
  induction a as [|x a IH]; [reflexivity |].
  rewrite string_app_cons. simpl. now rewrite IH, andb_assoc.
Qed.

Lemma digit_value_digit_char (d : Z) :
  0 <= d < 10 -> digit_value (digit_char d) = Some d.
Proof.
  intros H.
  assert (d = 0 \/ d = 1 \/ d = 2 \/ d = 3 \/ d = 4 \/ d = 5 \/ d = 6
          \/ d = 7 \/ d = 8 \/ d = 9) as Hd by lia.
  repeat (destruct Hd as [-> | Hd]; [vm_compute; reflexivity |]).
  subst. vm_compute. reflexivity.
Qed.

Lemma is_digit_digit_char (d : Z) : 0 <= d < 10 -> is_digit (digit_char d) = true.
Proof.
  intros H. unfold is_digit. rewrite digit_value_digit_char by exact H.
  apply Z.ltb_lt. lia.
Qed.

Lemma digits_fuel_forall (fuel : nat) (n : Z) :
  0 <= n -> string_forall is_digit (digits_fuel fuel n) = true.
Proof.
  revert n. induction fuel as [|fuel IH]; intros n Hn; [reflexivity |].
  cbn [digits_fuel]. destruct (n <? 10) eqn:E.
  - apply Z.ltb_lt in E. cbn [string_forall].
    rewrite is_digit_digit_char by lia. reflexivity.
  - rewrite string_forall_app, IH by (apply Z.div_pos; lia).
    cbn [string_forall]. rewrite is_digit_digit_char; [reflexivity |].
    apply Z.mod_pos_bound. lia.
Qed.

Lemma parse_digits_step (c : ascii) (d : Z) (rest : string) (acc : option Z) :
  digit_value c = Some d -> 0 <= d < 10 ->
  parse_digits 10 (String c rest) acc
  = parse_digits 10 rest (Some (default 0 acc * 10 + d)).
Proof.
  intros Hc Hd. cbn [parse_digits]. rewrite Hc.
  destruct (d <? 10) eqn:E; [reflexivity | apply Z.ltb_ge in E; lia].
Qed.

(** The digits read back, whatever follows them. *)
Lemma parse_digits_fuel (fuel : nat) (n : Z) (rest : string) (acc : option Z) :
  default 0 acc = 0 -> 0 <= n < 2 ^ Z.of_nat (S fuel) ->
  parse_digits 10 (digits_fuel (S fuel) n +:+ rest) acc
  = parse_digits 10 rest (Some n).
Proof.
  revert n rest. induction fuel as [|fuel IH]; intros n rest Hacc Hn.
  - change (2 ^ Z.of_nat 1) with 2 in Hn.
    change (digits_fuel 1 n) with
      (if n <? 10 then String (digit_char n) "" else "" +:+ String (digit_char (n mod 10)) "").
    destruct (n <? 10) eqn:E; [| apply Z.ltb_ge in E; lia].
    rewrite string_app_cons, string_app_nil_l.
    rewrite (parse_digits_step _ n) by (try apply digit_value_digit_char; lia).
    rewrite Hacc. reflexivity.
  - change (digits_fuel (S (S fuel)) n) with
      (if n <? 10 then String (digit_char n) ""
       else digits_fuel (S fuel) (n / 10) +:+ String (digit_char (n mod 10)) "").
    destruct (n <? 10) eqn:E.
    + apply Z.ltb_lt in E.
      rewrite string_app_cons, string_app_nil_l.
      rewrite (parse_digits_step _ n) by (try apply digit_value_digit_char; lia).
      rewrite Hacc. reflexivity.
    + apply Z.ltb_ge in E.
      assert (0 <= n mod 10 < 10) as Hm by (apply Z.mod_pos_bound; lia).
      rewrite string_app_assoc, string_app_cons, string_app_nil_l.
      rewrite IH; [| exact Hacc |].
      * rewrite (parse_digits_step _ (n mod 10))
          by (try apply digit_value_digit_char; lia).
        cbn [default from_option]. unfold id. do 2 f_equal. pose proof (Z.div_mod n 10). lia.
      * split; [apply Z.div_pos; lia |].
        rewrite Nat2Z.inj_succ, Z.pow_succ_r in Hn by lia.
        apply Z.div_lt_upper_bound; lia.
Qed.

Lemma decimal_forall (n : Z) : 0 <= n -> string_forall is_digit (decimal n) = true.
Proof. apply digits_fuel_forall. Qed.

Lemma parse_digits_decimal (n : Z) (rest : string) (acc : option Z) :
  default 0 acc = 0 -> 0 <= n ->
  parse_digits 10 (decimal n +:+ rest) acc = parse_digits 10 rest (Some n).
Proof.
  intros Hacc Hn. unfold decimal. apply parse_digits_fuel; [exact Hacc |].
  split; [exact Hn |].
  rewrite Nat2Z.inj_succ, Z2Nat.id by apply Z.log2_nonneg.
  destruct (Z.eq_dec n 0) as [-> | Hne]; [reflexivity |].
  apply Z.log2_spec. lia.
Qed.

(** The first character of a decimal rendering is a digit. *)
Lemma decimal_head (n : Z) :
  0 <= n -> exists c s, decimal n = String c s /\ is_digit c = true.
Proof.
  intros Hn. pose proof (decimal_forall n Hn) as Hall.
  unfold decimal in *. set (f := Z.to_nat (Z.log2 n)) in *.
  destruct (digits_fuel (S f) n) as [|c s] eqn:E.
  - exfalso. cbn [digits_fuel] in E. destruct (n <? 10); [discriminate |].
    destruct (digits_fuel f (n / 10)); discriminate.
  - cbn [string_forall] in Hall. apply andb_true_iff in Hall as [Hc _]. eauto.
Qed.

Lemma is_digit_not_special (c : ascii) :
  is_digit c = true ->
  is_whitespace c = false /\ c <> "-"%char /\ c <> "+"%char /\ c <> "x"%char
  /\ c <> "X"%char /\ c <> "N"%char.
Proof.
  intros H. repeat split; try (intros ->; vm_compute in H; discriminate).
  destruct (is_whitespace c) eqn:E; [| reflexivity].
  unfold is_whitespace in E. unfold is_digit, digit_value in H.
  assert (nat_of_ascii c <= 13 \/ nat_of_ascii c = 32 \/ nat_of_ascii c = 160)%nat
    as Hws.
  { apply orb_true_iff in E as [E | E]; [apply orb_true_iff in E as [E | E] |].
    - apply andb_true_iff in E as [_ E]. apply Nat.leb_le in E. lia.
    - apply Nat.eqb_eq in E. lia.
    - apply Nat.eqb_eq in E. lia. }
  set (n := Z.of_nat (nat_of_ascii c)) in *.
  assert (n <= 13 \/ n = 32 \/ n = 160) as Hn by (unfold n; lia).
  destruct ((48 <=? n) && (n <=? 57)) eqn:E1;
    [| destruct ((97 <=? n) && (n <=? 122)) eqn:E2;
       [| destruct ((65 <=? n) && (n <=? 90)) eqn:E3; [| discriminate]]].
  - apply andb_true_iff in E1 as [E1 E1']. apply Z.leb_le in E1, E1'. lia.
  - apply andb_true_iff in E2 as [E2 E2']. apply Z.leb_le in E2, E2'. lia.
  - apply andb_true_iff in E3 as [E3 E3']. apply Z.leb_le in E3, E3'. lia.
Qed.

(** [parseInt] reads a decimal rendering back. *)
Lemma parseInt_decimal (n : Z) : 0 <= n -> parseInt (decimal n) (Some 10) = Num n.
Proof.
  intros Hn. destruct (decimal_head n Hn) as (c & s & E & Hc).
  pose proof (parse_digits_decimal n "" None eq_refl Hn) as Hp.
  rewrite string_app_nil_r in Hp. cbn [parse_digits] in Hp.
  destruct (is_digit_not_special c Hc) as (Hw & Hm & Hpl & _).
  unfold parseInt. rewrite E in *. cbn [skip_whitespace]. rewrite Hw.
  assert (strip_sign (String c s) = (1, String c s)) as ->.
  { unfold strip_sign. destruct c as [[] [] [] [] [] [] [] []]; try reflexivity;
      congruence. }
  cbn [default from_option]. unfold id.
  change (negb (10 =? 0) && ((10 <? 2) || (36 <? 10))) with false.
  change ((10 =? 0) || (10 =? 16)) with false. cbv iota beta.
  rewrite Hp. f_equal. lia.
Qed.

Lemma parseInt_number_to_string (x : number) :
  parseInt (number_to_string x) (Some 10) = x.
Proof.
  destruct x as [z|]; [| vm_compute; reflexivity].
  unfold number_to_string. destruct (z <? 0) eqn:E.
  - apply Z.ltb_lt in E. assert (0 <= - z) as Hn by lia.
    destruct (decimal_head (- z) Hn) as (c & s & Ed & Hc).
    pose proof (parse_digits_decimal (- z) "" None eq_refl Hn) as Hp.
    rewrite string_app_nil_r in Hp. cbn [parse_digits] in Hp.
    unfold parseInt.
    change ("-" +:+ decimal (- z)) with (String "-" (decimal (- z))).
    cbn [skip_whitespace]. change (is_whitespace "-") with false. cbv iota.
    cbn [strip_sign]. cbn [default from_option]. unfold id.
    change (negb (10 =? 0) && ((10 <? 2) || (36 <? 10))) with false.
    change ((10 =? 0) || (10 =? 16)) with false. cbv iota beta.
    rewrite Hp. f_equal. lia.
  - apply Z.ltb_ge in E. now apply parseInt_decimal.
Qed.

Lemma number_to_string_inj (x y : number) :
  number_to_string x = number_to_string y -> x = y.
Proof.
  intros H. rewrite <- (parseInt_number_to_string x), H.
  apply parseInt_number_to_string.
Qed.


(** *** Splitting a range specification *)

Lemma replace_first_bytes (rest : string) :
  replace_first "bytes=" "" ("bytes=" +:+ rest) = rest.
Proof. reflexivity. Qed.

Lemma split_no_sep (sep : ascii) (s : string) :
  string_forall (fun c => negb (Ascii.eqb c sep)) s = true -> split sep s = [s].
Proof.
  induction s as [|c s IH]; cbn [string_forall split]; [reflexivity |].
  intros H. apply andb_true_iff in H as [Hc Hs].
  apply negb_true_iff in Hc. rewrite Hc, (IH Hs). reflexivity.
Qed.

Lemma split_app_sep (sep : ascii) (a b : string) :
  string_forall (fun c => negb (Ascii.eqb c sep)) a = true ->
  split sep (a +:+ String sep b) = a :: split sep b.
Proof.
  induction a as [|c a IH]; cbn [string_forall]; intros H.
  - rewrite string_app_nil_l. cbn [split]. now rewrite Ascii.eqb_refl.
  - apply andb_true_iff in H as [Hc Ha]. apply negb_true_iff in Hc.
    rewrite string_app_cons. cbn [split]. rewrite Hc, (IH Ha). reflexivity.
Qed.

Lemma string_forall_impl (P Q : ascii -> bool) (s : string) :
  (forall c, P c = true -> Q c = true) ->
  string_forall P s = true -> string_forall Q s = true.
Proof.
  intros Himp. induction s as [|c s IH]; cbn [string_forall]; [reflexivity |].
  intros H. apply andb_true_iff in H as [Hc Hs].
  rewrite (Himp c Hc), (IH Hs). reflexivity.
Qed.

Lemma decimal_no_dash (n : Z) :
  0 <= n -> string_forall (fun c => negb (Ascii.eqb c "-")) (decimal n) = true.
Proof.
  intros Hn. apply (string_forall_impl is_digit); [| now apply decimal_forall].
  intros c Hc. destruct (is_digit_not_special c Hc) as (_ & Hd & _).
  apply negb_true_iff. now apply Ascii.eqb_neq.
Qed.

Lemma decimal_nonempty (n : Z) : 0 <= n -> truthy (Some (decimal n)) = true.
Proof.
  intros Hn. destruct (decimal_head n Hn) as (c & s & -> & _). reflexivity.
Qed.

Lemma number_to_string_nonneg (n : Z) :
  0 <= n -> number_to_string (Num n) = decimal n.
Proof.
  intros Hn. unfold number_to_string.
  destruct (n <? 0) eqn:E; [apply Z.ltb_lt in E; lia | reflexivity].
Qed.

(** Inside the buffer, [slice] is the sub-list between the offsets. *)
Lemma buffer_slice_in_bounds (buf : list byte) (s e : Z) :
  0 <= s <= e -> e <= Z.of_nat (length buf) ->
  buffer_slice buf (Num s) (Num e)
  = take (Z.to_nat (e - s)) (drop (Z.to_nat s) buf).
Proof.
  intros Hse He. unfold buffer_slice, adjustOffset.
  set (n := Z.of_nat (length buf)) in *.
  assert ((if s =? 0 then 0
           else if s <? 0 then if 0 <? s + n then s + n else 0
           else if s <? n then s else n) = Z.min s n) as ->.
  { destruct (Z.eqb_spec s 0); [lia |].
    destruct (Z.ltb_spec s 0); [lia |]. destruct (Z.ltb_spec s n); lia. }
  assert ((if e =? 0 then 0
           else if e <? 0 then if 0 <? e + n then e + n else 0
           else if e <? n then e else n) = e) as ->.
  { destruct (Z.eqb_spec e 0); [lia |].
    destruct (Z.ltb_spec e 0); [lia |]. destruct (Z.ltb_spec e n); lia. }
  rewrite Z.min_l by lia.
  destruct (Z.ltb_spec s e).
  - reflexivity.
  - assert (e - s = 0) as -> by lia. reflexivity.
Qed.

(** ** Signed URLs *)

Lemma alter_char_neq (i : nat) (c x : ascii) (s : string) :
  String.get i s = Some x -> x <> c -> alter_char i c s <> s.
Proof.
  revert i. induction s as [|y s IH]; intros [|i] Hget Hne; simpl in *;
    try discriminate.
  - injection Hget as ->. congruence.
  - intros H. injection H as H. exact (IH i Hget Hne H).
Qed.



Section CryptoSpec.
Variable hmac_sha256_hex : string -> string -> string.
Variable cfg : config.

Lemma verifySignedUrl_unfold (Date_now : Z) (fileId : string)
    (expires : number) (signature : string) :
  verifySignedUrl hmac_sha256_hex cfg Date_now fileId expires signature
  = negb (js_gt (Num (Date_now / 1000)) expires)
    && String.eqb signature
         (hmac_sha256_hex (jwtSecret (security cfg)) (signed_message fileId expires)).
Proof.
  unfold verifySignedUrl, signed_message.
  destruct (js_gt (Num (Date_now / 1000)) expires); reflexivity.
Qed.

(** C2.  [verifySignedUrl] is a total function to [bool] (it has no
    throwing completion).  For every file identifier, every signature and
    every timestamp [expires] that is a safe integer, with [now] the clock
    in whole seconds: it returns [false] whenever [now > expires], whatever
    the signature; and for [now <= expires] it returns [true] exactly when
    the signature is the hex HMAC-SHA256, under the configured secret, of
    the file identifier, a colon and [expires] as the template literal
    renders it, which for a safe integer is its decimal digits. *)
Theorem verifySignedUrl_expiry_and_signature (Date_now : Z) (fileId : string)
    (expires : Z) (signature : string) :
  safe_integer expires ->
  let now := Date_now / 1000 in
  (now > expires ->
   verifySignedUrl hmac_sha256_hex cfg Date_now fileId (Num expires) signature = false)
  /\
  (now <= expires ->
   (verifySignedUrl hmac_sha256_hex cfg Date_now fileId (Num expires) signature = true
    <-> signature = hmac_sha256_hex (jwtSecret (security cfg))
                      (fileId +:+ ":" +:+ number_to_string (Num expires)))).
Proof.
  intros _ now. rewrite verifySignedUrl_unfold. fold now. cbn [js_gt]. split.
  - intros H. destruct (expires <? now) eqn:E; [reflexivity |].
    apply Z.ltb_ge in E. lia.
  - intros H. destruct (expires <? now) eqn:E; [apply Z.ltb_lt in E; lia |].
    cbn [negb andb]. apply String.eqb_eq.
Qed.

(** An [expires] parameter that is not a number never counts as expired:
    the signature alone decides. *)
Remark verifySignedUrl_NaN (Date_now : Z) (fileId signature : string) :
  verifySignedUrl hmac_sha256_hex cfg Date_now fileId NaN signature
  = String.eqb signature
      (hmac_sha256_hex (jwtSecret (security cfg)) (fileId +:+ ":NaN")).
Proof. reflexivity. Qed.


End CryptoSpec.

(** An instance of C2: at 1700000000 seconds a link that expired one second
    before is refused whatever its signature, and a link good for another
    hour is accepted with the HMAC of its identifier and expiry. *)
Lemma verifySignedUrl_expiry_and_signature_witness :
  verifySignedUrl example_hmac example_config 1700000000000 "abc123"
    (Num 1699999999) "anything" = false
  /\ verifySignedUrl example_hmac example_config 1700000000000 "abc123"
       (Num 1700003600)
       (example_hmac "your-secret-key-change-this" "abc123:1700003600") = true.
Proof.
  split.
  - apply (verifySignedUrl_expiry_and_signature example_hmac example_config
             1700000000000 "abc123" 1699999999 "anything").
    + unfold safe_integer, MAX_SAFE_INTEGER. lia.
    + reflexivity.
  - apply (verifySignedUrl_expiry_and_signature example_hmac example_config
             1700000000000 "abc123" 1700003600).
    + unfold safe_integer, MAX_SAFE_INTEGER. lia.
    + discriminate.
    + reflexivity.
Defined.


(** ** The bounded cache *)

Section LRUSpec.
Context {V : Type}.
Implicit Types (l : list (string * (V * Z))) (c : LRUCache.t V).

Lemma find_Some_elem (k : string) l (e : V * Z) :
  LRUCache.find k l = Some e -> k ∈ l.*1.
Proof.
  induction l as [|[k' e'] l IH]; simpl; [discriminate |].
  destruct (String.eqb_spec k k') as [-> | Hne]; intros H.
  - apply list_elem_of_here.
  - apply list_elem_of_further. auto.
Qed.

Lemma find_None_not_elem (k : string) l :
  LRUCache.find k l = None -> k ∉ l.*1.
Proof.
  induction l as [|[k' e'] l IH]; simpl; intros H Hin.
  - inversion Hin.
  - destruct (String.eqb_spec k k') as [-> | Hne]; [discriminate |].
    apply elem_of_cons in Hin as [? | ?]; [congruence | now apply IH].
Qed.

Lemma elem_of_remove (k k' : string) l :
  k' ∈ (LRUCache.remove k l).*1 <-> k' ∈ l.*1 /\ k' <> k.
Proof.
  induction l as [|[k0 e0] l IH]; simpl.
  - split; [intros H; inversion H | intros [H _]; inversion H].
  - destruct (String.eqb_spec k k0) as [-> | Hne].
    + rewrite IH, elem_of_cons. intuition congruence.
    + simpl. rewrite !elem_of_cons, IH. intuition congruence.
Qed.

Lemma length_remove_le (k : string) l :
  (length (LRUCache.remove k l) <= length l)%nat.
Proof.
  induction l as [|[k0 e0] l IH]; simpl; [lia |].
  destruct (String.eqb k k0); simpl; lia.
Qed.

Lemma length_remove_lt (k : string) l (e : V * Z) :
  LRUCache.find k l = Some e -> (length (LRUCache.remove k l) < length l)%nat.
Proof.
  induction l as [|[k0 e0] l IH]; simpl; [discriminate |].
  destruct (String.eqb k k0); intros H; simpl.
  - pose proof (length_remove_le k l). lia.
  - apply IH in H. lia.
Qed.

Lemma find_remove_None (k : string) l :
  LRUCache.find k (LRUCache.remove k l) = None.
Proof.
  induction l as [|[k0 e0] l IH]; simpl; [reflexivity |].
  destruct (String.eqb k k0) eqn:E; [exact IH |]. simpl. now rewrite E.
Qed.

Lemma find_tail_None (k : string) l :
  LRUCache.find k l = None -> LRUCache.find k (tail l) = None.
Proof.
  destruct l as [|[k0 e0] l]; simpl; [auto |].
  destruct (String.eqb k k0); [discriminate | auto].
Qed.

Lemma find_snoc (k : string) l (e : V * Z) :
  LRUCache.find k l = None -> LRUCache.find k (l ++ [(k, e)]) = Some e.
Proof.
  induction l as [|[k0 e0] l IH]; simpl.
  - now rewrite String.eqb_refl.
  - destruct (String.eqb k k0); [discriminate | exact IH].
Qed.

(** An entry set into an enabled cache is returned by a [get] at the same
    reading of the clock. *)
Lemma get_after_set (now : Z) (k : string) (v : V) c :
  0 <= LRUCache.ttl c ->
  fst (LRUCache.get now k (LRUCache.set now k v c)) = Some v.
Proof.
  intros Httl.
  assert (LRUCache.find k (LRUCache.items (LRUCache.set now k v c)) = Some (v, now))
    as Hfind.
  { unfold LRUCache.set.
    destruct (LRUCache.find k (LRUCache.items c)) eqn:E; cbn [LRUCache.items LRUCache.with_items].
    - apply find_snoc, find_remove_None.
    - apply find_snoc. destruct (LRUCache.max c <=? LRUCache.size c);
        [now apply find_tail_None | exact E]. }
  unfold LRUCache.get. rewrite Hfind.
  assert (LRUCache.isStale (LRUCache.set now k v c) now now = false) as ->.
  { unfold LRUCache.isStale.
    assert (LRUCache.ttl (LRUCache.set now k v c) = LRUCache.ttl c) as ->
      by (unfold LRUCache.set; destruct (LRUCache.find k (LRUCache.items c)); reflexivity).
    apply andb_false_iff. right. apply Z.ltb_ge. lia. }
  reflexivity.
Qed.

Lemma filter_le_length (f : string * (V * Z) -> bool) l :
  (length (List.filter f l) <= length l)%nat.
Proof.
  induction l as [|x l IH]; simpl; [lia |]. destruct (f x); simpl; lia.
Qed.

Lemma ordered_by_remove (R : string -> string -> Prop) (k : string) l :
  ordered_by R l.*1 -> ordered_by R (LRUCache.remove k l).*1.
Proof.
  induction l as [|[k0 e0] l IH]; simpl; [auto |].
  intros [Hhd Htl]. destruct (String.eqb k k0); [auto |].
  simpl. split; [| auto].
  apply Forall_forall. intros x Hx. apply elem_of_remove in Hx as [Hx _].
  rewrite Forall_forall in Hhd. auto.
Qed.

Lemma ordered_by_snoc (R : string -> string -> Prop) (ks : list string) (k : string) :
  ordered_by R ks -> Forall (fun x => R x k) ks -> ordered_by R (ks ++ [k]).
Proof.
  induction ks as [|x ks IH]; simpl; intros Hord Hall.
  - split; [constructor | exact I].
  - destruct Hord as [Hhd Htl]. apply Forall_cons in Hall as [Hx Hall].
    split; [| auto].
    apply Forall_app. split; [exact Hhd | repeat constructor; exact Hx].
Qed.

Lemma ordered_by_impl (R R' : string -> string -> Prop) (ks : list string) :
  (forall x y, x ∈ ks -> y ∈ ks -> R x y -> R' x y) ->
  ordered_by R ks -> ordered_by R' ks.
Proof.
  induction ks as [|x ks IH]; simpl; [auto |].
  intros Himp [Hhd Htl]. split.
  - apply Forall_forall. intros y Hy. rewrite Forall_forall in Hhd.
    apply Himp; [apply list_elem_of_here | now apply list_elem_of_further | auto].
  - apply IH; [| exact Htl]. intros a b Ha Hb.
    apply Himp; now apply list_elem_of_further.
Qed.

Lemma last_access_lt (history : list (option string)) (k : string) (t : nat) :
  last_access history k = Some t -> (t < length history)%nat.
Proof.
  induction history as [|a h IH]; simpl; [discriminate |].
  destruct (decide (a = Some k)); intros H.
  - injection H as <-. lia.
  - apply IH in H. lia.
Qed.

Lemma last_access_cons_ne (a : option string) (history : list (option string))
    (k : string) :
  a <> Some k -> last_access (a :: history) k = last_access history k.
Proof. intros H. simpl. destruct (decide (a = Some k)); [contradiction | reflexivity]. Qed.

Lemma last_access_cons_eq (history : list (option string)) (k : string) :
  last_access (Some k :: history) k = Some (length history).
Proof. simpl. destruct (decide (Some k = Some k)); [reflexivity | contradiction]. Qed.

Lemma recency_invariant_nil (history : list (option string)) :
  recency_invariant history [].
Proof. split; [intros k H; inversion H | exact I]. Qed.

(** An operation that accesses nothing keeps the invariant on any
    selection of the keys. *)
Lemma recency_invariant_none (history : list (option string)) (k : string) l :
  recency_invariant history l.*1 ->
  recency_invariant (None :: history) (LRUCache.remove k l).*1.
Proof.
  intros [Hs Ho]. split.
  - intros k' Hk'. apply elem_of_remove in Hk' as [Hk' _].
    rewrite last_access_cons_ne by discriminate. auto.
  - apply ordered_by_remove.
    eapply ordered_by_impl; [| exact Ho].
    intros x y _ _ (t1 & t2 & H1 & H2 & Hlt). exists t1, t2.
    rewrite !last_access_cons_ne by discriminate. auto.
Qed.

Lemma recency_invariant_skip (history : list (option string)) (ks : list string) :
  recency_invariant history ks -> recency_invariant (None :: history) ks.
Proof.
  intros [Hs Ho]. split.
  - intros k' Hk'. rewrite last_access_cons_ne by discriminate. auto.
  - eapply ordered_by_impl; [| exact Ho].
    intros x y _ _ (t1 & t2 & H1 & H2 & Hlt). exists t1, t2.
    rewrite !last_access_cons_ne by discriminate. auto.
Qed.

(** Moving or adding the accessed key at the most recent end keeps it. *)
Lemma recency_invariant_touch (history : list (option string)) (k : string)
    (ks ks' : list string) :
  recency_invariant history ks ->
  ordered_by (accessed_before history) ks' ->
  (forall x, x ∈ ks' -> x ∈ ks /\ x <> k) ->
  recency_invariant (Some k :: history) (ks' ++ [k]).
Proof.
  intros [Hs Ho] Ho' Hsub. split.
  - intros x Hx. apply elem_of_app in Hx as [Hx | Hx].
    + destruct (Hsub x Hx) as [Hin Hne].
      rewrite last_access_cons_ne by congruence. auto.
    + apply list_elem_of_singleton in Hx as ->.
      rewrite last_access_cons_eq. eauto.
  - apply ordered_by_snoc.
    + eapply ordered_by_impl; [| exact Ho'].
      intros x y Hx Hy (t1 & t2 & H1 & H2 & Hlt). exists t1, t2.
      destruct (Hsub x Hx) as [_ Hxk]. destruct (Hsub y Hy) as [_ Hyk].
      rewrite !last_access_cons_ne by congruence. auto.
    + apply Forall_forall. intros x Hx. destruct (Hsub x Hx) as [Hin Hne].
      destruct (Hs x Hin) as [t Ht]. exists t, (length history).
      rewrite last_access_cons_ne by congruence. rewrite last_access_cons_eq.
      split; [exact Ht | split; [reflexivity |]].
      now apply last_access_lt in Ht.
Qed.

Lemma ordered_by_tail (R : string -> string -> Prop) (ks : list string) :
  ordered_by R ks -> ordered_by R (tail ks).
Proof. destruct ks as [|k ks]; simpl; [auto | intros [_ H]; exact H]. Qed.

Lemma fmap_fst_tail l : (tail l).*1 = tail l.*1.
Proof. destruct l; reflexivity. Qed.

Lemma elem_of_tail (x : string) (ks : list string) : x ∈ tail ks -> x ∈ ks.
Proof. destruct ks; simpl; [auto | apply list_elem_of_further]. Qed.

Lemma cache_step_invariant (bound : Z) (history : list (option string))
    (mc : memory_cache V) (op : cache_op V) :
  0 < bound ->
  cache_invariant bound history mc ->
  cache_invariant bound
    (accessed op (fst (cache_step op mc)) :: history) (snd (cache_step op mc)).
Proof.
  intros Hpos Hinv. destruct mc as [c|]; [| contradiction].
  destruct Hinv as (Hmax & Hsize & Hrec).
  unfold LRUCache.size, LRUCache.keys in *.
  destruct op as [now k | now k v | k |]; simpl.
  - (* get *)
    unfold LRUCache.get.
    destruct (LRUCache.find k (LRUCache.items c)) as [[v start]|] eqn:Hfind.
    + destruct (LRUCache.isStale c now start); simpl.
      * split; [exact Hmax |]. split.
        -- pose proof (length_remove_le k (LRUCache.items c)).
           unfold LRUCache.size. simpl. lia.
        -- unfold LRUCache.keys. simpl. now apply recency_invariant_none.
      * split; [exact Hmax |]. split.
        -- pose proof (length_remove_lt k _ _ Hfind).
           unfold LRUCache.size. simpl. rewrite length_app. simpl. lia.
        -- unfold LRUCache.keys. simpl. rewrite fmap_app. simpl.
           eapply recency_invariant_touch; [exact Hrec | |].
           ++ apply ordered_by_remove. apply Hrec.
           ++ intros x Hx. now apply elem_of_remove in Hx.
    + simpl. split; [exact Hmax |]. split; [exact Hsize |].
      now apply recency_invariant_skip.
  - (* set *)
    unfold LRUCache.set.
    destruct (LRUCache.find k (LRUCache.items c)) as [e|] eqn:Hfind; simpl.
    + split; [exact Hmax |]. split.
      * pose proof (length_remove_lt k _ _ Hfind).
        unfold LRUCache.size. simpl. rewrite length_app. simpl. lia.
      * unfold LRUCache.keys. simpl. rewrite fmap_app. simpl.
        eapply recency_invariant_touch; [exact Hrec | |].
        -- apply ordered_by_remove. apply Hrec.
        -- intros x Hx. now apply elem_of_remove in Hx.
    + apply find_None_not_elem in Hfind.
      split; [exact Hmax |]. split.
      * unfold LRUCache.size. simpl. rewrite length_app. simpl.
        destruct (LRUCache.max c <=? Z.of_nat (length (LRUCache.items c))) eqn:E.
        -- apply Z.leb_le in E. destruct (LRUCache.items c); simpl in *; lia.
        -- apply Z.leb_gt in E. lia.
      * unfold LRUCache.keys. simpl. rewrite fmap_app. simpl.
        eapply recency_invariant_touch; [exact Hrec | |].
        -- destruct (LRUCache.max c <=? LRUCache.size c); [| apply Hrec].
           rewrite fmap_fst_tail. apply ordered_by_tail. apply Hrec.
        -- intros x Hx.
           assert (x ∈ (LRUCache.items c).*1) as Hin.
           { destruct (LRUCache.max c <=? LRUCache.size c); [| exact Hx].
             rewrite fmap_fst_tail in Hx. now apply elem_of_tail. }
           split; [exact Hin | congruence].
  - (* delete *)
    split; [exact Hmax |]. split.
    + pose proof (length_remove_le k (LRUCache.items c)).
      unfold LRUCache.size. simpl. lia.
    + unfold LRUCache.keys. simpl. now apply recency_invariant_none.
  - (* clear *)
    split; [exact Hmax |]. split.
    + unfold LRUCache.size. simpl. lia.
    + apply recency_invariant_nil.
Qed.

Lemma run_cache_invariant (bound : Z) (ops : list (cache_op V))
    (history : list (option string)) (mc : memory_cache V) :
  0 < bound ->
  cache_invariant bound history mc ->
  cache_invariant bound (snd (run_cache ops mc history)) (fst (run_cache ops mc history)).
Proof.
  intros Hpos. revert history mc.
  induction ops as [|op ops IH]; intros history mc Hinv; [exact Hinv |].
  simpl. pose proof (cache_step_invariant bound history mc op Hpos Hinv) as Hstep.
  destruct (cache_step op mc) as [result mc']. now apply IH.
Qed.
End LRUSpec.

(** C4, amended.  On an enabled cache with a positive [maxSize], after any
    sequence of [get], [set], [delete] and [clear] calls: the entries within
    their TTL are among the stored ones, and the number of stored entries
    is at most [maxSize]; and whenever a further [set] makes a stored key
    disappear, the latest access to that key (a [set] of it, or a [get]
    that returned it) is older than the latest access to every other
    stored key. *)
Theorem cache_bounded_and_lru {V : Type} (cfg : config)
    (ops : list (cache_op V)) (mc0 : memory_cache V) :
  memoryEnabled (cache cfg) = true ->
  0 < maxSize (cache cfg) ->
  let mc := fst (run_cache ops (initCache cfg mc0) []) in
  let history := snd (run_cache ops (initCache cfg mc0) []) in
  (forall now : Z, live_entries now mc <= cache_size mc)
  /\ cache_size mc <= maxSize (cache cfg)
  /\ forall (now : Z) (key : string) (value : V) (evicted : string),
       evicted ∈ cache_keys mc ->
       evicted ∉ cache_keys (setInCache now key value mc) ->
       forall other : string,
         other ∈ cache_keys mc -> other <> evicted ->
         accessed_before history evicted other.
Proof.
  intros Hen Hpos mc history.
  assert (cache_invariant (maxSize (cache cfg)) history mc) as Hinv.
  { apply run_cache_invariant; [exact Hpos |].
    unfold initCache. rewrite Hen. simpl.
    split; [reflexivity |]. split; [unfold LRUCache.size; simpl; lia |].
    apply recency_invariant_nil. }
  destruct mc as [c|]; [| contradiction].
  destruct Hinv as (Hmax & Hsize & Hs & Ho).
  split; [| split; [exact Hsize |]].
  - intros now. unfold live_entries, cache_size, LRUCache.size.
    pose proof (filter_le_length
      (fun it : string * (V * Z) => negb (LRUCache.isStale c now (snd (snd it))))
      (LRUCache.items c)). lia.
  - intros now key value evicted Hin Hout other Hother Hne.
    unfold cache_keys, setInCache, LRUCache.set, LRUCache.keys in *.
    destruct (LRUCache.find key (LRUCache.items c)) as [e|] eqn:Hfind.
    + (* overwrite: every key stays *)
      exfalso. apply Hout. simpl. rewrite fmap_app. apply elem_of_app.
      destruct (decide (evicted = key)) as [-> | Hk].
      * right. apply list_elem_of_here.
      * left. apply elem_of_remove. auto.
    + simpl in Hout. rewrite fmap_app in Hout.
      destruct (LRUCache.max c <=? LRUCache.size c).
      * (* at capacity: only the first key can go *)
        destruct (LRUCache.items c) as [|[k0 e0] l]; [inversion Hin |].
        simpl in *. destruct Ho as [Hhd _].
        apply elem_of_cons in Hin as [-> | Hin].
        -- apply elem_of_cons in Hother as [? | Hother]; [congruence |].
           rewrite Forall_forall in Hhd. auto.
        -- exfalso. apply Hout. apply elem_of_app. auto.
      * exfalso. apply Hout. apply elem_of_app. auto.
Qed.

(** An instance of C4 with room for two entries: after [set a], [set b]
    and a [get a] that hits, a [set c] puts [b] out, and [b] is the key
    accessed least recently. *)
Lemma cache_bounded_and_lru_witness :
  let cfg :=
    {| edge := edge example_config;
       cache := {| maxSize := 2; ttl := 3600000; memoryEnabled := true |};
       security := security example_config;
       compression := compression example_config;
       originUrl := originUrl example_config |} in
  let ops := [OpSet 1 "a" 10%nat; OpSet 2 "b" 20%nat; OpGet 3 "a"] in
  let mc := fst (run_cache ops (initCache cfg None) []) in
  let history := snd (run_cache ops (initCache cfg None) []) in
  cache_size mc <= 2
  /\ cache_keys (setInCache 4 "c" 30%nat mc) = ["a"; "c"]
  /\ accessed_before history "b" "a".
Proof.
  intros cfg ops mc history.
  destruct (cache_bounded_and_lru cfg ops None eq_refl eq_refl)
    as (_ & Hsize & Hlru).
  split; [exact Hsize |]. split; [reflexivity |].
  apply (Hlru 4 "c" 30%nat "b").
  - apply list_elem_of_In. vm_compute. auto.
  - intros H. apply list_elem_of_In in H. vm_compute in H.
    destruct H as [H | [H | []]]; discriminate.
  - apply list_elem_of_In. vm_compute. auto.
  - discriminate.
Defined.

(** C4 as stated fails for an enabled cache whose [maxSize] is 0, which
    the configuration accepts ([CACHE_MAX_SIZE=0]): after one [set] the
    cache holds one entry, a [get] returns it, and one is more than
    [maxSize]. *)
Lemma cache_exceeds_zero_maxSize :
  let cfg :=
    {| edge := edge example_config;
       cache := {| maxSize := 0; ttl := 3600000; memoryEnabled := true |};
       security := security example_config;
       compression := compression example_config;
       originUrl := originUrl example_config |} in
  let mc := fst (run_cache [OpSet 1 "a" 10%nat] (initCache cfg None) []) in
  memoryEnabled (cache cfg) = true
  /\ fst (getFromCache 2 "a" mc) = Some 10%nat
  /\ live_entries 2 mc = 1
  /\ cache_size mc = 1
  /\ ~ (live_entries 2 mc <= maxSize (cache cfg)).
Proof.
  intros cfg mc. split; [reflexivity |]. split; [reflexivity |].
  split; [reflexivity |]. split; [reflexivity |].
  intros H. vm_compute in H. apply H. reflexivity.
Qed.


(** ** Response assembly *)

Lemma truthy_Some (v : option string) :
  truthy v = true <-> exists s, v = Some s /\ s <> "".
Proof.
  destruct v as [s|]; simpl.
  - rewrite negb_true_iff, String.eqb_neq. split; [eauto |].
    intros (s' & [= <-] & H). exact H.
  - split; [discriminate | intros (s & H & _); discriminate].
Qed.

Lemma truthy_default (v : option string) :
  truthy v = true -> Some (default "" v) = v.
Proof. intros H. apply truthy_Some in H as (s & -> & _). reflexivity. Qed.

(** The headers [cachingHeaders] sets on a fresh reply. *)
Lemma cachingHeaders_lookup (md : entry_metadata) (name : string) :
  replyHeaders (cachingHeaders new_reply md) !! name
  = if decide (name = "Last-Modified") then
      (if truthy (lastModified md) then lastModified md else None)
    else if decide (name = "ETag") then
      (if truthy (etag md) then etag md else None)
    else if decide (name = "X-Cache") then Some "HIT"
    else if decide (name = "Cache-Control") then Some (cacheControl md)
    else if decide (name = "Content-Type") then Some (default "" (contentType md))
    else None.
Proof.
  unfold cachingHeaders.
  destruct (truthy (lastModified md)) eqn:Elm;
    destruct (truthy (etag md)) eqn:Eet; cbn [header replyHeaders new_reply];
    repeat (rewrite lookup_insert; case_decide; subst);
    rewrite ?lookup_empty;
    repeat case_decide; try congruence; try discriminate;
    first [ now rewrite truthy_default | reflexivity ].
Qed.

(** The same on any reply: the five headers are set, the rest is kept. *)
Lemma cachingHeaders_lookup_on (reply0 : reply) (md : entry_metadata)
    (name : string) :
  replyHeaders (cachingHeaders reply0 md) !! name
  = if decide (name = "Last-Modified") then
      (if truthy (lastModified md) then lastModified md
       else replyHeaders reply0 !! "Last-Modified")
    else if decide (name = "ETag") then
      (if truthy (etag md) then etag md else replyHeaders reply0 !! "ETag")
    else if decide (name = "X-Cache") then Some "HIT"
    else if decide (name = "Cache-Control") then Some (cacheControl md)
    else if decide (name = "Content-Type") then Some (default "" (contentType md))
    else replyHeaders reply0 !! name.
Proof.
  unfold cachingHeaders.
  destruct (truthy (lastModified md)) eqn:Elm;
    destruct (truthy (etag md)) eqn:Eet; cbn [header replyHeaders];
    repeat (rewrite lookup_insert; case_decide; subst);
    repeat case_decide; try congruence; try discriminate;
    first [ now rewrite truthy_default | reflexivity ].
Qed.

Lemma cachingHeaders_no_encoding (md : entry_metadata) :
  replyHeaders (cachingHeaders new_reply md) !! "Content-Encoding" = None.
Proof.
  rewrite cachingHeaders_lookup. repeat case_decide; try discriminate. reflexivity.
Qed.

Lemma cachingHeaders_x_cache (md : entry_metadata) :
  replyHeaders (cachingHeaders new_reply md) !! "X-Cache" = Some "HIT".
Proof.
  rewrite cachingHeaders_lookup.
  repeat case_decide; try discriminate; congruence.
Qed.

Lemma cachingHeaders_status (md : entry_metadata) :
  statusCode (cachingHeaders new_reply md) = 200.
Proof.
  unfold cachingHeaders.
  destruct (truthy (lastModified md)); destruct (truthy (etag md)); reflexivity.
Qed.

Section ServeContentSpec.
Variable Date_getTime : string -> number.
Variable zlib_gzip : list byte -> list byte.
Variable zlib_brotliCompress : list byte -> list byte.
Variable cfg : config.

Local Abbreviation serve_content :=
  (serveContent Date_getTime zlib_gzip zlib_brotliCompress cfg).

(** C5, amended.  If the request's If-None-Match is non-empty and equals
    the entry's ETag, or its If-Modified-Since parses to a time at or after
    the time the entry's Last-Modified parses to, the response is 304 with
    no body, whatever the reply held when [serveContent] received it.
    [serveContent] has set Content-Type, Cache-Control and X-Cache on it,
    and the validators the entry has, and no other header: a header of any
    other name is as it was on the reply received, so no Content-Length,
    Content-Range or Content-Encoding is added. *)
Theorem not_modified_response (reply0 : reply) (entry : cacheEntry)
    (req : request) :
  let md := metadata entry in
  ((exists tag : string,
      tag <> "" /\ headers req !! "if-none-match" = Some tag /\ etag md = Some tag)
   \/
   (exists (since modified : string) (t1 t2 : Z),
      since <> "" /\ modified <> ""
      /\ headers req !! "if-modified-since" = Some since
      /\ lastModified md = Some modified
      /\ Date_getTime since = Num t1 /\ Date_getTime modified = Num t2
      /\ t2 <= t1)) ->
  exists r : response,
    serve_content reply0 entry req = Returned r
    /\ status r = 304
    /\ body r = NoPayload
    /\ (forall name : string,
          toLowerCase name ∉ ["content-type"; "cache-control"; "x-cache"; "etag";
                              "last-modified"] ->
          responseHeaders r !! name = replyHeaders reply0 !! name)
    /\ responseHeaders r !! "Content-Type" = Some (default "" (contentType md))
    /\ responseHeaders r !! "Cache-Control" = Some (cacheControl md)
    /\ responseHeaders r !! "X-Cache" = Some "HIT"
    /\ responseHeaders r !! "ETag"
       = (if truthy (etag md) then etag md else replyHeaders reply0 !! "ETag")
    /\ responseHeaders r !! "Last-Modified"
       = (if truthy (lastModified md) then lastModified md
          else replyHeaders reply0 !! "Last-Modified").
Proof.
  intros md Hcond.
  assert (notModified Date_getTime md req = true) as Hnm.
  { unfold notModified. apply orb_true_iff.
    destruct Hcond as [(tag & Hne & Hreq & Het)
                      | (since & modified & t1 & t2 & Hs & Hm & Hreq & Hlm & H1 & H2 & Hle)].
    - left. rewrite Hreq, Het. cbn [truthy].
      apply String.eqb_neq in Hne. rewrite Hne. cbn [negb andb].
      now apply bool_decide_eq_true.
    - right. rewrite Hreq, Hlm. cbn [truthy default from_option]. unfold id.
      apply String.eqb_neq in Hs, Hm. rewrite Hs, Hm, H1, H2. cbn [negb andb js_le].
      now apply Z.leb_le. }
  eexists. split.
  { unfold serveContent. fold md. rewrite Hnm. reflexivity. }
  cbn [status body responseHeaders send code replyHeaders statusCode].
  split; [reflexivity |]. split; [reflexivity |]. split.
  { intros name Hname. rewrite cachingHeaders_lookup_on.
    repeat case_decide; subst; try reflexivity;
      exfalso; apply Hname; apply list_elem_of_In; vm_compute; tauto. }
  rewrite !cachingHeaders_lookup_on.
  repeat split; reflexivity.
Qed.
Lemma serveContent_range (entry : cacheEntry) (req : request) (range : string) :
  notModified Date_getTime (metadata entry) req = false ->
  headers req !! "range" = Some range -> range <> "" ->
  serve_content new_reply entry req
  = Returned (serveRange (cachingHeaders new_reply (metadata entry))
                (content entry) range).
Proof.
  intros Hnm Hr Hne. unfold serveContent. rewrite Hnm, Hr.
  cbn [truthy]. apply String.eqb_neq in Hne. rewrite Hne. reflexivity.
Qed.

(** The range branch answers 206 and never sets Content-Encoding. *)
Lemma serveRange_not_encoded (md : entry_metadata) (content : list byte)
    (range : string) :
  let r := serveRange (cachingHeaders new_reply md) content range in
  status r = 206 /\ responseHeaders r !! "Content-Encoding" = None
  /\ exists s e : number, body r = BufferPayload (buffer_slice content s e).
Proof.
  unfold serveRange. cbn [status responseHeaders body send code header replyHeaders
                          statusCode]. split; [reflexivity |]. split; [| eauto].
  rewrite !lookup_insert_ne by discriminate.
  apply cachingHeaders_no_encoding.
Qed.

(** C6, amended.  For a request that is not answered 304 and carries
    [Range: bytes=start-end], the numbers being safe integers and [end]
    possibly omitted and then taken as the length minus one: the response
    is 206, Accept-Ranges is [bytes], and [start] and [end] are used as
    parsed, without clamping: Content-Range is [bytes start-end/n] and the
    body is [content.slice(start, end + 1)].  When [start <= end < n] that
    body is exactly the bytes from [start] to [end] inclusive, and
    Content-Length is its length, [end - start + 1]. *)
Theorem range_response (entry : cacheEntry) (req : request)
    (start end_ : Z) (tail : string) :
  let n := Z.of_nat (length (content entry)) in
  notModified Date_getTime (metadata entry) req = false ->
  0 <= start <= MAX_SAFE_INTEGER -> 0 <= end_ <= MAX_SAFE_INTEGER ->
  n <= MAX_SAFE_INTEGER ->
  tail = decimal end_ \/ (tail = "" /\ end_ = n - 1) ->
  headers req !! "range" = Some ("bytes=" +:+ decimal start +:+ "-" +:+ tail) ->
  exists r : response,
    serve_content new_reply entry req = Returned r
    /\ status r = 206
    /\ responseHeaders r !! "Content-Range"
       = Some ("bytes " +:+ decimal start +:+ "-" +:+ decimal end_ +:+ "/" +:+ decimal n)
    /\ responseHeaders r !! "Accept-Ranges" = Some "bytes"
    /\ body r = BufferPayload (buffer_slice (content entry) (Num start) (Num (end_ + 1)))
    /\ (start <= end_ < n ->
        buffer_slice (content entry) (Num start) (Num (end_ + 1))
        = take (Z.to_nat (end_ - start + 1)) (drop (Z.to_nat start) (content entry))
        /\ Z.of_nat (length (buffer_slice (content entry) (Num start) (Num (end_ + 1))))
           = end_ - start + 1
        /\ responseHeaders r !! "Content-Length" = Some (decimal (end_ - start + 1))).
Proof.
  intros n Hnm [Hs _] [He _] _ Htail Hrange.
  eexists. split.
  { apply serveContent_range; [exact Hnm | exact Hrange | discriminate]. }
  assert (split "-" (decimal start +:+ "-" +:+ tail) = [decimal start; tail]) as Hsplit.
  { change (decimal start +:+ "-" +:+ tail) with (decimal start +:+ String "-" tail).
    rewrite split_app_sep by now apply decimal_no_dash.
    f_equal. destruct Htail as [-> | [-> _]]; [| reflexivity].
    apply split_no_sep. now apply decimal_no_dash. }
  assert ((if truthy (Some tail) then parseInt tail (Some 10)
           else js_sub (Num n) (Num 1)) = Num end_) as Hend.
  { destruct Htail as [-> | [-> ->]].
    - rewrite decimal_nonempty by exact He. now apply parseInt_decimal.
    - reflexivity. }
  unfold serveRange. rewrite replace_first_bytes, Hsplit.
  cbn [lookup list_lookup default from_option]. unfold id. fold n.
  rewrite Hend, (parseInt_decimal start Hs).
  cbn [status responseHeaders body send code header replyHeaders statusCode
       js_add js_sub].
  split; [reflexivity |].
  split.
  { rewrite !lookup_insert_ne by discriminate. rewrite lookup_insert_eq.
    rewrite !number_to_string_nonneg by lia. reflexivity. }
  split.
  { rewrite !lookup_insert_ne by discriminate. now rewrite lookup_insert_eq. }
  split; [reflexivity |].
  intros Hin.
  rewrite buffer_slice_in_bounds by (fold n; lia).
  replace (end_ + 1 - start) with (end_ - start + 1) by lia.
  split; [reflexivity |].
  split; [rewrite length_take, length_drop; fold n; lia |].
  rewrite lookup_insert_eq. now rewrite number_to_string_nonneg by lia.
Qed.

(** C7, amended.  A response carries Content-Encoding only if it is a 200
    response for an entry whose content type starts with an entry of the
    allow-list; a 206 response carries none and its body is a slice of the
    stored bytes.  For the full entity, the encoding is brotli when the
    type is compressible, brotli is enabled in the configuration and
    Accept-Encoding contains [br]; otherwise gzip when the type is
    compressible, gzip is enabled and Accept-Encoding contains [gzip];
    otherwise the stored bytes are sent as they are. *)
Theorem compression_negotiation (entry : cacheEntry) (req : request) (r : response) :
  serve_content new_reply entry req = Returned r ->
  let md := metadata entry in
  let accept := default "" (headers req !! "accept-encoding") in
  (is_Some (responseHeaders r !! "Content-Encoding") ->
   status r = 200
   /\ exists ct : string,
        contentType md = Some ct /\ existsb (startsWith ct) compressibleTypes = true)
  /\
  (status r = 206 ->
   responseHeaders r !! "Content-Encoding" = None
   /\ exists s e : number, body r = BufferPayload (buffer_slice (content entry) s e))
  /\
  (notModified Date_getTime md req = false ->
   truthy (headers req !! "range") = false ->
   forall ct : string,
     contentType md = Some ct ->
     let compressible := existsb (startsWith ct) compressibleTypes in
     if compressible && brotli (compression cfg) && includes accept "br"
     then responseHeaders r !! "Content-Encoding" = Some "br"
          /\ body r = BufferPayload (zlib_brotliCompress (content entry))
     else if compressible && gzip (compression cfg) && includes accept "gzip"
     then responseHeaders r !! "Content-Encoding" = Some "gzip"
          /\ body r = BufferPayload (zlib_gzip (content entry))
     else responseHeaders r !! "Content-Encoding" = None
          /\ body r = BufferPayload (content entry)).
Proof.
  intros Hr md accept. unfold serveContent in Hr. fold md in Hr.
  assert ((if truthy (headers req !! "accept-encoding")
           then default "" (headers req !! "accept-encoding") else "") = accept)
    as Haccept.
  { unfold accept. destruct (headers req !! "accept-encoding") as [a|]; [| reflexivity].
    cbn. destruct (String.eqb_spec a ""); [now subst | reflexivity]. }
  destruct (notModified Date_getTime md req) eqn:Hnm.
  { (* 304 *)
    injection Hr as <-.
    cbn [status responseHeaders body send code replyHeaders statusCode].
    rewrite cachingHeaders_no_encoding.
    split; [intros [? ?]; discriminate |].
    split; [discriminate | discriminate]. }
  destruct (truthy (headers req !! "range")) eqn:Hrange.
  { (* 206 *)
    injection Hr as <-.
    destruct (serveRange_not_encoded md (content entry)
                (default "" (headers req !! "range"))) as (Hst & Hce & Hb).
    fold md. rewrite Hst, Hce.
    split; [intros [? ?]; discriminate |].
    split; [auto | discriminate]. }
  (* the full entity *)
  unfold serveFull in Hr. rewrite Haccept in Hr.
  destruct (contentType md) as [ct|] eqn:Hct; [| discriminate].
  cbn [isCompressibleType] in Hr.
  pose proof (cachingHeaders_status md) as Hst.
  pose proof (cachingHeaders_no_encoding md) as Hnone.
  set (compressible := existsb (startsWith ct) compressibleTypes) in *.
  destruct (compressible && brotli (compression cfg) && includes accept "br") eqn:Ebr;
    [| destruct (compressible && gzip (compression cfg) && includes accept "gzip")
         eqn:Egz];
    injection Hr as <-;
    cbn [status responseHeaders body send code header replyHeaders statusCode].
  - (* brotli *)
    assert (compressible = true) as Ec.
    { apply andb_true_iff in Ebr as [E _]. now apply andb_true_iff in E as [E _]. }
    rewrite !lookup_insert_ne by discriminate. rewrite lookup_insert_eq.
    split; [intros _; split; [exact Hst | eauto] |].
    split; [rewrite Hst; discriminate |].
    intros _ _ ct' [= <-]. fold compressible. rewrite Ebr. auto.
  - (* gzip *)
    assert (compressible = true) as Ec.
    { apply andb_true_iff in Egz as [E _]. now apply andb_true_iff in E as [E _]. }
    rewrite !lookup_insert_ne by discriminate. rewrite lookup_insert_eq.
    split; [intros _; split; [exact Hst | eauto] |].
    split; [rewrite Hst; discriminate |].
    intros _ _ ct' [= <-]. fold compressible. rewrite Ebr, Egz. auto.
  - (* identity *)
    rewrite !lookup_insert_ne by discriminate. rewrite Hnone.
    split; [intros [? ?]; discriminate |].
    split; [rewrite Hst; discriminate |].
    intros _ _ ct' [= <-]. fold compressible. rewrite Ebr, Egz. auto.
Qed.
End ServeContentSpec.

(** An instance of C5 (amended): a matching If-None-Match gives 304, and
    a Vary header that was on the reply is still there. *)
Lemma not_modified_response_witness :
  exists r : response,
    example_serve example_config (header new_reply "Vary" "Origin") example_entry
      (example_request {[ "if-none-match" := "abc" ]}) = Returned r
    /\ status r = 304 /\ body r = NoPayload
    /\ responseHeaders r !! "Vary" = Some "Origin"
    /\ responseHeaders r !! "Content-Length" = None.
Proof.
  destruct (not_modified_response example_getTime example_gzip example_brotli
              example_config (header new_reply "Vary" "Origin") example_entry
              (example_request {[ "if-none-match" := "abc" ]}))
    as (r & Hr & Hs & Hb & Hother & _).
  - left. exists "abc". repeat split. discriminate.
  - exists r. split; [exact Hr |]. split; [exact Hs |]. split; [exact Hb |].
    split; rewrite Hother; try reflexivity;
      intros H; apply list_elem_of_In in H; vm_compute in H; intuition discriminate.
Defined.

(** C5 as stated fails: the 304 response to a matching If-None-Match
    carries the content header Content-Type. *)
Lemma not_modified_carries_content_type :
  headers (example_request {[ "if-none-match" := "abc" ]}) !! "if-none-match"
  = etag (metadata example_entry)
  /\ exists r : response,
       example_serve example_config new_reply example_entry
         (example_request {[ "if-none-match" := "abc" ]}) = Returned r
       /\ status r = 304
       /\ responseHeaders r !! "Content-Type" = Some "text/plain"
       /\ ~ carries_no_content_header r.
Proof.
  split; [reflexivity |].
  eexists. split; [vm_compute; reflexivity |].
  split; [reflexivity |]. split; [reflexivity |].
  intros H. specialize (H "Content-Type" eq_refl). discriminate H.
Qed.

(** An instance of C6 (amended): [bytes=0-3] of a ten-byte entry. *)
Lemma range_response_witness :
  exists r : response,
    example_serve example_config new_reply example_entry
      (example_request {[ "range" := "bytes=0-3" ]}) = Returned r
    /\ status r = 206
    /\ responseHeaders r !! "Content-Range" = Some "bytes 0-3/10"
    /\ responseHeaders r !! "Content-Length" = Some "4"
    /\ body r = BufferPayload [Byte.x30; Byte.x31; Byte.x32; Byte.x33].
Proof.
  destruct (range_response example_getTime example_gzip example_brotli
              example_config example_entry
              (example_request {[ "range" := "bytes=0-3" ]}) 0 3 "3")
    as (r & Hr & Hs & Hcr & _ & Hb & Hin).
  - vm_compute. reflexivity.
  - unfold MAX_SAFE_INTEGER. lia.
  - unfold MAX_SAFE_INTEGER. lia.
  - vm_compute. discriminate.
  - left. vm_compute. reflexivity.
  - vm_compute. reflexivity.
  - destruct Hin as (_ & _ & Hcl); [vm_compute; split; [discriminate | reflexivity] |].
    exists r. repeat split; assumption.
Defined.

(** C6 as stated fails: an end past the entity is not clamped.  For
    [bytes=0-99] on ten bytes Content-Range announces bytes 0-99 of 10, and
    the body has the ten stored bytes, not a hundred. *)
Lemma range_not_clamped :
  exists r : response,
    example_serve example_config new_reply example_entry
      (example_request {[ "range" := "bytes=0-99" ]}) = Returned r
    /\ status r = 206
    /\ responseHeaders r !! "Content-Range" = Some "bytes 0-99/10"
    /\ body r = BufferPayload (content example_entry)
    /\ length (content example_entry) = 10%nat.
Proof.
  eexists. split; [vm_compute; reflexivity |].
  repeat split.
Qed.

(** An instance of C7 (amended): with the defaults, a text entry and
    [Accept-Encoding: br, gzip] give brotli. *)
Lemma compression_negotiation_witness :
  exists r : response,
    example_serve example_config new_reply example_entry
      (example_request {[ "accept-encoding" := "br, gzip" ]}) = Returned r
    /\ responseHeaders r !! "Content-Encoding" = Some "br"
    /\ body r = BufferPayload (example_brotli (content example_entry)).
Proof.
  eexists. split; [vm_compute; reflexivity |].
  refine (proj2 (proj2 (compression_negotiation example_getTime example_gzip
                          example_brotli example_config example_entry
                          (example_request {[ "accept-encoding" := "br, gzip" ]})
                          _ _)) _ _ "text/plain" _).
  - vm_compute. reflexivity.
  - vm_compute. reflexivity.
  - vm_compute. reflexivity.
  - reflexivity.
Defined.

(** C7 as stated fails: with brotli switched off in the configuration, a
    text entry requested with [Accept-Encoding: br, gzip] is sent gzipped,
    although the header allows brotli. *)
Lemma gzip_chosen_when_brotli_disabled :
  includes "br, gzip" "br" = true
  /\ includes "br, gzip" "gzip" = true
  /\ isCompressibleType (contentType (metadata example_entry)) = Returned true
  /\ exists r : response,
       example_serve no_brotli_config new_reply example_entry
         (example_request {[ "accept-encoding" := "br, gzip" ]}) = Returned r
       /\ status r = 200
       /\ responseHeaders r !! "Content-Encoding" = Some "gzip"
       /\ body r = BufferPayload (example_gzip (content example_entry)).
Proof.
  repeat split; try (vm_compute; reflexivity).
  eexists. split; [vm_compute; reflexivity |].
  repeat split.
Qed.

(** ** The request handler *)

Section EdgeSpec.
Variable hmac_sha256_hex : string -> string -> string.
Variable Date_getTime : string -> number.
Variable zlib_gzip : list byte -> list byte.
Variable zlib_brotliCompress : list byte -> list byte.
Variable cfg : config.
Variable org : origin.
Variable clk : clock.

Local Abbreviation cdn :=
  (cdnRoutes hmac_sha256_hex Date_getTime zlib_gzip zlib_brotliCompress cfg org clk).
Local Abbreviation fetch :=
  (fetchFromOrigin Date_getTime zlib_gzip zlib_brotliCompress cfg org clk).
Local Abbreviation serve_entry :=
  (serveContent Date_getTime zlib_gzip zlib_brotliCompress cfg new_reply).

Ltac run_handler :=
  unfold try_catch, axios_get, log, emit, throw, call_setInCache,
    serve, mbind, M_bind, mret, M_ret;
  cbn [memoryCache events].

Ltac solve_events :=
  cbn [events memoryCache]; rewrite <- ?app_assoc; cbn [app];
  first [ reflexivity | apply list_elem_of_In; simpl; tauto ].

(** The metadata request adds its own events only and never throws. *)
Lemma fetchMetadata_outcome (file_id : string) (w : world) :
  exists (fileMetadata : option json) (evs : list event),
    fetchMetadata cfg org file_id w
    = (Returned fileMetadata,
       {| memoryCache := memoryCache w; events := (events w ++ evs)%list |})
    /\ forallb is_fetch_event evs = true
    /\ (metadata_fetch_fails org (metadataUrl cfg file_id) -> fileMetadata = None).
Proof.
  unfold fetchMetadata, metadata_fetch_fails, metadataUrl. run_handler.
  destruct (get_json org (originUrl cfg +:+ "/api/files/" +:+ file_id)) as [|mr].
  - exists None. eexists. split; [| split; [| reflexivity]].
    + f_equal. f_equal. solve_events.
    + reflexivity.
  - destruct (status_2xx (http_status mr)).
    + eexists. eexists. split; [| split; [| discriminate]].
      * reflexivity.
      * reflexivity.
    + exists None. eexists. split; [| split; [| reflexivity]].
      * f_equal. f_equal. solve_events.
      * reflexivity.
Qed.
(** What the miss branch does, by the answer of the origin to the download
    request.  The events it adds are origin requests, log lines and at most
    one store into the cache. *)
Lemma fetchFromOrigin_outcome (req : request) (key : string) (w : world) :
  let file_id := params_file_id req in
  exists (downloadUrl : string) (promise : outcome response) (w' : world)
         (evs : list event),
    fetch req key w = (Returned promise, w')
    /\ events w' = (events w ++ evs)%list
    /\ forallb is_fetch_event evs = true
    /\ AxiosGet downloadUrl ∈ evs
    /\ (metadata_fetch_fails org (metadataUrl cfg file_id) ->
        downloadUrl = directDownloadUrl cfg file_id)
    /\ match get_arraybuffer org downloadUrl with
       | NoResponse =>
           memoryCache w' = memoryCache w
           /\ exists r, promise = Returned r /\ error_response 502 r
       | Response resp =>
           if http_status resp =? 200 then
             exists entry : cacheEntry,
               content entry = http_data resp
               /\ contentType (metadata entry) = http_headers resp !! "content-type"
               /\ etag (metadata entry) = http_headers resp !! "etag"
               /\ lastModified (metadata entry) = http_headers resp !! "last-modified"
               /\ memoryCache w'
                  = setInCache (performance_now clk) key entry (memoryCache w)
               /\ CacheSet key ∈ evs
               /\ promise = serve_entry entry req
           else if http_status resp =? 304 then
             memoryCache w' = memoryCache w
             /\ promise = Returned (send (code new_reply 304) NoPayload)
           else if http_status resp =? 404 then
             memoryCache w' = memoryCache w
             /\ exists r, promise = Returned r /\ error_response 404 r
           else
             memoryCache w' = memoryCache w
             /\ exists r, promise = Returned r /\ error_response 502 r
       end.
Proof.
  intros file_id.
  destruct (fetchMetadata_outcome file_id w) as (fm & evs0 & Hfm & Hev0 & Hfail).
  unfold fetchFromOrigin. fold file_id.
  unfold try_catch at 1. unfold mbind, M_bind at 1. rewrite Hfm.
  unfold downloadAndCache. fold file_id.
  set (dl := match fm with
             | Some (JsonValue id) =>
                 originUrl cfg +:+ "/api/files/" +:+ default "undefined" id +:+ "/download"
             | _ => originUrl cfg +:+ "/api/files/" +:+ file_id +:+ "/download"
             end).
  exists dl.
  assert (metadata_fetch_fails org (metadataUrl cfg file_id) ->
          dl = directDownloadUrl cfg file_id) as Hdirect.
  { intros H. apply Hfail in H. subst fm. reflexivity. }
  run_handler.
  destruct (get_arraybuffer org dl) as [|[st hs data]] eqn:Hdl; cbn [http_status].
  - (* no response *)
    rewrite bool_decide_eq_false_2 by discriminate.
    do 3 eexists. split; [reflexivity |]. cbn [events memoryCache].
    split; [solve_events |]. split; [rewrite forallb_app, Hev0; reflexivity |].
    split; [apply elem_of_app; right; solve_events |]. split; [exact Hdirect |].
    split; [reflexivity |]. eexists. split; [reflexivity |].
    split; [reflexivity | eauto].
  - destruct (Z.eqb_spec st 200) as [-> | H200].
    + (* 200: stored, then served *)
      cbn [orb Z.eqb Pos.eqb http_status http_data http_headers].
      do 3 eexists. split; [reflexivity |]. cbn [events memoryCache].
      split; [solve_events |]. split; [rewrite forallb_app, Hev0; reflexivity |].
      split; [apply elem_of_app; right; solve_events |]. split; [exact Hdirect |].
      eexists. repeat apply conj. all: revgoals.
      all: first [ reflexivity | apply elem_of_app; right; solve_events ].
    + destruct (Z.eqb_spec st 304) as [-> | H304].
      * cbn [orb Z.eqb Pos.eqb http_status].
        do 3 eexists. split; [reflexivity |]. cbn [events memoryCache].
        split; [solve_events |]. split; [rewrite forallb_app, Hev0; reflexivity |].
        split; [apply elem_of_app; right; solve_events |]. split; [exact Hdirect |].
        split; reflexivity.
      * cbn [orb response_status].
        destruct (Z.eqb_spec st 404) as [-> | H404].
        -- rewrite bool_decide_eq_true_2 by reflexivity.
           do 3 eexists. split; [reflexivity |]. cbn [events memoryCache].
           split; [solve_events |]. split; [rewrite forallb_app, Hev0; reflexivity |].
           split; [apply elem_of_app; right; solve_events |]. split; [exact Hdirect |].
           split; [reflexivity |]. eexists. split; [reflexivity |].
           split; [reflexivity | eauto].
        -- rewrite bool_decide_eq_false_2 by congruence.
           do 3 eexists. split; [reflexivity |]. cbn [events memoryCache].
           split; [solve_events |]. split; [rewrite forallb_app, Hev0; reflexivity |].
           split; [apply elem_of_app; right; solve_events |]. split; [exact Hdirect |].
           split; [reflexivity |]. eexists. split; [reflexivity |].
           split; [reflexivity | eauto].
Qed.

(** The first event of the miss branch is the metadata request. *)
Lemma fetchMetadata_first (req : request) (key : string) (w : world) :
  exists evs : list event,
    events (snd (fetch req key w)) = (events w ++ evs)%list
    /\ AxiosGet (metadataUrl cfg (params_file_id req)) ∈ evs.
Proof.
  unfold fetchFromOrigin, fetchMetadata, downloadAndCache, metadataUrl.
  run_handler.
  destruct (get_json org (originUrl cfg +:+ "/api/files/" +:+ params_file_id req))
    as [|mr]; [| destruct (status_2xx (http_status mr))];
    repeat match goal with
      | |- context [match get_arraybuffer org ?u with _ => _ end] =>
          destruct (get_arraybuffer org u) as [|[st hs data]]; cbn [http_status]
      | |- context [if ?c then _ else _] => destruct c
      end;
    cbn [snd events memoryCache];
    eexists; (split; [solve_events | solve_events]).
Qed.

(** The three ways through the handler. *)
Lemma cdnRoutes_rejected (req : request) (w : world) :
  truthy (query_expires req) && truthy (query_signature req) = true ->
  verifySignedUrl hmac_sha256_hex cfg (Date_now clk) (params_file_id req)
    (parseInt (default "" (query_expires req)) None)
    (default "" (query_signature req)) = false ->
  cdn req w
  = (Returned (Returned (send (code new_reply 403)
                           (ErrorPayload "Invalid or expired signature"))),
     {| memoryCache := memoryCache w;
        events := (events w ++ verify_events req)%list |}).
Proof.
  intros Hboth Hbad. unfold cdnRoutes, call_verifySignedUrl, verify_events.
  run_handler. rewrite Hboth. cbn [memoryCache events]. rewrite Hbad. reflexivity.
Qed.

Lemma cdnRoutes_hit (req : request) (w : world) (cached : cacheEntry)
    (mc : memory_cache cacheEntry) :
  let key := generateCacheKey (params_file_id req) None in
  signature_accepted hmac_sha256_hex cfg clk req ->
  getFromCache (performance_now clk) key (memoryCache w) = (Some cached, mc) ->
  cdn req w
  = (Returned (serve_entry cached req),
     {| memoryCache := mc;
        events := (events w ++ verify_events req
                   ++ [CacheGet key; Log "info" ("Cache HIT: " +:+ params_file_id req)])%list |}).
Proof.
  intros key Hacc Hget. unfold signature_accepted in Hacc.
  unfold cdnRoutes, call_verifySignedUrl, call_getFromCache, verify_events.
  run_handler.
  destruct (truthy (query_expires req) && truthy (query_signature req));
    cbn [memoryCache events]; [rewrite (Hacc eq_refl) |];
    cbn [negb memoryCache events]; fold key; rewrite Hget; cbn [memoryCache events];
    f_equal; f_equal; solve_events.
Qed.

Lemma cdnRoutes_miss (req : request) (w : world) (mc : memory_cache cacheEntry) :
  let key := generateCacheKey (params_file_id req) None in
  signature_accepted hmac_sha256_hex cfg clk req ->
  getFromCache (performance_now clk) key (memoryCache w) = (None, mc) ->
  cdn req w
  = fetch req key
      {| memoryCache := mc;
         events := (events w ++ verify_events req
                    ++ [CacheGet key;
                        Log "info" ("Cache MISS: " +:+ params_file_id req)])%list |}.
Proof.
  intros key Hacc Hget. unfold signature_accepted in Hacc.
  set (w1 := {| memoryCache := mc; events := _ |}).
  destruct (fetchFromOrigin_outcome req key w1)
    as (dl & promise & w' & evs & Hfetch & _).
  rewrite Hfetch.
  unfold cdnRoutes, call_verifySignedUrl, call_getFromCache.
  unfold try_catch at 1. unfold mbind, M_bind, mret, M_ret, log, emit.
  unfold verify_events in w1.
  destruct (truthy (query_expires req) && truthy (query_signature req));
    cbn [memoryCache events]; [rewrite (Hacc eq_refl) |];
    cbn [negb memoryCache events]; fold key; rewrite Hget; cbn [memoryCache events].
  - replace {| memoryCache := mc; events := _ |} with w1
      by (unfold w1; f_equal; solve_events).
    now rewrite Hfetch.
  - replace {| memoryCache := mc; events := _ |} with w1
      by (unfold w1; f_equal; solve_events).
    now rewrite Hfetch.
Qed.

(** Whatever [serveContent] sends carries [X-Cache: HIT]. *)
Lemma serveContent_x_cache (entry : cacheEntry) (req : request) (r : response) :
  serve_entry entry req = Returned r -> responseHeaders r !! "X-Cache" = Some "HIT".
Proof.
  unfold serveContent.
  pose proof (cachingHeaders_x_cache (metadata entry)) as Hx.
  destruct (notModified Date_getTime (metadata entry) req).
  { intros [= <-]. exact Hx. }
  destruct (truthy (headers req !! "range")).
  { intros [= <-]. unfold serveRange.
    cbn [responseHeaders send code header replyHeaders].
    rewrite !lookup_insert_ne by discriminate. exact Hx. }
  unfold serveFull. destruct (isCompressibleType _) as [b|e]; [| discriminate].
  repeat match goal with |- context [if ?c then _ else _] => destruct c end;
    intros [= <-]; cbn [responseHeaders send code header replyHeaders];
    rewrite !lookup_insert_ne by discriminate; exact Hx.
Qed.

(** Error responses and the passed-through 304 have other statuses than
    the responses [serveContent] builds for an entity. *)
Lemma error_response_status (c : Z) (r : response) :
  error_response c r -> status r = c.
Proof. now intros [H _]. Qed.

(** C9.  On a cache miss (the signature check, if any, having passed) the
    handler requests the metadata and then a download.  If the metadata
    request fails, the download URL is the one built from the identifier
    the caller supplied.  When the download answers 404 the response is 404
    with an error body; when it gives no answer or another status than
    200, 304 and 404 the response is 502 with an error body; in both cases
    the cache is as the lookup left it.  When it answers 200 the entry made
    of the received bytes and headers is stored under the lookup key (an
    enabled cache returns it to a [get]), and the response is what
    [serveContent] builds from that entry. *)
Theorem origin_fetch_on_miss (req : request) (w : world) :
  let file_id := params_file_id req in
  let key := generateCacheKey file_id None in
  let lookup := getFromCache (performance_now clk) key (memoryCache w) in
  signature_accepted hmac_sha256_hex cfg clk req ->
  fst lookup = None ->
  exists (downloadUrl : string) (promise : outcome response) (w' : world)
         (evs : list event),
    cdn req w = (Returned promise, w')
    /\ events w'
       = (events w ++ verify_events req
          ++ [CacheGet key; Log "info" ("Cache MISS: " +:+ file_id)] ++ evs)%list
    /\ AxiosGet (metadataUrl cfg file_id) ∈ evs
    /\ AxiosGet downloadUrl ∈ evs
    /\ (metadata_fetch_fails org (metadataUrl cfg file_id) ->
        downloadUrl = directDownloadUrl cfg file_id)
    /\ match get_arraybuffer org downloadUrl with
       | NoResponse =>
           memoryCache w' = snd lookup
           /\ exists r, promise = Returned r /\ error_response 502 r
       | Response resp =>
           if http_status resp =? 200 then
             exists entry : cacheEntry,
               content entry = http_data resp
               /\ contentType (metadata entry) = http_headers resp !! "content-type"
               /\ etag (metadata entry) = http_headers resp !! "etag"
               /\ lastModified (metadata entry) = http_headers resp !! "last-modified"
               /\ memoryCache w'
                  = setInCache (performance_now clk) key entry (snd lookup)
               /\ (forall c : LRUCache.t cacheEntry,
                     snd lookup = Some c -> 0 <= LRUCache.ttl c ->
                     fst (getFromCache (performance_now clk) key (memoryCache w'))
                     = Some entry)
               /\ CacheSet key ∈ evs
               /\ promise = serve_entry entry req
           else if http_status resp =? 304 then
             memoryCache w' = snd lookup
             /\ promise = Returned (send (code new_reply 304) NoPayload)
           else if http_status resp =? 404 then
             memoryCache w' = snd lookup
             /\ exists r, promise = Returned r /\ error_response 404 r
           else
             memoryCache w' = snd lookup
             /\ exists r, promise = Returned r /\ error_response 502 r
       end.
Proof.
  intros file_id key lookup Hacc Hmiss.
  destruct lookup as [cached mc] eqn:Hget. cbn [fst snd] in *. subst cached.
  rewrite (cdnRoutes_miss req w mc Hacc Hget). fold key.
  set (w1 := {| memoryCache := mc; events := _ |}).
  destruct (fetchFromOrigin_outcome req key w1)
    as (dl & promise & w' & evs & Hfetch & Hev & _ & Hdl & Hdirect & Hcase).
  destruct (fetchMetadata_first req key w1)
    as (evs' & Hfetch' & Hmeta).
  exists dl, promise, w', evs. split; [exact Hfetch |].
  split; [rewrite Hev; unfold w1; cbn [events]; now rewrite <- !app_assoc |].
  split.
  { rewrite Hfetch in Hfetch'. cbn [snd] in Hfetch'. rewrite Hev in Hfetch'.
    apply app_inv_head in Hfetch'. now subst evs'. }
  split; [exact Hdl |]. split; [exact Hdirect |].
  destruct (get_arraybuffer org dl) as [|resp]; [exact Hcase |].
  destruct (http_status resp =? 200); [| exact Hcase].
  destruct Hcase as (entry & H1 & H2 & H3 & H4 & Hmc & H5 & H6).
  exists entry. unfold w1 in Hmc. cbn [memoryCache] in Hmc.
  repeat (split; [assumption |]).
  split; [| split; assumption].
  intros c -> Httl. rewrite Hmc. cbn [setInCache getFromCache].
  pose proof (get_after_set (performance_now clk) key entry c Httl) as Hget'.
  destruct (LRUCache.get _ _ _) as [v c']. exact Hget'.
Qed.

(** C8, as the code has it.  A response with status 200 or 206 that the
    handler assembles after a cache miss, that is after requests to the
    origin in the same request, carries [X-Cache: HIT]. *)
Theorem x_cache_hit_after_origin_fetch (req : request) (w w' : world)
    (r : response) :
  let key := generateCacheKey (params_file_id req) None in
  signature_accepted hmac_sha256_hex cfg clk req ->
  fst (getFromCache (performance_now clk) key (memoryCache w)) = None ->
  cdn req w = (Returned (Returned r), w') ->
  status r = 200 \/ status r = 206 ->
  responseHeaders r !! "X-Cache" = Some "HIT"
  /\ exists (url : string) (evs : list event),
       events w' = (events w ++ evs)%list /\ AxiosGet url ∈ evs.
Proof.
  intros key Hacc Hmiss Hrun Hstatus.
  destruct (getFromCache (performance_now clk) key (memoryCache w))
    as [cached mc] eqn:Hget. cbn [fst] in Hmiss. subst cached.
  rewrite (cdnRoutes_miss req w mc Hacc Hget) in Hrun. fold key in Hrun.
  set (w1 := {| memoryCache := mc; events := _ |}) in Hrun.
  destruct (fetchFromOrigin_outcome req key w1)
    as (dl & promise & w2 & evs & Hfetch & Hev & _ & Hdl & _ & Hcase).
  rewrite Hfetch in Hrun. injection Hrun as -> ->.
  split.
  - destruct (get_arraybuffer org dl) as [|resp].
    + destruct Hcase as (_ & r' & [= <-] & Hr%error_response_status). lia.
    + destruct (http_status resp =? 200).
      * destruct Hcase as (entry & _ & _ & _ & _ & _ & _ & Hserve).
        symmetry in Hserve. now apply serveContent_x_cache in Hserve.
      * destruct (http_status resp =? 304).
        -- destruct Hcase as (_ & [= ->]). cbn in Hstatus. lia.
        -- destruct (http_status resp =? 404);
             destruct Hcase as (_ & r' & [= <-] & Hr%error_response_status); lia.
  - exists dl. eexists. split.
    + rewrite Hev. unfold w1. cbn [events]. rewrite <- !app_assoc. reflexivity.
    + apply elem_of_app. right. apply elem_of_app. right. exact Hdl.
Qed.

(** On a hit the response [serveContent] builds carries the header too. *)
Lemma x_cache_hit_on_hit (req : request) (w w' : world) (cached : cacheEntry)
    (r : response) :
  let key := generateCacheKey (params_file_id req) None in
  signature_accepted hmac_sha256_hex cfg clk req ->
  fst (getFromCache (performance_now clk) key (memoryCache w)) = Some cached ->
  cdn req w = (Returned (Returned r), w') ->
  responseHeaders r !! "X-Cache" = Some "HIT"
  /\ forall url : string, AxiosGet url ∈ events w' -> AxiosGet url ∈ events w.
Proof.
  intros key Hacc Hhit Hrun.
  destruct (getFromCache (performance_now clk) key (memoryCache w))
    as [c mc] eqn:Hget. cbn [fst] in Hhit. subst c.
  rewrite (cdnRoutes_hit req w cached mc Hacc Hget) in Hrun.
  injection Hrun as Hserve <-. split.
  - now apply serveContent_x_cache in Hserve.
  - cbn [events]. intros url Hin. unfold verify_events in Hin.
    apply elem_of_app in Hin as [Hin | Hin]; [exact Hin |].
    destruct (truthy (query_expires req) && truthy (query_signature req));
      apply list_elem_of_In in Hin; simpl in Hin; intuition discriminate.
Qed.

(** C10.  When [expires] or [signature] is missing or empty, the handler
    does exactly what it does for the same request without the two
    parameters, and it does not call [verifySignedUrl]; when both are
    present and non-empty it calls [verifySignedUrl] on the identifier,
    [parseInt(expires)] and the signature. *)
Theorem signature_checked_only_when_both_present (req : request) (w : world) :
  (truthy (query_expires req) && truthy (query_signature req) = false ->
   cdn req w = cdn (as_public req) w
   /\ forall ev : event,
        is_verify_event ev = true -> ev ∈ events (snd (cdn req w)) -> ev ∈ events w)
  /\
  (truthy (query_expires req) && truthy (query_signature req) = true ->
   VerifySignedUrl (params_file_id req)
     (parseInt (default "" (query_expires req)) None)
     (default "" (query_signature req)) ∈ events (snd (cdn req w))).
Proof.
  set (key := generateCacheKey (params_file_id req) None).
  destruct (getFromCache (performance_now clk) key (memoryCache w))
    as [cached mc] eqn:Hget.
  split; intros Hboth.
  - assert (signature_accepted hmac_sha256_hex cfg clk req) as Hacc.
    { unfold signature_accepted. rewrite Hboth. discriminate. }
    split.
    + unfold cdnRoutes. cbn [as_public query_expires query_signature truthy andb].
      rewrite Hboth. reflexivity.
    + intros ev Hev Hin. destruct cached as [c|].
      * rewrite (cdnRoutes_hit req w c mc Hacc Hget) in Hin. cbn [snd events] in Hin.
        unfold verify_events in Hin. rewrite Hboth in Hin.
        apply elem_of_app in Hin as [Hin | Hin]; [exact Hin |].
        apply list_elem_of_In in Hin. simpl in Hin.
        destruct Hin as [<- | [<- | []]]; discriminate.
      * rewrite (cdnRoutes_miss req w mc Hacc Hget) in Hin. fold key in Hin.
        set (w1 := {| memoryCache := mc; events := _ |}) in Hin.
        destruct (fetchFromOrigin_outcome req key w1)
          as (dl & promise & w2 & evs & Hfetch & Hevs & Hall & _).
        rewrite Hfetch in Hin. cbn [snd] in Hin. rewrite Hevs in Hin.
        unfold w1, verify_events in Hin. rewrite Hboth in Hin. cbn [events] in Hin.
        apply elem_of_app in Hin as [Hin | Hin].
        -- apply elem_of_app in Hin as [Hin | Hin]; [exact Hin |].
           apply list_elem_of_In in Hin. simpl in Hin.
           destruct Hin as [<- | [<- | []]]; discriminate.
        -- rewrite forallb_forall in Hall. apply list_elem_of_In in Hin.
           apply Hall in Hin. destruct ev; discriminate.
  - set (call := VerifySignedUrl _ _ _).
    assert (call ∈ verify_events req) as Hcall.
    { unfold verify_events. rewrite Hboth. apply list_elem_of_here. }
    destruct (verifySignedUrl hmac_sha256_hex cfg (Date_now clk) (params_file_id req)
                (parseInt (default "" (query_expires req)) None)
                (default "" (query_signature req))) eqn:Hverify.
    + assert (signature_accepted hmac_sha256_hex cfg clk req) as Hacc
        by (intros _; exact Hverify).
      destruct cached as [c|].
      * rewrite (cdnRoutes_hit req w c mc Hacc Hget). cbn [snd events].
        rewrite !elem_of_app. auto.
      * rewrite (cdnRoutes_miss req w mc Hacc Hget). fold key.
        set (w1 := {| memoryCache := mc; events := _ |}).
        destruct (fetchFromOrigin_outcome req key w1)
          as (dl & promise & w2 & evs & Hfetch & Hevs & _).
        rewrite Hfetch. cbn [snd]. rewrite Hevs. unfold w1. cbn [events].
        rewrite !elem_of_app. auto.
    + rewrite (cdnRoutes_rejected req w Hboth Hverify). cbn [snd events].
      rewrite elem_of_app. auto.
Qed.
End EdgeSpec.

(** An instance of C9: the first request for the file misses, asks the
    origin for the metadata and the download, stores the entry and serves
    it. *)
Lemma origin_fetch_on_miss_witness :
  exists (promise : outcome response) (w' : world),
    example_cdn (example_origin old_content) (example_request ∅)
      (initial_world example_config) = (Returned promise, w')
    /\ events w'
       = [CacheGet "abc123:v1"; Log "info" "Cache MISS: abc123";
          AxiosGet "http://localhost:3000/api/files/abc123";
          AxiosGet "http://localhost:3000/api/files/abc123/download";
          CacheSet "abc123:v1"]
    /\ cache_keys (memoryCache w') = ["abc123:v1"].
Proof.
  destruct (origin_fetch_on_miss example_hmac example_getTime example_gzip
              example_brotli example_config (example_origin old_content)
              example_clock (example_request ∅) (initial_world example_config))
    as (dl & promise & w' & evs & Hrun & _).
  - intros H. discriminate H.
  - reflexivity.
  - pose proof Hrun as Hrun'. vm_compute in Hrun'. injection Hrun' as _ Hw.
    exists promise, w'. split; [exact Hrun |].
    rewrite <- Hw. split; reflexivity.
Defined.

(** An instance of C8 as the code has it: the response to the very first
    request for a file, fetched from the origin, says [X-Cache: HIT]. *)
Lemma x_cache_hit_after_origin_fetch_witness :
  exists (r : response) (w' : world),
    example_cdn (example_origin old_content) (example_request ∅)
      (initial_world example_config) = (Returned (Returned r), w')
    /\ Log "info" "Cache MISS: abc123" ∈ events w'
    /\ AxiosGet "http://localhost:3000/api/files/abc123/download" ∈ events w'
    /\ status r = 200
    /\ body r = BufferPayload old_content
    /\ responseHeaders r !! "X-Cache" = Some "HIT".
Proof.
  eexists. eexists. split; [vm_compute; reflexivity |].
  split; [apply list_elem_of_In; simpl; tauto |].
  split; [apply list_elem_of_In; simpl; tauto |].
  split; [reflexivity |]. split; [reflexivity |].
  refine (proj1 (x_cache_hit_after_origin_fetch example_hmac example_getTime
                   example_gzip example_brotli example_config
                   (example_origin old_content) example_clock
                   (example_request ∅) (initial_world example_config) _ _ _ _ _ _)).
  - intros H. discriminate H.
  - reflexivity.
  - vm_compute. reflexivity.
  - left. reflexivity.
Defined.

(** ** Purge and the cache key *)

(** The key of the lookup never depends on a version: the handler calls
    [generateCacheKey] with the identifier alone. *)
Lemma generateCacheKey_default (file_id : string) :
  generateCacheKey file_id None = file_id +:+ ":v1".
Proof. reflexivity. Qed.

(** C1, as the code has it.  The file is cached at the edge and then
    purged at the origin, which sets its version to 2.  If the notification
    does not reach the edge, the next request looks up [abc123:v1] again,
    hits, and serves the old bytes without asking the origin; the key of
    version 2 is never looked up.  If the notification reaches the edge,
    the entry is deleted and the next request is a miss, again under
    [abc123:v1], and the new bytes are stored under that same key. *)
Theorem lookup_key_ignores_purged_version :
  let req := example_request ∅ in
  let w1 := snd (example_cdn (example_origin old_content) req
                   (initial_world example_config)) in
  let sys := {| db := example_db; edge_world := w1 |} in
  let lost := adminPurge 1700000001000 false "abc123" sys in
  let after_lost := example_cdn (example_origin new_content) req
                      (edge_world (snd lost)) in
  let delivered := adminPurge 1700000001000 true "abc123" sys in
  let after_delivered := example_cdn (example_origin new_content) req
                           (edge_world (snd delivered)) in
  fst lost = PurgeDone "abc123" 2
  /\ version <$> (db (snd lost) !! "abc123") = Some 2
  /\ generateCacheKey "abc123" (Some (Num 2)) = "abc123:v2"
  /\ events (snd after_lost)
     = (events w1 ++ [CacheGet "abc123:v1"; Log "info" "Cache HIT: abc123"])%list
  /\ (CacheGet "abc123:v2" ∉ events (snd after_lost))
  /\ (exists r : response,
        fst after_lost = Returned (Returned r)
        /\ status r = 200 /\ body r = BufferPayload old_content)
  /\ events (snd after_delivered)
     = (events w1
        ++ [CacheDelete "abc123:v1"; CacheGet "abc123:v1";
            Log "info" "Cache MISS: abc123";
            AxiosGet "http://localhost:3000/api/files/abc123";
            AxiosGet "http://localhost:3000/api/files/abc123/download";
            CacheSet "abc123:v1"])%list
  /\ (CacheGet "abc123:v2" ∉ events (snd after_delivered))
  /\ cache_keys (memoryCache (snd after_delivered)) = ["abc123:v1"].
Proof.
  intros req w1 sys lost after_lost delivered after_delivered.
  assert (forall l : list event,
            (forall e, In e l -> e <> CacheGet "abc123:v2") ->
            CacheGet "abc123:v2" ∉ l) as Hnot.
  { intros l H Hin. apply list_elem_of_In in Hin. exact (H _ Hin eq_refl). }
  repeat split; try (vm_compute; reflexivity).
  - apply Hnot. vm_compute. intros e H.
    repeat (destruct H as [<- | H]; [discriminate |]). destruct H.
  - eexists. split; [vm_compute; reflexivity |]. split; reflexivity.
  - apply Hnot. vm_compute. intros e H.
    repeat (destruct H as [<- | H]; [discriminate |]). destruct H.
Qed.

(* ===================================================================== *)
(** * Part III: further properties of the code *)
(* ===================================================================== *)

(** ** Signed links through the handler *)

(** [parseInt] without a radix reads a decimal rendering back too: it
    never starts with a hexadecimal prefix. *)
Lemma parseInt_no_radix_number_to_string (x : number) :
  parseInt (number_to_string x) None = x.
Proof.
  rewrite <- (parseInt_number_to_string x) at 2.
  destruct x as [z|]; [| reflexivity].
  assert (forall n, 0 <= n ->
            strip_hex_prefix (decimal n) = None) as Hhex.
  { intros n Hn. pose proof (decimal_forall n Hn) as Hall.
    destruct (decimal n) as [|c [|c' s]]; [reflexivity | |].
    { unfold strip_hex_prefix.
      destruct c as [[] [] [] [] [] [] [] []]; reflexivity. }
    cbn [string_forall] in Hall.
    apply andb_true_iff in Hall as [_ Hall].
    apply andb_true_iff in Hall as [Hc' _].
    destruct (is_digit_not_special c' Hc') as (_ & _ & _ & Hx & HX & _).
    unfold strip_hex_prefix.
    destruct c as [[] [] [] [] [] [] [] []]; try reflexivity;
      destruct c' as [[] [] [] [] [] [] [] []]; try reflexivity; congruence. }
  unfold number_to_string. destruct (z <? 0) eqn:E.
  - apply Z.ltb_lt in E. unfold parseInt.
    change ("-" +:+ decimal (- z)) with (String "-" (decimal (- z))).
    cbn [skip_whitespace]. change (is_whitespace "-") with false. cbv iota.
    cbn [strip_sign default from_option]. unfold id.
    rewrite Hhex by lia. reflexivity.
  - apply Z.ltb_ge in E. unfold parseInt.
    destruct (decimal_head z E) as (c & s & Ed & Hc).
    destruct (is_digit_not_special c Hc) as (Hw & Hm & Hpl & _).
    pose proof (Hhex z E) as Hz. rewrite Ed in *.
    cbn [skip_whitespace]. rewrite Hw.
    assert (strip_sign (String c s) = (1, String c s)) as ->.
    { unfold strip_sign. destruct c as [[] [] [] [] [] [] [] []]; try reflexivity;
        congruence. }
    cbn [default from_option]. unfold id. rewrite Hz. reflexivity.
Qed.

Section EdgeMore.
Variable hmac_sha256_hex : string -> string -> string.
Variable Date_getTime : string -> number.
Variable zlib_gzip : list byte -> list byte.
Variable zlib_brotliCompress : list byte -> list byte.
Variable cfg : config.
Variable org : origin.

Local Abbreviation cdn_at :=
  (cdnRoutes hmac_sha256_hex Date_getTime zlib_gzip zlib_brotliCompress cfg org).
Local Abbreviation fetch_at :=
  (fetchFromOrigin Date_getTime zlib_gzip zlib_brotliCompress cfg org).
Local Abbreviation serve_new :=
  (serveContent Date_getTime zlib_gzip zlib_brotliCompress cfg new_reply).

(** An accepted request looks its key up, right after the signature check
    if there is one. *)
Lemma cdnRoutes_accepted_events (clk : clock) (req : request) (w : world) :
  signature_accepted hmac_sha256_hex cfg clk req ->
  exists evs : list event,
    events (snd (cdn_at clk req w))
    = (events w ++ verify_events req
       ++ CacheGet (generateCacheKey (params_file_id req) None) :: evs)%list.
Proof.
  intros Hacc. set (key := generateCacheKey (params_file_id req) None).
  destruct (getFromCache (performance_now clk) key (memoryCache w))
    as [[c|] mc] eqn:Hget.
  - rewrite (cdnRoutes_hit _ _ _ _ _ _ _ req w c mc Hacc Hget). cbn [snd events].
    eexists. reflexivity.
  - rewrite (cdnRoutes_miss _ _ _ _ _ _ _ req w mc Hacc Hget). fold key.
    set (w1 := {| memoryCache := mc; events := _ |}).
    destruct (fetchFromOrigin_outcome hmac_sha256_hex Date_getTime zlib_gzip
                zlib_brotliCompress cfg org clk req key w1)
      as (dl & promise & w2 & evs & Hfetch & Hevs & _).
    rewrite Hfetch. cbn [snd]. rewrite Hevs. unfold w1. cbn [events].
    eexists. rewrite <- !app_assoc. cbn [app]. reflexivity.
Qed.

(** A link made by [generateSignedUrl] at a time value, for a lifetime
    that is a safe integer as is the expiry second it gives: the query
    string of its [url] holds the [expires] and [signature] of the request
    that presents it; that request passes the handler's check at every
    reading of the clock up to the expiry second, and the handler goes on
    to the cache lookup; after that second the answer is 403 with an error
    body, and neither the cache nor the origin is touched. *)
Theorem signed_link_until_expiry (issued : Z) (fileId : string)
    (expiresIn : option Z) (hs : gmap string string) (clk : clock) (w : world) :
  let lifetime := default (signedUrlExpiry (security cfg)) expiresIn in
  let expiry := issued / 1000 + lifetime in
  time_value issued -> safe_integer lifetime -> safe_integer expiry ->
  time_value (Date_now clk) ->
  let s := generateSignedUrl hmac_sha256_hex cfg issued fileId expiresIn in
  let req := signed_request s hs in
  su_url s = "/cdn/" +:+ params_file_id req
             +:+ "?expires=" +:+ default "" (query_expires req)
             +:+ "&signature=" +:+ default "" (query_signature req)
  /\
  (Date_now clk / 1000 <= expiry ->
   exists evs : list event,
     events (snd (cdn_at clk req w))
     = (events w ++ verify_events req
        ++ CacheGet (generateCacheKey fileId None) :: evs)%list)
  /\
  (su_signature s <> "" -> expiry < Date_now clk / 1000 ->
   exists r : response,
     cdn_at clk req w
     = (Returned (Returned r),
        {| memoryCache := memoryCache w;
           events := (events w
                      ++ [VerifySignedUrl fileId (Num expiry) (su_signature s)])%list |})
     /\ error_response 403 r).
Proof.
  intros lifetime expiry _ _ _ _ s req.
  assert (parseInt (default "" (query_expires req)) None = Num expiry) as Hparse.
  { cbn [req signed_request query_expires default from_option]. unfold id.
    apply parseInt_no_radix_number_to_string. }
  assert (truthy (query_expires req) = true) as Hexp.
  { cbn [req signed_request query_expires truthy].
    apply negb_true_iff, String.eqb_neq. intros H.
    apply (f_equal (fun t => parseInt t None)) in H.
    change (number_to_string (su_expires s)) with (number_to_string (Num expiry)) in H.
    rewrite parseInt_no_radix_number_to_string in H. discriminate H. }
  split; [reflexivity |].
  split.
  - intros Hlive.
    apply (cdnRoutes_accepted_events clk req w).
    unfold signature_accepted. intros _. rewrite Hparse.
    rewrite verifySignedUrl_unfold.
    cbn [req signed_request query_signature params_file_id default from_option js_gt].
    unfold id.
    destruct (expiry <? Date_now clk / 1000) eqn:E; [apply Z.ltb_lt in E; lia |].
    cbn [negb andb]. apply String.eqb_eq. reflexivity.
  - intros Hsig Hlate.
    assert (truthy (query_expires req) && truthy (query_signature req) = true)
      as Hboth.
    { rewrite Hexp. cbn [req signed_request query_signature truthy andb].
      apply negb_true_iff, String.eqb_neq. exact Hsig. }
    eexists. split.
    + rewrite (cdnRoutes_rejected _ _ _ _ _ _ _ req w Hboth).
      * unfold verify_events. rewrite Hboth, Hparse. reflexivity.
      * rewrite Hparse, verifySignedUrl_unfold. cbn [js_gt].
        destruct (expiry <? Date_now clk / 1000) eqn:E;
          [reflexivity | apply Z.ltb_ge in E; lia].
    + split; [reflexivity | eauto].
Qed.
End EdgeMore.

(** ** Response assembly: statuses, lengths and malformed ranges *)

Lemma cachingHeaders_other (md : entry_metadata) (name : string) :
  name ∉ ["Content-Type"; "Cache-Control"; "X-Cache"; "ETag"; "Last-Modified"] ->
  replyHeaders (cachingHeaders new_reply md) !! name = None.
Proof.
  intros Hn. rewrite cachingHeaders_lookup.
  repeat case_decide; subst; try reflexivity;
    exfalso; apply Hn; apply list_elem_of_In; simpl; tauto.
Qed.

Ltac other_header :=
  apply cachingHeaders_other; intros Hin; apply list_elem_of_In in Hin;
  simpl in Hin; intuition discriminate.

(** A slice that starts at or after its end, or past the buffer, is empty. *)
Lemma buffer_slice_empty (buf : list byte) (s e : Z) :
  0 <= s -> 0 <= e -> e <= s \/ Z.of_nat (length buf) <= s ->
  buffer_slice buf (Num s) (Num e) = [].
Proof.
  intros Hs He Hcase. unfold buffer_slice, adjustOffset.
  set (n := Z.of_nat (length buf)) in *.
  assert (0 <= n) as Hn by (unfold n; lia).
  set (s' := if s =? 0 then 0 else _).
  set (e' := if e =? 0 then 0 else _).
  assert (e' <= s') as Hle.
  { unfold s', e'.
    destruct (Z.eqb_spec s 0); destruct (Z.eqb_spec e 0);
      repeat match goal with
        | |- context [?a <? ?b] => destruct (Z.ltb_spec a b)
        end; lia. }
  destruct (Z.ltb_spec s' e'); [lia | reflexivity].
Qed.

(** A slice from an undefined start is a prefix of the buffer. *)
Lemma buffer_slice_NaN_start (buf : list byte) (e : Z) :
  0 < e ->
  buffer_slice buf NaN (Num e)
  = take (Z.to_nat (Z.min e (Z.of_nat (length buf)))) buf.
Proof.
  intros He. unfold buffer_slice, adjustOffset.
  set (n := Z.of_nat (length buf)) in *.
  assert (0 <= n) as Hn by (unfold n; lia).
  destruct (Z.eqb_spec e 0); [lia |]. destruct (Z.ltb_spec e 0); [lia |].
  destruct (Z.ltb_spec e n).
  - rewrite Z.min_l by lia. destruct (Z.ltb_spec 0 e); [| lia].
    now rewrite Z.sub_0_r.
  - rewrite Z.min_r by lia. destruct (Z.ltb_spec 0 n).
    + now rewrite Z.sub_0_r.
    + assert (n = 0) as -> by lia. reflexivity.
Qed.

Section ServeMore.
Variable Date_getTime : string -> number.
Variable zlib_gzip : list byte -> list byte.
Variable zlib_brotliCompress : list byte -> list byte.
Variable cfg : config.

Local Abbreviation serve_fresh :=
  (serveContent Date_getTime zlib_gzip zlib_brotliCompress cfg new_reply).

(** What the range branch sends for [bytes=start-end] in decimal. *)
Lemma serveRange_decimal (md : entry_metadata) (content : list byte)
    (start end_ : Z) :
  0 <= start -> 0 <= end_ ->
  let n := Z.of_nat (length content) in
  let r := serveRange (cachingHeaders new_reply md) content
             ("bytes=" +:+ decimal start +:+ "-" +:+ decimal end_) in
  status r = 206
  /\ responseHeaders r !! "Content-Range"
     = Some ("bytes " +:+ decimal start +:+ "-" +:+ decimal end_ +:+ "/" +:+ decimal n)
  /\ responseHeaders r !! "Content-Length"
     = Some (number_to_string (Num (end_ - start + 1)))
  /\ body r = BufferPayload (buffer_slice content (Num start) (Num (end_ + 1))).
Proof.
  intros Hs He n r. subst r. unfold serveRange.
  rewrite replace_first_bytes.
  change (decimal start +:+ "-" +:+ decimal end_)
    with (decimal start +:+ String "-" (decimal end_)).
  rewrite split_app_sep by now apply decimal_no_dash.
  rewrite split_no_sep by now apply decimal_no_dash.
  cbn [lookup list_lookup default from_option]. unfold id.
  rewrite decimal_nonempty by exact He.
  rewrite !parseInt_decimal by assumption. fold n.
  cbn [status responseHeaders body send code header replyHeaders statusCode
       js_add js_sub].
  split; [reflexivity |]. split.
  { rewrite !lookup_insert_ne by discriminate. rewrite lookup_insert_eq.
    rewrite !number_to_string_nonneg by lia. reflexivity. }
  split; [now rewrite lookup_insert_eq | reflexivity].
Qed.

(** A range that cannot be satisfied is not refused: for
    [bytes=start-end], the numbers being safe integers, with [start] at or
    past the end of the entity, or past [end], the answer is still 206,
    Content-Range echoes the numbers and the body is empty. *)
Theorem unsatisfiable_range_gives_empty_206 (entry : cacheEntry) (req : request)
    (start end_ : Z) :
  let n := Z.of_nat (length (content entry)) in
  notModified Date_getTime (metadata entry) req = false ->
  headers req !! "range" = Some ("bytes=" +:+ decimal start +:+ "-" +:+ decimal end_) ->
  0 <= start <= MAX_SAFE_INTEGER -> 0 <= end_ <= MAX_SAFE_INTEGER ->
  n <= MAX_SAFE_INTEGER ->
  n <= start \/ end_ < start ->
  exists r : response,
    serve_fresh entry req = Returned r
    /\ status r = 206
    /\ responseHeaders r !! "Content-Range"
       = Some ("bytes " +:+ decimal start +:+ "-" +:+ decimal end_ +:+ "/" +:+ decimal n)
    /\ body r = BufferPayload [].
Proof.
  intros n Hnm Hrange [Hs _] [He _] _ Hcase.
  eexists. split.
  { apply serveContent_range; [exact Hnm | exact Hrange | discriminate]. }
  destruct (serveRange_decimal (metadata entry) (content entry) start end_ Hs He)
    as (H1 & H2 & _ & H4).
  repeat (split; [assumption |]).
  rewrite H4. f_equal. apply buffer_slice_empty; [exact Hs | lia |].
  fold n. lia.
Qed.

(** The suffix form [bytes=-k], [k] a safe integer, is not read as the
    last [k] bytes: the start is not a number, Content-Range says so, and
    the body is the first [k + 1] bytes of the entity (all of it when it
    is shorter). *)
Theorem suffix_range_gives_prefix (entry : cacheEntry) (req : request) (k : Z) :
  let n := Z.of_nat (length (content entry)) in
  notModified Date_getTime (metadata entry) req = false ->
  headers req !! "range" = Some ("bytes=-" +:+ decimal k) ->
  0 <= k <= MAX_SAFE_INTEGER -> n <= MAX_SAFE_INTEGER ->
  exists r : response,
    serve_fresh entry req = Returned r
    /\ status r = 206
    /\ responseHeaders r !! "Content-Range"
       = Some ("bytes NaN-" +:+ decimal k +:+ "/" +:+ decimal n)
    /\ body r = BufferPayload (take (Z.to_nat (Z.min (k + 1) n)) (content entry)).
Proof.
  intros n Hnm Hrange [Hk _] _.
  eexists. split.
  { apply serveContent_range; [exact Hnm | exact Hrange | discriminate]. }
  unfold serveRange.
  change ("bytes=-" +:+ decimal k) with ("bytes=" +:+ String "-" (decimal k)).
  rewrite replace_first_bytes.
  change (String "-" (decimal k)) with ("" +:+ String "-" (decimal k)).
  rewrite split_app_sep by reflexivity.
  rewrite split_no_sep by now apply decimal_no_dash.
  cbn [lookup list_lookup default from_option]. unfold id.
  rewrite decimal_nonempty by exact Hk.
  rewrite (parseInt_decimal k Hk).
  change (parseInt "" (Some 10)) with NaN. fold n.
  cbn [status responseHeaders body send code header replyHeaders statusCode
       js_add js_sub].
  split; [reflexivity |]. split.
  { rewrite !lookup_insert_ne by discriminate. rewrite lookup_insert_eq.
    rewrite !number_to_string_nonneg by lia. reflexivity. }
  f_equal. apply buffer_slice_NaN_start. lia.
Qed.

Lemma serveContent_Thrown_iff (entry : cacheEntry) (req : request) :
  (exists e : error, serve_fresh entry req = Thrown e)
  <-> contentType (metadata entry) = None
      /\ notModified Date_getTime (metadata entry) req = false
      /\ truthy (headers req !! "range") = false.
Proof.
  unfold serveContent.
  destruct (notModified Date_getTime (metadata entry) req).
  { split; [intros [e H]; discriminate | intros (_ & H & _); discriminate]. }
  destruct (truthy (headers req !! "range")).
  { split; [intros [e H]; discriminate | intros (_ & _ & H); discriminate]. }
  unfold serveFull. destruct (contentType (metadata entry)) as [ct|].
  - cbn [isCompressibleType].
    split; [| intros (H & _); discriminate].
    intros [e H].
    repeat match type of H with
      | context [if ?c then _ else _] => destruct c
      end; discriminate.
  - cbn [isCompressibleType]. split; [auto | eauto].
Qed.

(** The promise [serveContent] returns is rejected in one situation only:
    the entry has no content type and the request is answered neither 304
    nor as a range.  The conditional and the range branch never look at
    the content type. *)
Theorem serveContent_rejected_iff (entry : cacheEntry) (req : request) :
  (exists e : error, serve_fresh entry req = Thrown e)
  <-> contentType (metadata entry) = None
      /\ notModified Date_getTime (metadata entry) req = false
      /\ truthy (headers req !! "range") = false.
Proof. exact (serveContent_Thrown_iff entry req). Qed.

(** A 200 response announces the length of the body it carries, whether
    the body is the stored bytes or their compressed form; it has no
    Content-Range, and it has [Vary: Accept-Encoding] exactly when it has a
    Content-Encoding. *)
Theorem full_response_length_matches_body (entry : cacheEntry) (req : request)
    (r : response) :
  serve_fresh entry req = Returned r ->
  status r = 200 ->
  exists b : list byte,
    body r = BufferPayload b
    /\ responseHeaders r !! "Content-Length"
       = Some (decimal (Z.of_nat (length b)))
    /\ responseHeaders r !! "Content-Range" = None
    /\ (is_Some (responseHeaders r !! "Content-Encoding")
        <-> responseHeaders r !! "Vary" = Some "Accept-Encoding").
Proof.
  unfold serveContent.
  pose proof (cachingHeaders_status (metadata entry)) as Hst.
  assert (replyHeaders (cachingHeaders new_reply (metadata entry)) !! "Content-Range"
          = None) as Hcr by other_header.
  assert (replyHeaders (cachingHeaders new_reply (metadata entry)) !! "Vary" = None)
    as Hv by other_header.
  pose proof (cachingHeaders_no_encoding (metadata entry)) as Hce.
  destruct (notModified Date_getTime (metadata entry) req).
  { intros [= <-]. cbn. discriminate. }
  destruct (truthy (headers req !! "range")).
  { intros [= <-]. cbn. discriminate. }
  unfold serveFull. destruct (isCompressibleType _) as [c|e]; [| discriminate].
  repeat match goal with
    | |- context [if ?c then _ else _] => destruct c
    end;
    intros [= <-] _; eexists;
    cbn [status responseHeaders body send code header replyHeaders statusCode];
    (split; [reflexivity |]);
    rewrite ?lookup_insert_eq, ?(lookup_insert_ne _ "Vary" "Content-Length"),
      ?(lookup_insert_ne _ "Vary" "Content-Range"),
      ?(lookup_insert_ne _ "Vary" "Content-Encoding"),
      ?(lookup_insert_ne _ "Content-Length" "Content-Range"),
      ?(lookup_insert_ne _ "Content-Length" "Content-Encoding"),
      ?(lookup_insert_ne _ "Content-Length" "Vary"),
      ?(lookup_insert_ne _ "Content-Encoding" "Content-Range"),
      ?lookup_insert_eq, ?Hcr, ?Hv, ?Hce by discriminate;
    rewrite ?number_to_string_nonneg, ?(proj2 (Z.ltb_ge _ 0)) by lia;
    (split; [reflexivity |]); (split; [reflexivity |]);
    (split; intros H;
       first [reflexivity | solve [eauto] | discriminate H
             | destruct H as [? H]; discriminate H]).
Qed.

(** A 304 is sent only for a matching validator: the If-None-Match of the
    request is non-empty and equal to the entry's ETag, or both
    If-Modified-Since and the entry's Last-Modified parse to times, the
    former not before the latter.  A date that does not parse never gives
    a 304. *)
Theorem not_modified_only_for_matching_validator (entry : cacheEntry)
    (req : request) (r : response) :
  serve_fresh entry req = Returned r ->
  status r = 304 ->
  body r = NoPayload
  /\ ((exists tag : string,
         tag <> "" /\ headers req !! "if-none-match" = Some tag
         /\ etag (metadata entry) = Some tag)
      \/
      (exists (since modified : string) (t1 t2 : Z),
         headers req !! "if-modified-since" = Some since
         /\ lastModified (metadata entry) = Some modified
         /\ Date_getTime since = Num t1 /\ Date_getTime modified = Num t2
         /\ t2 <= t1)).
Proof.
  unfold serveContent.
  pose proof (cachingHeaders_status (metadata entry)) as Hst.
  destruct (notModified Date_getTime (metadata entry) req) eqn:Hnm.
  - intros [= <-] _. split; [reflexivity |].
    unfold notModified in Hnm. apply orb_true_iff in Hnm as [H | H].
    + left. apply andb_true_iff in H as [H Heq].
      apply andb_true_iff in H as [Hinm _].
      apply bool_decide_eq_true in Heq.
      apply truthy_Some in Hinm as (tag & Htag & Hne).
      exists tag. rewrite <- Heq. auto.
    + right. apply andb_true_iff in H as [H Hle].
      apply andb_true_iff in H as [Hims Hlm].
      apply truthy_Some in Hims as (since & Hs & _).
      apply truthy_Some in Hlm as (modified & Hm & _).
      rewrite Hs, Hm in Hle. cbn [default from_option] in Hle. unfold id in Hle.
      destruct (Date_getTime modified) as [t2|] eqn:E2; [| discriminate].
      destruct (Date_getTime since) as [t1|] eqn:E1; [| discriminate].
      exists since, modified, t1, t2. cbn [js_le] in Hle. apply Z.leb_le in Hle.
      auto 10.
  - destruct (truthy (headers req !! "range")).
    { intros [= <-]. cbn. discriminate. }
    unfold serveFull. destruct (isCompressibleType _) as [c|e]; [| discriminate].
    repeat match goal with
      | |- context [if ?c then _ else _] => destruct c
      end; intros [= <-]; cbn [status send header statusCode]; rewrite Hst;
      discriminate.
Qed.
End ServeMore.

(** ** The handler and the cache together *)

Section CacheMore.
Context {V : Type}.
Implicit Types (l : list (string * (V * Z))) (c : LRUCache.t V).

Lemma find_remove_ne (k k' : string) l :
  k <> k' -> LRUCache.find k' (LRUCache.remove k l) = LRUCache.find k' l.
Proof.
  intros Hne. induction l as [|[k0 e0] l IH]; simpl; [reflexivity |].
  destruct (String.eqb_spec k k0) as [<- | Hk0].
  - rewrite IH. destruct (String.eqb_spec k' k) as [-> | _]; [congruence | reflexivity].
  - simpl. now rewrite IH.
Qed.

Lemma set_ttl (now : Z) (k : string) (v : V) c :
  LRUCache.ttl (LRUCache.set now k v c) = LRUCache.ttl c.
Proof.
  unfold LRUCache.set. destruct (LRUCache.find k (LRUCache.items c)); reflexivity.
Qed.

Lemma find_after_set (now : Z) (k : string) (v : V) c :
  LRUCache.find k (LRUCache.items (LRUCache.set now k v c)) = Some (v, now).
Proof.
  unfold LRUCache.set.
  destruct (LRUCache.find k (LRUCache.items c)) eqn:E;
    cbn [LRUCache.items LRUCache.with_items].
  - apply find_snoc, find_remove_None.
  - apply find_snoc. destruct (LRUCache.max c <=? LRUCache.size c);
      [now apply find_tail_None | exact E].
Qed.

(** A [get] after a [set] of the same key, at a later reading of the
    clock: the value while the age is within the TTL, nothing after. *)
Lemma get_after_set_later (now now' : Z) (k : string) (v : V) c :
  fst (LRUCache.get now' k (LRUCache.set now k v c))
  = if LRUCache.isStale c now' now then None else Some v.
Proof.
  unfold LRUCache.get. rewrite find_after_set.
  unfold LRUCache.isStale at 1. rewrite set_ttl. fold (LRUCache.isStale c now' now).
  destruct (LRUCache.isStale c now' now); reflexivity.
Qed.

Lemma get_after_delete (now : Z) (k : string) c :
  fst (LRUCache.get now k (LRUCache.delete k c)) = None.
Proof.
  unfold LRUCache.get, LRUCache.delete. cbn [LRUCache.items LRUCache.with_items].
  now rewrite find_remove_None.
Qed.

Lemma get_after_delete_ne (now : Z) (k k' : string) c :
  k <> k' ->
  fst (LRUCache.get now k' (LRUCache.delete k c)) = fst (LRUCache.get now k' c).
Proof.
  intros Hne. unfold LRUCache.get, LRUCache.delete.
  cbn [LRUCache.items LRUCache.with_items]. rewrite find_remove_ne by exact Hne.
  destruct (LRUCache.find k' (LRUCache.items c)) as [[v start]|]; [| reflexivity].
  unfold LRUCache.isStale. cbn [LRUCache.ttl LRUCache.with_items].
  destruct (_ && _); reflexivity.
Qed.
End CacheMore.

Section HandlerMore.
Variable hmac_sha256_hex : string -> string -> string.
Variable Date_getTime : string -> number.
Variable zlib_gzip : list byte -> list byte.
Variable zlib_brotliCompress : list byte -> list byte.
Variable cfg : config.
Variable org : origin.

Local Abbreviation handler :=
  (cdnRoutes hmac_sha256_hex Date_getTime zlib_gzip zlib_brotliCompress cfg org).
Local Abbreviation from_origin :=
  (fetchFromOrigin Date_getTime zlib_gzip zlib_brotliCompress cfg org).
Local Abbreviation serve_cached :=
  (serveContent Date_getTime zlib_gzip zlib_brotliCompress cfg new_reply).
Local Abbreviation accepted := (signature_accepted hmac_sha256_hex cfg).

Ltac run_miss :=
  unfold fetchFromOrigin, fetchMetadata, downloadAndCache, metadataUrl,
    try_catch, axios_get, log, emit, throw, call_setInCache,
    serve, mbind, M_bind, mret, M_ret;
  cbn [memoryCache events].

Ltac split_origin :=
  repeat match goal with
    | |- context [match get_json org ?u with _ => _ end] =>
        destruct (get_json org u) as [|[? ? []]];
        cbn [http_status http_data http_headers]
    | |- context [match get_arraybuffer org ?u with _ => _ end] =>
        destruct (get_arraybuffer org u) as [|[? ? ?]];
        cbn [http_status http_data http_headers]
    | |- context [if ?c then _ else _] => destruct c
    end.

(** The miss branch begins with the metadata request. *)
Lemma fetchFromOrigin_events_head (clk : clock) (req : request) (key : string)
    (w : world) :
  exists evs : list event,
    events (snd (from_origin clk req key w))
    = (events w ++ AxiosGet (metadataUrl cfg (params_file_id req)) :: evs)%list.
Proof.
  run_miss. split_origin; cbn [snd events memoryCache];
    eexists; rewrite <- ?app_assoc; cbn [app]; reflexivity.
Qed.

(** What the miss branch answers depends on the request and the origin,
    not on the cache or the log. *)
Lemma fetchFromOrigin_promise_indep (clk clk' : clock) (req : request)
    (key key' : string) (w w' : world) :
  fst (from_origin clk req key w) = fst (from_origin clk' req key' w').
Proof.
  run_miss. split_origin; reflexivity.
Qed.

(** With the memory cache disabled every accepted request is a miss that
    asks the origin, and nothing is ever stored. *)
Theorem disabled_cache_goes_to_origin (clk : clock) (req : request) (w : world) :
  memoryCache w = None ->
  accepted clk req ->
  let file_id := params_file_id req in
  let w' := snd (handler clk req w) in
  memoryCache w' = None
  /\ exists evs : list event,
       events w'
       = (events w ++ verify_events req
          ++ [CacheGet (generateCacheKey file_id None);
              Log "info" ("Cache MISS: " +:+ file_id);
              AxiosGet (metadataUrl cfg file_id)] ++ evs)%list.
Proof.
  intros Hoff Hacc file_id.
  set (key := generateCacheKey file_id None).
  assert (getFromCache (performance_now clk) key (memoryCache w) = (None, None))
    as Hget by (rewrite Hoff; reflexivity).
  rewrite (cdnRoutes_miss _ _ _ _ _ _ _ req w None Hacc Hget). fold file_id key.
  set (w1 := {| memoryCache := None; events := _ |}).
  cbv zeta. split.
  - destruct (fetchFromOrigin_outcome hmac_sha256_hex Date_getTime zlib_gzip
                zlib_brotliCompress cfg org clk req key w1)
      as (dl & promise & w2 & evs & Hfetch & _ & _ & _ & _ & Hcase).
    rewrite Hfetch. cbn [snd].
    destruct (get_arraybuffer org dl) as [|resp]; [exact (proj1 Hcase) |].
    destruct (http_status resp =? 200).
    { destruct Hcase as (entry & _ & _ & _ & _ & Hmc & _). rewrite Hmc. reflexivity. }
    destruct (http_status resp =? 304); [exact (proj1 Hcase) |].
    destruct (http_status resp =? 404); exact (proj1 Hcase).
  - destruct (fetchFromOrigin_events_head clk req key w1) as [evs Hevs].
    exists evs. rewrite Hevs. unfold w1. cbn [events].
    rewrite <- !app_assoc. reflexivity.
Qed.

Lemma accepted_or_rejected (clk : clock) (req : request) :
  accepted clk req
  \/ (truthy (query_expires req) && truthy (query_signature req) = true
      /\ verifySignedUrl hmac_sha256_hex cfg (Date_now clk) (params_file_id req)
           (parseInt (default "" (query_expires req)) None)
           (default "" (query_signature req)) = false).
Proof.
  unfold signature_accepted.
  destruct (truthy (query_expires req) && truthy (query_signature req));
    [| left; discriminate].
  destruct (verifySignedUrl _ _ _ _ _ _); [left | right]; auto.
Qed.

Lemma serveContent_statuses (entry : cacheEntry) (req : request) (r : response) :
  serve_cached entry req = Returned r -> status r ∈ [200; 206; 304].
Proof.
  unfold serveContent.
  pose proof (cachingHeaders_status (metadata entry)) as Hst.
  destruct (notModified Date_getTime (metadata entry) req).
  { intros [= <-]. cbn. apply list_elem_of_In; simpl; tauto. }
  destruct (truthy (headers req !! "range")).
  { intros [= <-]. cbn. apply list_elem_of_In; simpl; tauto. }
  unfold serveFull. destruct (isCompressibleType _) as [c|e]; [| discriminate].
  repeat match goal with
    | |- context [if ?c then _ else _] => destruct c
    end; intros [= <-]; cbn [status send header statusCode]; rewrite Hst;
    apply list_elem_of_In; simpl; tauto.
Qed.

(** The handler itself never throws, and what it sends has one of six
    status codes: 200, 206 or 304 from a cache entry, 403 for a refused
    signature, 404 and 502 for a failed origin fetch.  It never sends 416,
    whatever the Range header, and its own 500 is never reached. *)
Theorem handler_status_codes (clk : clock) (req : request) (w : world) :
  exists promise : outcome response,
    fst (handler clk req w) = Returned promise
    /\ forall r : response,
         promise = Returned r -> status r ∈ [200; 206; 304; 403; 404; 502].
Proof.
  destruct (accepted_or_rejected clk req) as [Hacc | [Hboth Hbad]].
  2: { rewrite (cdnRoutes_rejected _ _ _ _ _ _ _ req w Hboth Hbad). cbn [fst].
       eexists. split; [reflexivity |]. intros r [= <-]. cbn.
       apply list_elem_of_In; simpl; tauto. }
  set (key := generateCacheKey (params_file_id req) None).
  destruct (getFromCache (performance_now clk) key (memoryCache w))
    as [[c|] mc] eqn:Hget.
  - rewrite (cdnRoutes_hit _ _ _ _ _ _ _ req w c mc Hacc Hget). cbn [fst].
    eexists. split; [reflexivity |]. intros r Hr.
    apply serveContent_statuses in Hr. apply list_elem_of_In in Hr.
    apply list_elem_of_In. simpl in *. tauto.
  - rewrite (cdnRoutes_miss _ _ _ _ _ _ _ req w mc Hacc Hget). fold key.
    set (w1 := {| memoryCache := mc; events := _ |}).
    destruct (fetchFromOrigin_outcome hmac_sha256_hex Date_getTime zlib_gzip
                zlib_brotliCompress cfg org clk req key w1)
      as (dl & promise & w2 & evs & Hfetch & _ & _ & _ & _ & Hcase).
    rewrite Hfetch. cbn [fst]. exists promise. split; [reflexivity |].
    intros r ->.
    assert (forall code, code ∈ [404; 502] ->
              (exists r', Returned r = Returned r' /\ error_response code r') ->
              status r ∈ [200; 206; 304; 403; 404; 502]) as Herr.
    { intros code Hc (r' & [= <-] & Hst & _). rewrite Hst.
      apply list_elem_of_In in Hc. apply list_elem_of_In. simpl in *. tauto. }
    destruct (get_arraybuffer org dl) as [|resp].
    { apply (Herr 502); [apply list_elem_of_In; simpl; tauto | exact (proj2 Hcase)]. }
    destruct (http_status resp =? 200).
    { destruct Hcase as (entry & _ & _ & _ & _ & _ & _ & Hp). symmetry in Hp.
      apply serveContent_statuses in Hp. apply list_elem_of_In in Hp.
      apply list_elem_of_In. simpl in *. tauto. }
    destruct (http_status resp =? 304).
    { destruct Hcase as [_ [= ->]]. cbn. apply list_elem_of_In; simpl; tauto. }
    destruct (http_status resp =? 404).
    { apply (Herr 404); [apply list_elem_of_In; simpl; tauto | exact (proj2 Hcase)]. }
    apply (Herr 502); [apply list_elem_of_In; simpl; tauto | exact (proj2 Hcase)].
Qed.

(** A download the origin answers with 200 but without a Content-Type is
    stored in the cache all the same, and the promise of the request that
    stored it is rejected; so is that of every later hit on the entry that
    carries neither a Range nor a validator. *)
Theorem untyped_download_is_cached_then_rejected (clk : clock) (req : request)
    (w : world) (mc : memory_cache cacheEntry) (resp : http_response (list byte)) :
  let key := generateCacheKey (params_file_id req) None in
  accepted clk req ->
  getFromCache (performance_now clk) key (memoryCache w) = (None, mc) ->
  headers req !! "range" = None ->
  headers req !! "if-none-match" = None ->
  headers req !! "if-modified-since" = None ->
  (forall url : string, get_arraybuffer org url = Response resp) ->
  http_status resp = 200 ->
  http_headers resp !! "content-type" = None ->
  exists (e : error) (entry : cacheEntry),
    fst (handler clk req w) = Returned (Thrown e)
    /\ content entry = http_data resp
    /\ memoryCache (snd (handler clk req w))
       = setInCache (performance_now clk) key entry mc
    /\ forall (clk' : clock) (w' : world) (mc' : memory_cache cacheEntry),
         accepted clk' req ->
         getFromCache (performance_now clk') key (memoryCache w') = (Some entry, mc') ->
         fst (handler clk' req w') = Returned (Thrown e).
Proof.
  intros key Hacc Hget Hrange Hinm Hims Hdl H200 Hct.
  rewrite (cdnRoutes_miss _ _ _ _ _ _ _ req w mc Hacc Hget). fold key.
  set (w1 := {| memoryCache := mc; events := _ |}).
  destruct (fetchFromOrigin_outcome hmac_sha256_hex Date_getTime zlib_gzip
              zlib_brotliCompress cfg org clk req key w1)
    as (dl & promise & w2 & evs & Hfetch & _ & _ & _ & _ & Hcase).
  rewrite Hfetch. cbn [fst snd]. rewrite Hdl, H200 in Hcase. cbn [Z.eqb Pos.eqb] in Hcase.
  destruct Hcase as (entry & Hcontent & Hctype & _ & _ & Hmc & _ & ->).
  rewrite Hct in Hctype.
  assert (exists e, serve_cached entry req = Thrown e) as [e He].
  { apply serveContent_Thrown_iff. split; [exact Hctype |].
    unfold notModified. rewrite Hrange, Hinm, Hims. split; reflexivity. }
  exists e, entry. split; [now rewrite He |]. split; [exact Hcontent |].
  split; [exact Hmc |].
  intros clk' w' mc' Hacc' Hget'.
  rewrite (cdnRoutes_hit _ _ _ _ _ _ _ req w' entry mc' Hacc' Hget'). cbn [fst].
  now rewrite He.
Qed.

Lemma getFromCache_after_set (now now' : Z) (key : string) (entry : cacheEntry)
    (c : LRUCache.t cacheEntry) :
  fst (getFromCache now' key (setInCache now key entry (Some c)))
  = if LRUCache.isStale c now' now then None else Some entry.
Proof.
  cbn [setInCache getFromCache].
  rewrite <- (get_after_set_later now now' key entry c).
  destruct (LRUCache.get now' key (LRUCache.set now key entry c)). reflexivity.
Qed.

Lemma getFromCache_ttl (now : Z) (key : string) (c c' : LRUCache.t cacheEntry)
    (v : option cacheEntry) :
  getFromCache now key (Some c) = (v, Some c') -> LRUCache.ttl c' = LRUCache.ttl c.
Proof.
  cbn [getFromCache]. unfold LRUCache.get.
  destruct (LRUCache.find key (LRUCache.items c)) as [[e start]|];
    [destruct (LRUCache.isStale c now start) |]; intros [= _ <-]; reflexivity.
Qed.

(** A request answered from the origin with a 200 download, then repeated:
    the repeat gets the same answer; while the age of the entry is within
    the TTL it is a hit that does not ask the origin, after that it is a
    miss that asks the origin again. *)
Theorem repeated_request_is_served_from_cache (clk clk' : clock) (req : request)
    (w : world) (c : LRUCache.t cacheEntry) :
  let file_id := params_file_id req in
  let key := generateCacheKey file_id None in
  let first := handler clk req w in
  let second := handler clk' req (snd first) in
  memoryCache w = Some c ->
  accepted clk req -> accepted clk' req ->
  fst (LRUCache.get (performance_now clk) key c) = None ->
  (forall url : string, exists resp : http_response (list byte),
      get_arraybuffer org url = Response resp /\ http_status resp = 200) ->
  fst second = fst first
  /\ if LRUCache.isStale c (performance_now clk') (performance_now clk)
     then exists evs : list event,
            events (snd second)
            = (events (snd first) ++ verify_events req
               ++ [CacheGet key; Log "info" ("Cache MISS: " +:+ file_id);
                   AxiosGet (metadataUrl cfg file_id)] ++ evs)%list
     else events (snd second)
          = (events (snd first) ++ verify_events req
             ++ [CacheGet key; Log "info" ("Cache HIT: " +:+ file_id)])%list.
Proof.
  intros file_id key first second Hon Hacc Hacc' Hmiss Hdl.
  destruct (getFromCache (performance_now clk) key (memoryCache w)) as [v mc] eqn:Hget.
  assert (v = None /\ exists c1, mc = Some c1 /\ LRUCache.ttl c1 = LRUCache.ttl c)
    as (-> & c1 & -> & Httl).
  { rewrite Hon in Hget. pose proof Hget as Hget0. cbn [getFromCache] in Hget.
    destruct (LRUCache.get (performance_now clk) key c) as [v0 c1] eqn:E.
    cbn [fst] in Hmiss. injection Hget as <- <-. split; [exact Hmiss |].
    exists c1. split; [reflexivity |]. exact (getFromCache_ttl _ _ _ _ _ Hget0). }
  assert (first
          = from_origin clk req key
              {| memoryCache := Some c1;
                 events := (events w ++ verify_events req
                            ++ [CacheGet key;
                                Log "info" ("Cache MISS: " +:+ file_id)])%list |})
    as Hfirst by exact (cdnRoutes_miss _ _ _ _ _ _ _ req w (Some c1) Hacc Hget).
  set (w1 := {| memoryCache := Some c1; events := _ |}) in Hfirst.
  destruct (fetchFromOrigin_outcome hmac_sha256_hex Date_getTime zlib_gzip
              zlib_brotliCompress cfg org clk req key w1)
    as (dl & promise & w2 & evs & Hfetch & _ & _ & _ & _ & Hcase).
  destruct (Hdl dl) as (resp & Hresp & H200). rewrite Hresp, H200 in Hcase.
  cbn [Z.eqb Pos.eqb] in Hcase.
  destruct Hcase as (entry & _ & _ & _ & _ & Hmc & _ & Hpromise).
  rewrite Hfetch in Hfirst. unfold second. rewrite Hfirst. cbn [fst snd].
  assert (LRUCache.isStale c (performance_now clk') (performance_now clk)
          = LRUCache.isStale c1 (performance_now clk') (performance_now clk)) as Hstale
    by (unfold LRUCache.isStale; now rewrite Httl).
  rewrite Hstale.
  pose proof (getFromCache_after_set (performance_now clk) (performance_now clk')
                key entry c1) as Hagain.
  unfold w1 in Hmc. cbn [memoryCache] in Hmc. rewrite <- Hmc in Hagain.
  destruct (getFromCache (performance_now clk') key (memoryCache w2)) as [v2 mc2] eqn:Hget2.
  cbn [fst] in Hagain. subst v2.
  destruct (LRUCache.isStale c1 (performance_now clk') (performance_now clk)).
  - rewrite (cdnRoutes_miss _ _ _ _ _ _ _ req w2 mc2 Hacc' Hget2). fold file_id key.
    set (w3 := {| memoryCache := mc2; events := _ |}).
    split.
    + rewrite (fetchFromOrigin_promise_indep clk' clk req key key w3 w1), Hfetch.
      reflexivity.
    + destruct (fetchFromOrigin_events_head clk' req key w3) as [evs3 Hevs3].
      exists evs3. rewrite Hevs3. unfold w3. cbn [events].
      rewrite <- !app_assoc. reflexivity.
  - rewrite (cdnRoutes_hit _ _ _ _ _ _ _ req w2 entry mc2 Hacc' Hget2).
    cbn [fst snd events]. split; [now rewrite Hpromise | reflexivity].
Qed.

(** After the purge of a file, or of the whole cache, the next accepted
    request for it is a miss that asks the origin. *)
Theorem purged_file_is_fetched_again (clk : clock) (req : request) (w : world) :
  let file_id := params_file_id req in
  let key := generateCacheKey file_id None in
  accepted clk req ->
  (exists evs : list event,
     events (snd (handler clk req (snd (purgeRoute file_id w))))
     = (events w ++ [CacheDelete key] ++ verify_events req
        ++ [CacheGet key; Log "info" ("Cache MISS: " +:+ file_id);
            AxiosGet (metadataUrl cfg file_id)] ++ evs)%list)
  /\
  (exists evs : list event,
     events (snd (handler clk req (snd (purgeAllRoute w))))
     = (events w ++ [CacheClear] ++ verify_events req
        ++ [CacheGet key; Log "info" ("Cache MISS: " +:+ file_id);
            AxiosGet (metadataUrl cfg file_id)] ++ evs)%list).
Proof.
  intros file_id key Hacc.
  assert (forall w1 : world,
            fst (getFromCache (performance_now clk) key (memoryCache w1)) = None ->
            exists evs : list event,
              events (snd (handler clk req w1))
              = (events w1 ++ verify_events req
                 ++ [CacheGet key; Log "info" ("Cache MISS: " +:+ file_id);
                     AxiosGet (metadataUrl cfg file_id)] ++ evs)%list) as Hmiss.
  { intros w1 Hnone.
    destruct (getFromCache (performance_now clk) key (memoryCache w1))
      as [v mc] eqn:Hget. cbn [fst] in Hnone. subst v.
    rewrite (cdnRoutes_miss _ _ _ _ _ _ _ req w1 mc Hacc Hget). fold file_id key.
    set (w2 := {| memoryCache := mc; events := _ |}).
    destruct (fetchFromOrigin_events_head clk req key w2) as [evs Hevs].
    exists evs. rewrite Hevs. unfold w2. cbn [events].
    rewrite <- !app_assoc. reflexivity. }
  split.
  - destruct (Hmiss (snd (purgeRoute file_id w))) as [evs Hevs].
    + unfold purgeRoute, call_deleteFromCache. cbn [snd memoryCache]. fold key.
      destruct (memoryCache w) as [c|]; [| reflexivity].
      cbn [deleteFromCache getFromCache].
      pose proof (get_after_delete (performance_now clk) key c) as H.
      destruct (LRUCache.get _ _ _). exact H.
    + exists evs. rewrite Hevs. unfold purgeRoute, call_deleteFromCache.
      cbn [snd events]. fold key. rewrite <- !app_assoc. reflexivity.
  - destruct (Hmiss (snd (purgeAllRoute w))) as [evs Hevs].
    + unfold purgeAllRoute, call_clearCache. cbn [snd memoryCache].
      destruct (memoryCache w) as [c|]; reflexivity.
    + exists evs. rewrite Hevs. unfold purgeAllRoute, call_clearCache.
      cbn [snd events]. rewrite <- !app_assoc. reflexivity.
Qed.

(** The purge of one file does not change the answer to a request for
    another. *)
Theorem purge_leaves_other_files (clk : clock) (req : request) (w : world)
    (file_id : string) :
  file_id <> params_file_id req ->
  fst (handler clk req (snd (purgeRoute file_id w))) = fst (handler clk req w).
Proof.
  intros Hne.
  set (w1 := snd (purgeRoute file_id w)).
  destruct (accepted_or_rejected clk req) as [Hacc | [Hboth Hbad]].
  2: { now rewrite !(cdnRoutes_rejected _ _ _ _ _ _ _ req _ Hboth Hbad). }
  set (key := generateCacheKey (params_file_id req) None).
  assert (generateCacheKey file_id None <> key) as Hkey.
  { unfold key. rewrite !generateCacheKey_default. intros H.
    apply Hne. exact (string_app_inv_tail _ _ _ H). }
  assert (fst (getFromCache (performance_now clk) key (memoryCache w1))
          = fst (getFromCache (performance_now clk) key (memoryCache w))) as Hsame.
  { unfold w1, purgeRoute, call_deleteFromCache. cbn [snd memoryCache].
    destruct (memoryCache w) as [c|]; [| reflexivity].
    cbn [deleteFromCache getFromCache].
    pose proof (get_after_delete_ne (performance_now clk) _ key c Hkey) as H.
    do 2 destruct (LRUCache.get _ _ _). exact H. }
  destruct (getFromCache (performance_now clk) key (memoryCache w1))
    as [v1 mc1] eqn:Hget1.
  destruct (getFromCache (performance_now clk) key (memoryCache w))
    as [v mc] eqn:Hget.
  cbn [fst] in Hsame. subst v1. destruct v as [entry|].
  - rewrite (cdnRoutes_hit _ _ _ _ _ _ _ req w1 entry mc1 Hacc Hget1).
    rewrite (cdnRoutes_hit _ _ _ _ _ _ _ req w entry mc Hacc Hget). reflexivity.
  - rewrite (cdnRoutes_miss _ _ _ _ _ _ _ req w1 mc1 Hacc Hget1).
    rewrite (cdnRoutes_miss _ _ _ _ _ _ _ req w mc Hacc Hget).
    apply fetchFromOrigin_promise_indep.
Qed.

(** When the metadata request succeeds, the download goes to the
    identifier the metadata names, not to the one requested: those are the
    first two events of the miss branch, and a metadata body without an
    [id] sends the download to [.../undefined/download]. *)
Theorem download_follows_metadata_id (clk : clock) (req : request) (key : string)
    (w : world) (metaResponse : http_response json) (id : option string) :
  let file_id := params_file_id req in
  get_json org (metadataUrl cfg file_id) = Response metaResponse ->
  status_2xx (http_status metaResponse) = true ->
  http_data metaResponse = JsonValue id ->
  exists evs : list event,
    events (snd (from_origin clk req key w))
    = (events w
       ++ [AxiosGet (metadataUrl cfg file_id);
           AxiosGet (originUrl cfg +:+ "/api/files/" +:+ default "undefined" id
                     +:+ "/download")] ++ evs)%list.
Proof.
  intros file_id Hmeta H2xx Hid. unfold metadataUrl in Hmeta.
  run_miss. fold file_id. rewrite Hmeta, H2xx. cbn [events memoryCache].
  rewrite Hid.
  split_origin; cbn [snd events memoryCache];
    eexists; rewrite <- ?app_assoc; cbn [app]; reflexivity.
Qed.
End HandlerMore.

(** ** Cache keys *)

Lemma is_digit_no_colon (c : ascii) : is_digit c = true -> no_colon c = true.
Proof.
  intros H. unfold no_colon. apply negb_true_iff, Ascii.eqb_neq.
  intros ->. vm_compute in H. discriminate.
Qed.

Lemma number_to_string_no_colon (x : number) :
  string_forall no_colon (number_to_string x) = true.
Proof.
  destruct x as [z|]; [| vm_compute; reflexivity].
  unfold number_to_string. destruct (z <? 0) eqn:E.
  - apply Z.ltb_lt in E. rewrite string_forall_app. apply andb_true_iff. split.
    + vm_compute. reflexivity.
    + apply (string_forall_impl is_digit); [exact is_digit_no_colon |].
      apply decimal_forall. lia.
  - apply Z.ltb_ge in E.
    apply (string_forall_impl is_digit); [exact is_digit_no_colon |].
    now apply decimal_forall.
Qed.

Lemma no_colon_not_app (s a b : string) :
  string_forall no_colon s = true -> s <> a +:+ String ":" b.
Proof.
  intros H ->. rewrite string_forall_app in H. apply andb_true_iff in H as [_ H].
  cbn [string_forall] in H. apply andb_true_iff in H as [H _].
  vm_compute in H. discriminate.
Qed.

Lemma key_suffix_unique (a b s t : string) :
  string_forall no_colon s = true -> string_forall no_colon t = true ->
  a +:+ ":v" +:+ s = b +:+ ":v" +:+ t -> a = b /\ s = t.
Proof.
  intros Hs Ht. revert b.
  assert (forall u, string_forall no_colon u = true ->
                    string_forall no_colon ("v" +:+ u) = true) as Hv.
  { intros u Hu. rewrite string_app_cons, string_app_nil_l. cbn [string_forall].
    rewrite Hu. reflexivity. }
  induction a as [|x a IH]; intros [|y b] H.
  - split; [reflexivity |]. exact (string_app_inv_head ":v" _ _ H).
  - exfalso. rewrite string_app_nil_l, !string_app_cons in H.
    injection H as _ H. rewrite string_app_nil_l in H.
    apply (no_colon_not_app ("v" +:+ s) b ("v" +:+ t)); [now apply Hv |].
    rewrite string_app_cons, string_app_nil_l. exact H.
  - exfalso. rewrite string_app_nil_l, !string_app_cons in H.
    injection H as _ H. rewrite string_app_nil_l in H.
    apply (no_colon_not_app ("v" +:+ t) a ("v" +:+ s)); [now apply Hv |].
    rewrite string_app_cons, string_app_nil_l. symmetry. exact H.
  - rewrite !string_app_cons in H. injection H as -> H.
    destruct (IH b H) as [-> ->]. split; reflexivity.
Qed.

(** Two calls of [generateCacheKey] give the same key only for the same
    name and the same version, an omitted version counting as 1: no two
    files, and no two versions of a file, share a key. *)
Theorem generateCacheKey_injective (filename1 filename2 : string)
    (version1 version2 : option number) :
  generateCacheKey filename1 version1 = generateCacheKey filename2 version2 ->
  filename1 = filename2
  /\ default (Num 1) version1 = default (Num 1) version2.
Proof.
  unfold generateCacheKey. intros H.
  apply key_suffix_unique in H as [Hf Hv];
    try apply number_to_string_no_colon.
  split; [exact Hf |]. exact (number_to_string_inj _ _ Hv).
Qed.

(** ** The API-key check of the admin routes *)

Lemma map_chars_app (f : ascii -> ascii) (a b : string) :
  map_chars f (a +:+ b) = map_chars f a +:+ map_chars f b.
Proof.
  induction a as [|x a IH]; [reflexivity |].
  rewrite string_app_cons. cbn [map_chars]. rewrite string_app_cons, IH. reflexivity.
Qed.

Lemma map_chars_length (f : ascii -> ascii) (a : string) :
  String.length (map_chars f a) = String.length a.
Proof. induction a as [|x a IH]; [reflexivity |]. cbn. now rewrite IH. Qed.

Lemma startsWith_app (a b : string) : startsWith (a +:+ b) a = true.
Proof.
  unfold startsWith. induction a as [|x a IH]; [destruct b; reflexivity |].
  rewrite string_app_cons. cbn [String.prefix].
  destruct (ascii_dec x x) as [_ | Hx]; [exact IH | congruence].
Qed.

Lemma slice_from_app (a b : string) : slice_from (String.length a) (a +:+ b) = b.
Proof.
  induction a as [|x a IH]; [reflexivity |]. rewrite string_app_cons. exact IH.
Qed.

Lemma skip_whitespace_app_l (ws s : string) :
  string_forall is_whitespace ws = true ->
  skip_whitespace (ws +:+ s) = skip_whitespace s.
Proof.
  induction ws as [|c ws IH]; [reflexivity |]. cbn [string_forall]. intros H.
  apply andb_true_iff in H as [Hc Hws]. rewrite string_app_cons.
  cbn [skip_whitespace]. rewrite Hc. now apply IH.
Qed.

Lemma trimEnd_whitespace (ws : string) :
  string_forall is_whitespace ws = true -> trimEnd ws = "".
Proof.
  induction ws as [|c ws IH]; [reflexivity |]. cbn [string_forall]. intros H.
  apply andb_true_iff in H as [Hc Hws]. cbn [trimEnd]. rewrite (IH Hws), Hc.
  reflexivity.
Qed.

Lemma trimEnd_app_r (s ws : string) :
  string_forall is_whitespace ws = true -> trimEnd (s +:+ ws) = trimEnd s.
Proof.
  intros Hws. induction s as [|c s IH].
  - rewrite string_app_nil_l. now apply trimEnd_whitespace.
  - rewrite string_app_cons. cbn [trimEnd]. now rewrite IH.
Qed.

Lemma skip_whitespace_length (s : string) :
  (String.length (skip_whitespace s) <= String.length s)%nat.
Proof.
  induction s as [|c s IH]; [reflexivity |]. cbn [skip_whitespace].
  destruct (is_whitespace c); cbn [String.length]; lia.
Qed.

Lemma trimEnd_length (s : string) :
  (String.length (trimEnd s) <= String.length s)%nat.
Proof.
  induction s as [|c s IH]; [reflexivity |]. cbn [trimEnd].
  destruct (is_whitespace c && _); cbn [String.length]; lia.
Qed.

(** A string that [trim] leaves alone has no white space at either end. *)
Lemma trim_fixed (k : string) :
  trim k = k -> skip_whitespace k = k /\ trimEnd k = k.
Proof.
  unfold trim. intros H.
  assert (skip_whitespace k = k) as Hskip.
  { destruct k as [|c k]; [reflexivity |]. cbn [skip_whitespace] in *.
    destruct (is_whitespace c); [| reflexivity]. exfalso.
    apply (f_equal String.length) in H. cbn [String.length] in H.
    pose proof (trimEnd_length (skip_whitespace k)).
    pose proof (skip_whitespace_length k). lia. }
  split; [exact Hskip |]. now rewrite Hskip in H.
Qed.

Lemma trim_padded (ws1 k ws2 : string) :
  string_forall is_whitespace ws1 = true ->
  string_forall is_whitespace ws2 = true ->
  trim k = k ->
  trim (ws1 +:+ k +:+ ws2) = k.
Proof.
  intros H1 H2 Hk. destruct (trim_fixed k Hk) as [Hskip Hend].
  unfold trim. rewrite skip_whitespace_app_l by exact H1.
  destruct k as [|c k].
  - rewrite string_app_nil_l.
    assert (skip_whitespace ws2 = "") as ->; [| reflexivity].
    clear -H2. induction ws2 as [|c ws IH]; [reflexivity |].
    cbn [string_forall] in H2. apply andb_true_iff in H2 as [Hc Hws].
    cbn [skip_whitespace]. rewrite Hc. now apply IH.
  - assert (is_whitespace c = false) as Hc.
    { destruct (is_whitespace c) eqn:E; [| reflexivity]. exfalso.
      cbn [skip_whitespace] in Hskip. rewrite E in Hskip.
      apply (f_equal String.length) in Hskip. cbn [String.length] in Hskip.
      pose proof (skip_whitespace_length k). lia. }
    rewrite string_app_cons. cbn [skip_whitespace]. rewrite Hc.
    rewrite <- string_app_cons, trimEnd_app_r by exact H2. exact Hend.
Qed.

Lemma truthy_false (v : option string) :
  truthy v = false -> v = None \/ v = Some "".
Proof.
  destruct v as [s|]; [| auto]. cbn [truthy]. intros H.
  apply negb_false_iff, String.eqb_eq in H. subst. auto.
Qed.

(** The check lets every request through exactly when no admin key is
    configured. *)
Theorem admin_check_open_iff_no_key (cfg : config) :
  (forall request : admin_request, requireAdminApiKey cfg request = None)
  <-> adminApiKey (security cfg) = "".
Proof.
  split.
  - intros H.
    specialize (H {| header_x_api_key := None; header_authorization := None;
                     query_apiKey := None |}).
    unfold requireAdminApiKey in H. cbn [truthy] in H.
    destruct (String.eqb_spec (adminApiKey (security cfg)) "") as [E | _];
      [exact E | discriminate H].
  - intros E request. unfold requireAdminApiKey. rewrite E. reflexivity.
Qed.

(** With a key configured, a request passes only if it carries that key:
    as the x-api-key header, as the trimmed rest of an Authorization
    header, or as the one [apiKey] query parameter. *)
Theorem admin_check_sound (cfg : config) (request : admin_request) :
  adminApiKey (security cfg) <> "" ->
  requireAdminApiKey cfg request = None ->
  let expected := adminApiKey (security cfg) in
  header_x_api_key request = Some expected
  \/ (exists authHeader : string,
        header_authorization request = Some authHeader
        /\ startsWith (toLowerCase authHeader) "bearer " = true
        /\ trim (slice_from 7 authHeader) = expected)
  \/ query_apiKey request = Some (QueryString expected).
Proof.
  intros Hkey. unfold requireAdminApiKey. cbn [truthy].
  destruct (String.eqb_spec (adminApiKey (security cfg)) "") as [E | _];
    [congruence |]. cbn [negb].
  set (bearerKey := match header_authorization request with
                    | Some a => _
                    | None => None
                    end).
  destruct (truthy (header_x_api_key request)) eqn:Hh.
  { destruct (header_x_api_key request) as [k|]; [| discriminate Hh].
    cbn [fmap option_fmap option_map].
    destruct (String.eqb_spec k (adminApiKey (security cfg))) as [-> | _];
      [auto | discriminate]. }
  destruct (truthy bearerKey) eqn:Hb.
  { destruct bearerKey as [k|] eqn:Ek; [| discriminate Hb].
    cbn [fmap option_fmap option_map].
    destruct (String.eqb_spec k (adminApiKey (security cfg))) as [-> | _];
      [| discriminate].
    intros _. cbv zeta. right. left. unfold bearerKey in Ek.
    destruct (header_authorization request) as [a|]; [| discriminate Ek].
    destruct (startsWith _ _) eqn:Hs; [| discriminate Ek].
    injection Ek as Ek. exists a. split; [reflexivity |]. split; [exact Hs | exact Ek]. }
  destruct (query_apiKey request) as [[k | l]|]; try discriminate.
  destruct (String.eqb_spec k (adminApiKey (security cfg))) as [-> | _];
    [auto | discriminate].
Qed.

(** A non-empty x-api-key header that is not the key is final: the
    request is refused with 401 whatever its Authorization header and
    query say. *)
Theorem wrong_api_key_header_is_final (cfg : config) (request : admin_request)
    (headerKey : string) :
  adminApiKey (security cfg) <> "" ->
  header_x_api_key request = Some headerKey ->
  headerKey <> "" -> headerKey <> adminApiKey (security cfg) ->
  exists r : response,
    requireAdminApiKey cfg request = Some r /\ error_response 401 r.
Proof.
  intros Hkey Hh Hne Hwrong. unfold requireAdminApiKey. cbn [truthy].
  destruct (String.eqb_spec (adminApiKey (security cfg)) "") as [E | _];
    [congruence |]. cbn [negb]. rewrite Hh. cbn [truthy].
  destruct (String.eqb_spec headerKey "") as [E | _]; [congruence |].
  cbn [negb fmap option_fmap option_map].
  destruct (String.eqb_spec headerKey (adminApiKey (security cfg))) as [E | _];
    [congruence |]. cbn [negb].
  eexists. split; [reflexivity |]. split; [reflexivity | eauto].
Qed.

(** Without an x-api-key header, an Authorization header passes when it
    is the word bearer in any mix of cases, a space, and the key, with any
    white space around the key. *)
Theorem bearer_token_accepted (cfg : config) (request : admin_request)
    (scheme ws1 ws2 : string) :
  let expected := adminApiKey (security cfg) in
  expected <> "" -> trim expected = expected ->
  truthy (header_x_api_key request) = false ->
  toLowerCase scheme = "bearer " ->
  string_forall is_whitespace ws1 = true ->
  string_forall is_whitespace ws2 = true ->
  header_authorization request = Some (scheme +:+ ws1 +:+ expected +:+ ws2) ->
  requireAdminApiKey cfg request = None.
Proof.
  intros expected Hkey Htrim Hh Hscheme H1 H2 Hauth.
  assert (String.length scheme = 7%nat) as Hlen.
  { rewrite <- (map_chars_length lower_char scheme).
    fold (toLowerCase scheme). now rewrite Hscheme. }
  unfold requireAdminApiKey. fold expected. cbn [truthy].
  destruct (String.eqb_spec expected "") as [E | _]; [congruence |].
  cbn [negb]. rewrite Hh, Hauth.
  unfold toLowerCase. rewrite map_chars_app. fold (toLowerCase scheme).
  rewrite Hscheme, startsWith_app.
  change (String.length "bearer ") with 7%nat. rewrite <- Hlen, slice_from_app.
  rewrite (trim_padded ws1 expected ws2 H1 H2 Htrim). cbn [truthy].
  destruct (String.eqb_spec expected "") as [E | _]; [congruence |].
  cbn [negb fmap option_fmap option_map]. rewrite String.eqb_refl. reflexivity.
Qed.

(** ** The name under which an upload is filed *)

Lemma startsWith_dash (s : string) :
  startsWith s "-" = match s with
                     | String c _ => Ascii.eqb c "-"
                     | EmptyString => false
                     end.
Proof.
  unfold startsWith. destruct s as [|c s]; [reflexivity |]. cbn [String.prefix].
  destruct (ascii_dec "-" c) as [<- | Hne].
  - destruct s; reflexivity.
  - symmetry. apply Ascii.eqb_neq. congruence.
Qed.

Lemma squeeze_dashes_head (s : string) :
  startsWith (squeeze_dashes s) "-" = startsWith s "-".
Proof.
  induction s as [|c s IH]; [reflexivity |]. cbn [squeeze_dashes].
  destruct (Ascii.eqb c "-" && startsWith s "-") eqn:E.
  - apply andb_true_iff in E as [Hc Hs]. rewrite IH, Hs.
    rewrite (startsWith_dash (String c s)). now rewrite Hc.
  - rewrite !startsWith_dash. reflexivity.
Qed.

Lemma squeeze_dashes_forall (P : ascii -> bool) (s : string) :
  string_forall P s = true -> string_forall P (squeeze_dashes s) = true.
Proof.
  induction s as [|c s IH]; [reflexivity |]. cbn [string_forall squeeze_dashes].
  intros H. apply andb_true_iff in H as [Hc Hs].
  destruct (Ascii.eqb c "-" && startsWith s "-"); [now apply IH |].
  cbn [string_forall]. now rewrite Hc, IH.
Qed.

Lemma squeeze_dashes_no_run (s : string) : includes (squeeze_dashes s) "--" = false.
Proof.
  induction s as [|c s IH]; [reflexivity |]. cbn [squeeze_dashes].
  destruct (Ascii.eqb c "-" && startsWith s "-") eqn:E; [exact IH |].
  cbn [includes]. rewrite IH, orb_false_r. cbn [String.prefix].
  destruct (ascii_dec "-" c) as [<- | Hne]; [| reflexivity].
  cbn [Ascii.eqb Bool.eqb andb] in E.
  fold (startsWith (squeeze_dashes s) "-"). now rewrite squeeze_dashes_head.
Qed.

Lemma squeeze_dashes_idempotent (s : string) :
  squeeze_dashes (squeeze_dashes s) = squeeze_dashes s.
Proof.
  induction s as [|c s IH]; [reflexivity |]. cbn [squeeze_dashes].
  destruct (Ascii.eqb c "-" && startsWith s "-") eqn:E; [exact IH |].
  cbn [squeeze_dashes]. rewrite squeeze_dashes_head, E, IH. reflexivity.
Qed.

Lemma map_chars_fixed (f : ascii -> ascii) (P : ascii -> bool) (s : string) :
  (forall c, P c = true -> f c = c) ->
  string_forall P s = true -> map_chars f s = s.
Proof.
  intros Hf. induction s as [|c s IH]; [reflexivity |]. cbn [string_forall map_chars].
  intros H. apply andb_true_iff in H as [Hc Hs]. now rewrite (Hf c Hc), IH.
Qed.

Lemma filename_chars_only (s : string) :
  string_forall filename_char
    (map_chars (fun c => if filename_char c then c else "-"%char) s) = true.
Proof.
  induction s as [|c s IH]; [reflexivity |]. cbn [map_chars string_forall].
  rewrite IH, andb_true_r. destruct (filename_char c) eqn:E; [exact E | reflexivity].
Qed.

Lemma cleanFilename_chars (lowercase : string -> string) (name : string) :
  string_forall filename_char (cleanFilename lowercase name) = true.
Proof. apply squeeze_dashes_forall, filename_chars_only. Qed.

(** The cleaned name of an upload holds only the characters a to z, 0 to
    9, dot and dash, and never two dashes in a row, whatever the name of
    the upload and whatever [toLowerCase] makes of it. *)
Theorem cleanFilename_alphabet (lowercase : string -> string) (name : string) :
  string_forall filename_char (cleanFilename lowercase name) = true
  /\ includes (cleanFilename lowercase name) "--" = false.
Proof.
  split; [apply cleanFilename_chars | apply squeeze_dashes_no_run].
Qed.

(** Cleaning a cleaned name changes nothing, given that [toLowerCase]
    leaves a string of lower-case letters, digits, dots and dashes as it
    is. *)
Theorem cleanFilename_idempotent (lowercase : string -> string) (name : string) :
  (forall s : string, string_forall filename_char s = true -> lowercase s = s) ->
  cleanFilename lowercase (cleanFilename lowercase name)
  = cleanFilename lowercase name.
Proof.
  intros Hlower. pose proof (cleanFilename_chars lowercase name) as Hall.
  unfold cleanFilename at 1. rewrite (Hlower _ Hall).
  rewrite (map_chars_fixed _ filename_char) by (try intros c ->; easy).
  apply squeeze_dashes_idempotent.
Qed.

Lemma lower_char_filename (c : ascii) : filename_char c = true -> lower_char c = c.
Proof.
  unfold filename_char, lower_char. set (n := nat_of_ascii c). intros H.
  assert (((65 <=? n) && (n <=? 90)
           || (192 <=? n) && (n <=? 222) && negb (n =? 215))%nat = false) as ->;
    [| reflexivity].
  apply orb_false_iff. split; apply andb_false_iff.
  - destruct (Nat.leb_spec n 90); [| auto]. left. apply Nat.leb_gt.
    repeat (apply orb_true_iff in H as [H | H]);
      try (apply andb_true_iff in H as [H1 H2]; apply Nat.leb_le in H1, H2; lia);
      apply Nat.eqb_eq in H; lia.
  - left. apply andb_false_iff.
    destruct (Nat.leb_spec 192 n); [| auto]. exfalso.
    repeat (apply orb_true_iff in H as [H | H]);
      try (apply andb_true_iff in H as [H1 H2]; apply Nat.leb_le in H1, H2; lia);
      apply Nat.eqb_eq in H; lia.
Qed.

(** [toLowerCase] on one-byte characters is such a function. *)
Lemma toLowerCase_filename (s : string) :
  string_forall filename_char s = true -> toLowerCase s = s.
Proof. apply map_chars_fixed, lower_char_filename. Qed.

(** ** Access tokens *)

Lemma split_nonempty (sep : ascii) (s : string) : split sep s <> [].
Proof.
  destruct s as [|c s]; cbn [split]; [discriminate |].
  destruct (Ascii.eqb c sep); [discriminate |].
  destruct (split sep s); discriminate.
Qed.

Lemma split_app (sep : ascii) (a b : string) :
  split sep (a +:+ String sep b) = (split sep a ++ split sep b)%list.
Proof.
  induction a as [|c a IH].
  - rewrite string_app_nil_l. cbn [split]. now rewrite Ascii.eqb_refl.
  - rewrite string_app_cons. cbn [split]. rewrite IH.
    destruct (Ascii.eqb c sep); [reflexivity |].
    pose proof (split_nonempty sep a).
    destruct (split sep a) as [|p ps]; [congruence | reflexivity].
Qed.

Section TokenSpec.
Variable payload_object : Type.
Variable hmac_sha256_base64url : string -> string -> string.
Variable base64url_encode : string -> string.
Variable base64url_decode : string -> string.
Variable stringify_payload : string -> payload_object -> Z -> string.
Variable JSON_parse : string -> option payload_object.
Variable cfg : config.

Local Abbreviation generate :=
  (generateAccessToken payload_object hmac_sha256_base64url base64url_encode
     stringify_payload cfg).
Local Abbreviation verify :=
  (verifyAccessToken payload_object hmac_sha256_base64url base64url_decode
     JSON_parse cfg).

(** A generated token verifies, and the result is the parse of the
    serialised payload, given what base64url ensures: the encoding and the
    signature hold no dot, and decoding undoes encoding. *)
Theorem access_token_round_trip (Date_now : Z) (fileId : string)
    (metadata : payload_object) :
  let text := stringify_payload fileId metadata (Date_now / 1000) in
  let base64Payload := base64url_encode text in
  string_forall no_dot base64Payload = true ->
  string_forall no_dot
    (hmac_sha256_base64url (jwtSecret (security cfg)) base64Payload) = true ->
  base64url_decode base64Payload = text ->
  verify (generate Date_now fileId metadata) = JSON_parse text.
Proof.
  intros text base64Payload Hp Hs Hdec.
  unfold generateAccessToken, verifyAccessToken. fold text base64Payload.
  rewrite string_app_cons, string_app_nil_l.
  rewrite (split_app_sep "." base64Payload _ Hp), (split_no_sep "." _ Hs).
  cbn [head]. rewrite bool_decide_eq_true_2 by reflexivity. cbn [negb].
  now rewrite Hdec.
Qed.

(** Only the first two dot-separated segments of a token are read: a
    token that verifies still verifies, to the same payload, with a dot and
    anything at all appended. *)
Theorem access_token_trailing_segments_ignored (token extra : string)
    (payload : payload_object) :
  verify token = Some payload ->
  verify (token +:+ "." +:+ extra) = Some payload.
Proof.
  unfold verifyAccessToken. rewrite string_app_cons, string_app_nil_l, split_app.
  destruct (split "." token) as [|base64Payload rest]; [discriminate |].
  cbn [app]. destruct rest as [|signature rest].
  - cbn [head]. rewrite bool_decide_eq_false_2 by discriminate. discriminate.
  - cbn [app head]. auto.
Qed.

(** A token without a dot has no signature segment and is refused. *)
Theorem access_token_without_dot_refused (token : string) :
  string_forall no_dot token = true -> verify token = None.
Proof.
  intros H. unfold verifyAccessToken. rewrite (split_no_sep "." token H).
  cbn [head]. rewrite bool_decide_eq_false_2 by discriminate. reflexivity.
Qed.
End TokenSpec.

(** ** The purge route of the origin *)

(** A purge of an unknown identifier changes nothing.  A purge of a known
    one, whose version and its successor are safe integers, names the new
    version [(version || 1) + 1]: the version plus one, and two for a
    version of zero.  It is greater than the old one; that record gets it
    and the time of the update and keeps its other columns; every other
    record is as it was; the edge is touched only when the notification
    reaches it, and then by one delete of the key of version 1. *)
Theorem admin_purge_touches_one_record (Date_now : Z) (edge_reachable : bool)
    (id : string) (s : system) :
  let result := adminPurge Date_now edge_reachable id s in
  match db s !! id with
  | None => result = (PurgeNotFound, s)
  | Some file =>
      let newVersion := (if version file =? 0 then 1 else version file) + 1 in
      safe_integer (version file) -> safe_integer newVersion ->
        fst result = PurgeDone id newVersion
        /\ (version file <> 0 -> newVersion = version file + 1)
        /\ (version file = 0 -> newVersion = 2)
        /\ version file < newVersion
        /\ db (snd result) !! id = Some (purged_record file newVersion Date_now)
        /\ (forall other : string, other <> id ->
              db (snd result) !! other = db s !! other)
        /\ memoryCache (edge_world (snd result))
           = (if edge_reachable
              then deleteFromCache (generateCacheKey (id_ file) None)
                     (memoryCache (edge_world s))
              else memoryCache (edge_world s))
        /\ events (edge_world (snd result))
           = (events (edge_world s)
              ++ if edge_reachable
                 then [CacheDelete (generateCacheKey (id_ file) None)]
                 else [])%list
  end.
Proof.
  intros result. unfold result, adminPurge, getFileById, updateFile.
  destruct (db s !! id) as [file|] eqn:E; [| reflexivity].
  cbv zeta. intros _ _.
  set (newVersion := (if version file =? 0 then 1 else version file) + 1).
  cbn [fst snd db edge_world]. split; [reflexivity |].
  assert (version file <> 0 -> newVersion = version file + 1) as Hne.
  { intros H. unfold newVersion. apply Z.eqb_neq in H. now rewrite H. }
  assert (version file = 0 -> newVersion = 2) as Heq.
  { intros H. unfold newVersion. now rewrite H. }
  split; [exact Hne |]. split; [exact Heq |].
  split; [destruct (Z.eq_dec (version file) 0) as [H | H];
          [rewrite (Heq H) | rewrite (Hne H)]; lia |].
  split; [now rewrite lookup_insert_eq |].
  split; [intros other Hother; now rewrite lookup_insert_ne by congruence |].
  destruct edge_reachable; cbn [purgeRoute call_deleteFromCache snd memoryCache events];
    split; try reflexivity.
  now rewrite app_nil_r.
Qed.

(** ** Instances *)

(** [bytes=12-15] on the ten-byte entry: 206 with an empty body. *)
Lemma unsatisfiable_range_gives_empty_206_witness :
  exists r : response,
    example_serve example_config new_reply example_entry
      (example_request {[ "range" := "bytes=12-15" ]}) = Returned r
    /\ status r = 206
    /\ responseHeaders r !! "Content-Range" = Some "bytes 12-15/10"
    /\ body r = BufferPayload [].
Proof.
  destruct (unsatisfiable_range_gives_empty_206 example_getTime example_gzip
              example_brotli example_config example_entry
              (example_request {[ "range" := "bytes=12-15" ]}) 12 15)
    as (r & Hr & Hs & Hcr & Hb).
  - vm_compute. reflexivity.
  - vm_compute. reflexivity.
  - unfold MAX_SAFE_INTEGER. lia.
  - unfold MAX_SAFE_INTEGER. lia.
  - vm_compute. discriminate.
  - left. vm_compute. discriminate.
  - exists r. repeat split; assumption.
Defined.

(** [bytes=-3] on the ten-byte entry: the first four bytes. *)
Lemma suffix_range_gives_prefix_witness :
  exists r : response,
    example_serve example_config new_reply example_entry
      (example_request {[ "range" := "bytes=-3" ]}) = Returned r
    /\ status r = 206
    /\ responseHeaders r !! "Content-Range" = Some "bytes NaN-3/10"
    /\ body r = BufferPayload [Byte.x30; Byte.x31; Byte.x32; Byte.x33].
Proof.
  destruct (suffix_range_gives_prefix example_getTime example_gzip
              example_brotli example_config example_entry
              (example_request {[ "range" := "bytes=-3" ]}) 3)
    as (r & Hr & Hs & Hcr & Hb).
  - vm_compute. reflexivity.
  - vm_compute. reflexivity.
  - unfold MAX_SAFE_INTEGER. lia.
  - vm_compute. discriminate.
  - exists r. repeat split; assumption.
Defined.

(** The gzip answer for the ten-byte entry announces the length of the
    compressed body. *)
Lemma full_response_length_matches_body_witness :
  exists (r : response) (b : list byte),
    example_serve example_config new_reply example_entry
      (example_request {[ "accept-encoding" := "gzip" ]}) = Returned r
    /\ body r = BufferPayload b
    /\ responseHeaders r !! "Content-Length" = Some (decimal (Z.of_nat (length b)))
    /\ responseHeaders r !! "Vary" = Some "Accept-Encoding".
Proof.
  assert (exists r : response,
            example_serve example_config new_reply example_entry
              (example_request {[ "accept-encoding" := "gzip" ]}) = Returned r
            /\ status r = 200
            /\ responseHeaders r !! "Content-Encoding" = Some "gzip")
    as (r & Hr & Hs & Hce).
  { eexists. split; [vm_compute; reflexivity |]. split; vm_compute; reflexivity. }
  destruct (full_response_length_matches_body example_getTime example_gzip
              example_brotli example_config example_entry _ r Hr Hs)
    as (b & Hb & Hcl & _ & Hvary).
  exists r, b. repeat split; try assumption.
  apply Hvary. rewrite Hce. eauto.
Defined.

(** A matching If-None-Match on the example entry gives a 304, for that
    reason. *)
Lemma not_modified_only_for_matching_validator_witness :
  exists r : response,
    example_serve example_config new_reply example_entry
      (example_request {[ "if-none-match" := "abc" ]}) = Returned r
    /\ status r = 304
    /\ body r = NoPayload.
Proof.
  assert (exists r : response,
            example_serve example_config new_reply example_entry
              (example_request {[ "if-none-match" := "abc" ]}) = Returned r
            /\ status r = 304) as (r & Hr & Hs).
  { eexists. split; vm_compute; reflexivity. }
  destruct (not_modified_only_for_matching_validator example_getTime example_gzip
              example_brotli example_config example_entry _ r Hr Hs) as [Hb _].
  exists r. repeat split; assumption.
Defined.

(** With the cache off, the example request goes to the origin. *)
Lemma disabled_cache_goes_to_origin_witness :
  let w' := snd (example_cdn (example_origin old_content) (example_request ∅)
                   cacheless_world) in
  memoryCache w' = None
  /\ exists evs : list event,
       events w'
       = ([CacheGet "abc123:v1"; Log "info" "Cache MISS: abc123";
           AxiosGet "http://localhost:3000/api/files/abc123"] ++ evs)%list.
Proof.
  apply (disabled_cache_goes_to_origin example_hmac example_getTime example_gzip
           example_brotli example_config (example_origin old_content)
           example_clock (example_request ∅) cacheless_world).
  - reflexivity.
  - intros H. discriminate H.
Defined.

(** A download without a Content-Type, through the example edge: the
    entry is stored and the request is rejected. *)
Lemma untyped_download_is_cached_then_rejected_witness :
  exists (e : error) (entry : cacheEntry),
    fst (example_cdn (constant_origin ∅ old_content) (example_request ∅)
           (initial_world example_config)) = Returned (Thrown e)
    /\ content entry = old_content
    /\ memoryCache (snd (example_cdn (constant_origin ∅ old_content)
                           (example_request ∅) (initial_world example_config)))
       = setInCache 5000 "abc123:v1" entry (initCache example_config None).
Proof.
  destruct (untyped_download_is_cached_then_rejected example_hmac example_getTime
              example_gzip example_brotli example_config
              (constant_origin ∅ old_content) example_clock (example_request ∅)
              (initial_world example_config) (initCache example_config None)
              {| http_status := 200; http_headers := ∅; http_data := old_content |})
    as (e & entry & H1 & H2 & H3 & _).
  - intros H. discriminate H.
  - vm_compute. reflexivity.
  - reflexivity.
  - reflexivity.
  - reflexivity.
  - intros url. reflexivity.
  - reflexivity.
  - reflexivity.
  - exists e, entry. repeat split; assumption.
Defined.

(** The example request twice at the same reading of the clocks: the
    second answer is the first, and it comes from the cache. *)
Lemma repeated_request_is_served_from_cache_witness :
  let org := constant_origin {[ "content-type" := "text/plain" ]} old_content in
  let first := example_cdn org (example_request ∅) (initial_world example_config) in
  let second := example_cdn org (example_request ∅) (snd first) in
  fst second = fst first
  /\ events (snd second)
     = (events (snd first)
        ++ [CacheGet "abc123:v1"; Log "info" "Cache HIT: abc123"])%list.
Proof.
  intros org first second.
  destruct (repeated_request_is_served_from_cache example_hmac example_getTime
              example_gzip example_brotli example_config org example_clock
              example_clock (example_request ∅) (initial_world example_config)
              (LRUCache.new 100 3600000)) as [H1 H2].
  - reflexivity.
  - intros H. discriminate H.
  - intros H. discriminate H.
  - reflexivity.
  - intros url. eexists. split; reflexivity.
  - split; [exact H1 | exact H2].
Defined.

(** After a purge of the example file the example request asks the origin. *)
Lemma purged_file_is_fetched_again_witness :
  exists evs : list event,
    events (snd (example_cdn (example_origin new_content) (example_request ∅)
                   (snd (purgeRoute "abc123" (initial_world example_config)))))
    = ([CacheDelete "abc123:v1"; CacheGet "abc123:v1";
        Log "info" "Cache MISS: abc123";
        AxiosGet "http://localhost:3000/api/files/abc123"] ++ evs)%list.
Proof.
  destruct (purged_file_is_fetched_again example_hmac example_getTime
              example_gzip example_brotli example_config
              (example_origin new_content) example_clock (example_request ∅)
              (initial_world example_config)) as [[evs H] _].
  - intros H. discriminate H.
  - exists evs. exact H.
Defined.

(** The purge of another file does not change the answer for the example
    file. *)
Lemma purge_leaves_other_files_witness :
  fst (example_cdn (example_origin old_content) (example_request ∅)
         (snd (purgeRoute "other" (initial_world example_config))))
  = fst (example_cdn (example_origin old_content) (example_request ∅)
           (initial_world example_config)).
Proof.
  apply (purge_leaves_other_files example_hmac example_getTime example_gzip
           example_brotli example_config (example_origin old_content)
           example_clock (example_request ∅) (initial_world example_config) "other").
  discriminate.
Defined.

(** The key of a name without a version is the key of its version 1. *)
Lemma generateCacheKey_injective_witness :
  generateCacheKey "a.jpg" None = generateCacheKey "a.jpg" (Some (Num 1))
  /\ default (Num 1) None = default (Num 1) (Some (Num 1)).
Proof.
  assert (generateCacheKey "a.jpg" None = generateCacheKey "a.jpg" (Some (Num 1)))
    as H by reflexivity.
  split; [exact H |].
  exact (proj2 (generateCacheKey_injective "a.jpg" "a.jpg" None (Some (Num 1)) H)).
Defined.

(** The key in the x-api-key header passes the check. *)
Lemma admin_check_sound_witness :
  let request := {| header_x_api_key := Some "s3cret";
                    header_authorization := None; query_apiKey := None |} in
  requireAdminApiKey keyed_config request = None
  /\ (header_x_api_key request = Some "s3cret"
      \/ (exists authHeader : string,
            header_authorization request = Some authHeader
            /\ startsWith (toLowerCase authHeader) "bearer " = true
            /\ trim (slice_from 7 authHeader) = "s3cret")
      \/ query_apiKey request = Some (QueryString "s3cret")).
Proof.
  intros request.
  assert (requireAdminApiKey keyed_config request = None) as H by reflexivity.
  split; [exact H |].
  apply (admin_check_sound keyed_config request); [discriminate | exact H].
Defined.

(** A wrong x-api-key header is refused although the Authorization
    header carries the key. *)
Lemma wrong_api_key_header_is_final_witness :
  exists r : response,
    requireAdminApiKey keyed_config
      {| header_x_api_key := Some "nope";
         header_authorization := Some "Bearer s3cret";
         query_apiKey := Some (QueryString "s3cret") |} = Some r
    /\ error_response 401 r.
Proof.
  apply (wrong_api_key_header_is_final keyed_config _ "nope");
    [discriminate | reflexivity | discriminate | discriminate].
Defined.

(** [BeArEr], then the key with spaces around it. *)
Lemma bearer_token_accepted_witness :
  requireAdminApiKey keyed_config
    {| header_x_api_key := None;
       header_authorization := Some "BeArEr  s3cret  ";
       query_apiKey := None |} = None.
Proof.
  apply (bearer_token_accepted keyed_config _ "BeArEr " " " "  ");
    first [discriminate | reflexivity].
Defined.

(** Cleaning the cleaned form of a name with capitals, spaces and
    brackets. *)
Lemma cleanFilename_idempotent_witness :
  cleanFilename toLowerCase (cleanFilename toLowerCase "My File (1).TXT")
  = cleanFilename toLowerCase "My File (1).TXT".
Proof.
  apply (cleanFilename_idempotent toLowerCase "My File (1).TXT").
  exact toLowerCase_filename.
Defined.

(** A token of the example services verifies to its payload text. *)
Lemma access_token_round_trip_witness :
  example_verify (example_generate 1700000000000 "abc123" "m") = Some "abc123:m".
Proof.
  apply (access_token_round_trip string example_hmac (fun s => s) (fun s => s)
           (fun fileId metadata iat => fileId +:+ ":" +:+ metadata) Some
           example_config 1700000000000 "abc123" "m");
    reflexivity.
Defined.

(** The same token with two more segments still verifies. *)
Lemma access_token_trailing_segments_ignored_witness :
  example_verify (example_generate 1700000000000 "abc123" "m" +:+ "." +:+ "x.y")
  = Some "abc123:m".
Proof.
  apply (access_token_trailing_segments_ignored string example_hmac (fun s => s)
           Some example_config
           (example_generate 1700000000000 "abc123" "m") "x.y" "abc123:m").
  reflexivity.
Defined.

(** A token that is one segment only. *)
Lemma access_token_without_dot_refused_witness : example_verify "abc123" = None.
Proof.
  apply (access_token_without_dot_refused string example_hmac (fun s => s)
           Some example_config "abc123").
  reflexivity.
Defined.

(** The metadata of the example origin names [abc123]; the download
    follows it. *)
Lemma download_follows_metadata_id_witness :
  exists evs : list event,
    events (snd (fetchFromOrigin example_getTime example_gzip example_brotli
                   example_config (example_origin old_content) example_clock
                   (example_request ∅) "abc123:v1" (initial_world example_config)))
    = ([AxiosGet "http://localhost:3000/api/files/abc123";
        AxiosGet "http://localhost:3000/api/files/abc123/download"] ++ evs)%list.
Proof.
  apply (download_follows_metadata_id example_getTime example_gzip example_brotli
           example_config (example_origin old_content) example_clock
           (example_request ∅) "abc123:v1" (initial_world example_config)
           {| http_status := 200; http_headers := ∅;
              http_data := JsonValue (Some "abc123") |} (Some "abc123"));
    reflexivity.
Defined.

(** A link issued at 1700000000 seconds with the default lifetime of an
    hour, presented at once: its query string, and the lookup that follows
    the signature check. *)
Lemma signed_link_until_expiry_witness :
  let s := generateSignedUrl example_hmac example_config 1700000000000 "abc123" None in
  su_url s
  = "/cdn/abc123?expires=1700003600&signature=your-secret-key-change-this/abc123:1700003600"
  /\ exists evs : list event,
       events (snd (example_cdn (example_origin old_content) (signed_request s ∅)
                      (initial_world example_config)))
       = ([VerifySignedUrl "abc123" (Num 1700003600) (su_signature s);
           CacheGet "abc123:v1"] ++ evs)%list.
Proof.
  intros s. split; [vm_compute; reflexivity |].
  destruct (signed_link_until_expiry example_hmac example_getTime example_gzip
              example_brotli example_config (example_origin old_content)
              1700000000000 "abc123" None ∅ example_clock
              (initial_world example_config)) as (_ & Hlive & _).
  - unfold time_value. lia.
  - vm_compute. split; discriminate.
  - vm_compute. split; discriminate.
  - vm_compute. split; discriminate.
  - destruct Hlive as [evs Hevs]; [vm_compute; discriminate |].
    exists evs. fold s in Hevs. unfold example_cdn. rewrite Hevs. vm_compute. reflexivity.
Defined.

(** The purge of the example file at version 1: the new version is 2. *)
Lemma admin_purge_touches_one_record_witness :
  let sys := {| db := example_db; edge_world := initial_world example_config |} in
  let result := adminPurge 1700000001000 true "abc123" sys in
  fst result = PurgeDone "abc123" 2
  /\ version <$> (db (snd result) !! "abc123") = Some 2
  /\ events (edge_world (snd result)) = [CacheDelete "abc123:v1"].
Proof.
  intros sys result.
  pose proof (admin_purge_touches_one_record 1700000001000 true "abc123" sys) as H.
  cbv zeta in H. fold result in H.
  assert (db sys !! "abc123"
          = Some {| id_ := "abc123"; filename := "a.jpg"; mime_type := "text/plain";
                    size := 3; is_public := 1; version := 1;
                    updated_at := 1699999999000 |}) as E by reflexivity.
  rewrite E in H. cbn [version Z.eqb] in H.
  destruct H as (H1 & _ & _ & _ & H2 & _ & _ & H3).
  - unfold safe_integer, MAX_SAFE_INTEGER. lia.
  - unfold safe_integer, MAX_SAFE_INTEGER. lia.
  - split; [exact H1 |]. split; [rewrite H2; reflexivity | exact H3].
Defined.
